(** * Verification of the video recommendation engine

    Shallow embedding of [recommender_system/recommendation_engine.py]:
    the relational-to-graph synchronisation (Cypher [MERGE] statements run
    against the graph store), the similarity computation, the training
    life cycle with its persisted artifacts, the staleness detector, the
    query-time retrieval, and the forward pass of [HeteroGNNModel].

    Conventions.
    - Identifiers of nodes are the external string ids ([str(user.id)],
      [video_id], ...).
    - A node table or relationship table of the graph store is a keyed list
      in store order; [MERGE] looks a key up and appends when it is absent.
    - Floating-point scores are idealised as rationals ([Q]); comparisons
      against the constants 0.3 and 1.2 are stated on the exact ratio.
    - Python exceptions are the [Raise] case of [result]. *)

From stdpp Require Import gmap strings list sorting pretty.
From Stdlib Require Import QArith Lqa Ascii.
Close Scope Q_scope.
Local Open Scope Z_scope.
Set Warnings "-clear-no-such-hyp,-abstract-large-number".

(** ** Python values and exceptions *)

Inductive exn :=
  | KeyError
  | IndexError
  | ValueError
  | AttributeError
  | TypeError
  | JSONDecodeError
  | ZeroDivisionError
  | FaissError.

Inductive result (A : Type) :=
  | Ok (a : A)
  | Raise (e : exn).
Arguments Ok {A} a.
Arguments Raise {A} e.

#[global] Instance exn_eq_dec : EqDecision exn.
Proof. solve_decision. Defined.

(** ** Cypher: keyed tables and [MERGE] *)

Section cypher.
Context {K V : Type} `{EqDecision K}.
Implicit Types (l : list (K * V)) (k : K).

(** The keys of a table, in store order. *)
Definition keys l : list K := l.*1.

(** [MATCH (n {key: k})]: the first entry under [k]. *)
Fixpoint cy_get k l : option V :=
  match l with
  | [] => None
  | (k', v) :: l' => if decide (k' = k) then Some v else cy_get k l'
  end.

Definition has_key k l : bool := bool_decide (k ∈ keys l).

(** [SET] on every entry whose key satisfies [p]. *)
Definition cy_set_where (p : K → bool) (f : V → V) l : list (K * V) :=
  (λ kv, if p kv.1 then (kv.1, f kv.2) else kv) <$> l.

(** [MERGE pattern ON CREATE SET ... ON MATCH SET ...]: when some entry
    matches [p] every match is updated by [on_match]; otherwise one entry
    [(k, on_create)] is appended. *)
Definition cy_merge_where (p : K → bool) k (on_create : V) (on_match : V → V) l
  : list (K * V) :=
  if existsb (λ kv, p kv.1) l then cy_set_where p on_match l
  else l ++ [(k, on_create)].

Definition key_is k : K → bool := λ k', bool_decide (k' = k).

Definition cy_merge k (on_create : V) (on_match : V → V) l : list (K * V) :=
  cy_merge_where (key_is k) k on_create on_match l.

Definition cy_set k (f : V → V) l : list (K * V) := cy_set_where (key_is k) f l.

End cypher.

(** ** The graph store *)

(** A node: the attributes written by the sync statement of its label
    ([None] for a node that was only created as the endpoint of a
    relationship), and the properties every label shares. *)
Record Node (A : Type) := {
  attrs : option A;
  updated_at : option Z;
  embedding : option string;
  embedding_updated : option Z
}.
Arguments attrs {A} _.
Arguments updated_at {A} _.
Arguments embedding {A} _.
Arguments embedding_updated {A} _.

Record VideoAttrs := {
  title : string;
  categories : list string;
  parent_categories : list string
}.

Record CategoryAttrs := {
  category_name : string;
  parent_category : string
}.

Record WatchesRel := { rel_watch_time : Q; rel_timestamp : string }.
Record InterestedIn := { score : Q; count : Z }.
Record SimilarTo := { similarity : Q; similar_updated_at : Z }.

Record Graph := {
  users : list (string * Node string);
  videos : list (string * Node VideoAttrs);
  category_nodes : list (string * Node CategoryAttrs);
  parent_nodes : list (string * Node string);
  watches : list ((string * string) * WatchesRel);
  likes : list ((string * string) * string);
  follows : list ((string * string) * string);
  created_by : list ((string * string) * unit);
  belongs_to : list ((string * string) * unit);
  parent_of : list ((string * string) * unit);
  interested_in : list ((string * string) * InterestedIn);
  similar_to : list ((string * string) * SimilarTo);
  db_clock : Z
}.

Definition empty_graph : Graph :=
  {| users := []; videos := []; category_nodes := []; parent_nodes := [];
     watches := []; likes := []; follows := []; created_by := [];
     belongs_to := []; parent_of := []; interested_in := []; similar_to := [];
     db_clock := 0 |}.

Definition with_users f (g : Graph) : Graph :=
  {| users := f (users g); videos := videos g; category_nodes := category_nodes g;
     parent_nodes := parent_nodes g; watches := watches g; likes := likes g;
     follows := follows g; created_by := created_by g; belongs_to := belongs_to g;
     parent_of := parent_of g; interested_in := interested_in g;
     similar_to := similar_to g; db_clock := db_clock g |}.

Definition with_videos f (g : Graph) : Graph :=
  {| users := users g; videos := f (videos g); category_nodes := category_nodes g;
     parent_nodes := parent_nodes g; watches := watches g; likes := likes g;
     follows := follows g; created_by := created_by g; belongs_to := belongs_to g;
     parent_of := parent_of g; interested_in := interested_in g;
     similar_to := similar_to g; db_clock := db_clock g |}.

Definition with_category_nodes f (g : Graph) : Graph :=
  {| users := users g; videos := videos g; category_nodes := f (category_nodes g);
     parent_nodes := parent_nodes g; watches := watches g; likes := likes g;
     follows := follows g; created_by := created_by g; belongs_to := belongs_to g;
     parent_of := parent_of g; interested_in := interested_in g;
     similar_to := similar_to g; db_clock := db_clock g |}.

Definition with_parent_nodes f (g : Graph) : Graph :=
  {| users := users g; videos := videos g; category_nodes := category_nodes g;
     parent_nodes := f (parent_nodes g); watches := watches g; likes := likes g;
     follows := follows g; created_by := created_by g; belongs_to := belongs_to g;
     parent_of := parent_of g; interested_in := interested_in g;
     similar_to := similar_to g; db_clock := db_clock g |}.

Definition with_watches f (g : Graph) : Graph :=
  {| users := users g; videos := videos g; category_nodes := category_nodes g;
     parent_nodes := parent_nodes g; watches := f (watches g); likes := likes g;
     follows := follows g; created_by := created_by g; belongs_to := belongs_to g;
     parent_of := parent_of g; interested_in := interested_in g;
     similar_to := similar_to g; db_clock := db_clock g |}.

Definition with_likes f (g : Graph) : Graph :=
  {| users := users g; videos := videos g; category_nodes := category_nodes g;
     parent_nodes := parent_nodes g; watches := watches g; likes := f (likes g);
     follows := follows g; created_by := created_by g; belongs_to := belongs_to g;
     parent_of := parent_of g; interested_in := interested_in g;
     similar_to := similar_to g; db_clock := db_clock g |}.

Definition with_follows f (g : Graph) : Graph :=
  {| users := users g; videos := videos g; category_nodes := category_nodes g;
     parent_nodes := parent_nodes g; watches := watches g; likes := likes g;
     follows := f (follows g); created_by := created_by g; belongs_to := belongs_to g;
     parent_of := parent_of g; interested_in := interested_in g;
     similar_to := similar_to g; db_clock := db_clock g |}.

Definition with_created_by f (g : Graph) : Graph :=
  {| users := users g; videos := videos g; category_nodes := category_nodes g;
     parent_nodes := parent_nodes g; watches := watches g; likes := likes g;
     follows := follows g; created_by := f (created_by g); belongs_to := belongs_to g;
     parent_of := parent_of g; interested_in := interested_in g;
     similar_to := similar_to g; db_clock := db_clock g |}.

Definition with_belongs_to f (g : Graph) : Graph :=
  {| users := users g; videos := videos g; category_nodes := category_nodes g;
     parent_nodes := parent_nodes g; watches := watches g; likes := likes g;
     follows := follows g; created_by := created_by g; belongs_to := f (belongs_to g);
     parent_of := parent_of g; interested_in := interested_in g;
     similar_to := similar_to g; db_clock := db_clock g |}.

Definition with_parent_of f (g : Graph) : Graph :=
  {| users := users g; videos := videos g; category_nodes := category_nodes g;
     parent_nodes := parent_nodes g; watches := watches g; likes := likes g;
     follows := follows g; created_by := created_by g; belongs_to := belongs_to g;
     parent_of := f (parent_of g); interested_in := interested_in g;
     similar_to := similar_to g; db_clock := db_clock g |}.

Definition with_interested_in f (g : Graph) : Graph :=
  {| users := users g; videos := videos g; category_nodes := category_nodes g;
     parent_nodes := parent_nodes g; watches := watches g; likes := likes g;
     follows := follows g; created_by := created_by g; belongs_to := belongs_to g;
     parent_of := parent_of g; interested_in := f (interested_in g);
     similar_to := similar_to g; db_clock := db_clock g |}.

Definition with_similar_to f (g : Graph) : Graph :=
  {| users := users g; videos := videos g; category_nodes := category_nodes g;
     parent_nodes := parent_nodes g; watches := watches g; likes := likes g;
     follows := follows g; created_by := created_by g; belongs_to := belongs_to g;
     parent_of := parent_of g; interested_in := interested_in g;
     similar_to := f (similar_to g); db_clock := db_clock g |}.

(** The end of one [session.run]: the clock of the store moves on. *)
Definition tick (g : Graph) : Graph :=
  {| users := users g; videos := videos g; category_nodes := category_nodes g;
     parent_nodes := parent_nodes g; watches := watches g; likes := likes g;
     follows := follows g; created_by := created_by g; belongs_to := belongs_to g;
     parent_of := parent_of g; interested_in := interested_in g;
     similar_to := similar_to g; db_clock := db_clock g + 1 |}.

(** A node that a [MERGE] created without a [SET]. *)
Definition bare {A} : Node A :=
  {| attrs := None; updated_at := None; embedding := None; embedding_updated := None |}.

(** [SET n.<attributes> = a, n.updated_at = datetime()]. *)
Definition set_attrs {A} (a : A) (now : Z) (n : Node A) : Node A :=
  {| attrs := Some a; updated_at := Some now;
     embedding := embedding n; embedding_updated := embedding_updated n |}.

(** [SET n.embedding = e, n.embedding_updated = datetime()]. *)
Definition set_embedding {A} (e : string) (now : Z) (n : Node A) : Node A :=
  {| attrs := attrs n; updated_at := updated_at n;
     embedding := Some e; embedding_updated := Some now |}.

(** [MERGE (n:Label {id: k}) SET n.<attributes> = a, n.updated_at = datetime()]. *)
Definition merge_node {A} (k : string) (a : A) (now : Z) (l : list (string * Node A)) :=
  cy_merge k (set_attrs a now bare) (set_attrs a now) l.

(** [MERGE (n:Label {id: k})] with no [SET]. *)
Definition merge_bare {A} (k : string) (l : list (string * Node A)) :=
  cy_merge k bare id l.

(** [MERGE (a)-[:REL]->(b)] with no property. *)
Definition merge_edge (k : string * string) (l : list ((string * string) * unit)) :=
  cy_merge k () id l.

(** [MERGE (a)-[r:REL]->(b) SET r.<properties> = p]. *)
Definition merge_rel {P} (k : string * string) (p : P) (l : list ((string * string) * P)) :=
  cy_merge k p (λ _, p) l.

(** ** The relational source (Django models) *)

Record User := { user_id : string; user_username : string }.
Record ParentCategory := { parent_category_id : string; parent_name : string }.
Record Category := {
  category_id : string;
  category_label : string;
  category_parent : ParentCategory
}.
Record Video := {
  video_id : string;
  video_title : string;
  creator : User;
  video_categories : list Category;
  video_parent_categories : list ParentCategory
}.
Record Watch := {
  watch_user : User;
  watch_video : Video;
  watch_time : Q;
  watch_timestamp : string
}.
Record Like := { like_user : User; like_video : Video; like_timestamp : string }.
Record Follow := { follower : User; followee : User; follow_timestamp : string }.
Record UserCategoryInterest := { interest_score : Q; interaction_count : Z }.

Record Django := {
  User_objects : list User;
  Video_objects : list Video;
  Category_objects : list Category;
  ParentCategory_objects : list ParentCategory;
  Watch_objects : list Watch;
  Like_objects : list Like;
  Follow_objects : list Follow;
  UserCategoryInterest_objects : list ((string * string) * UserCategoryInterest)
}.

Definition with_interests f (db : Django) : Django :=
  {| User_objects := User_objects db; Video_objects := Video_objects db;
     Category_objects := Category_objects db;
     ParentCategory_objects := ParentCategory_objects db;
     Watch_objects := Watch_objects db; Like_objects := Like_objects db;
     Follow_objects := Follow_objects db;
     UserCategoryInterest_objects := f (UserCategoryInterest_objects db) |}.

(** The two stores a sync operation writes: there is no transaction
    across them. *)
Record Stores := { django : Django; neo4j : Graph }.

Definition on_graph (f : Graph → Graph) (s : Stores) : Stores :=
  {| django := django s; neo4j := f (neo4j s) |}.

(** ** Graph sync *)

(** One statement per parent category, then one per category. *)
Definition parent_statement (pc : ParentCategory) (g : Graph) : Graph :=
  tick (with_parent_nodes
          (merge_node (parent_category_id pc) (parent_name pc) (db_clock g)) g).

Definition category_statement (c : Category) (g : Graph) : Graph :=
  let pid := parent_category_id (category_parent c) in
  let g1 := with_category_nodes
              (merge_node (category_id c)
                 {| category_name := category_label c; parent_category := pid |}
                 (db_clock g)) g in
  let g2 := with_parent_nodes (merge_bare pid) g1 in
  tick (with_parent_of (merge_edge (category_id c, pid)) g2).

Definition sync_categories_to_neo4j (db : Django) (g : Graph) : Graph :=
  let g1 := foldl (λ g pc, parent_statement pc g) g (ParentCategory_objects db) in
  foldl (λ g c, category_statement c g) g1 (Category_objects db).

Definition sync_user_to_neo4j (user : User) (g : Graph) : Graph :=
  tick (with_users (merge_node (user_id user) (user_username user) (db_clock g)) g).

(** [UNWIND $categories as cat_id MERGE (c:Category ...) MERGE (v)-[:BELONGS_TO]->(c)]. *)
Definition belongs_row (vid : string) (g : Graph) (cat_id : string) : Graph :=
  with_belongs_to (merge_edge (vid, cat_id))
    (with_category_nodes (merge_bare cat_id) g).

Definition sync_video_to_neo4j (video : Video) (g : Graph) : Graph :=
  let category_ids := category_id <$> video_categories video in
  let parent_category_ids := parent_category_id <$> video_parent_categories video in
  let vid := video_id video in
  let creator_id := user_id (creator video) in
  let g1 := with_videos
              (merge_node vid
                 {| title := video_title video; categories := category_ids;
                    parent_categories := parent_category_ids |} (db_clock g)) g in
  let g2 := with_users (merge_bare creator_id) g1 in
  let g3 := with_created_by (merge_edge (vid, creator_id)) g2 in
  tick (foldl (belongs_row vid) g3 category_ids).

(** [v.categories] of the stored node; [UNWIND] of a null list has no row. *)
Definition stored_categories (vid : string) (g : Graph) : list string :=
  match cy_get vid (videos g) with
  | Some n => match attrs n with Some a => categories a | None => [] end
  | None => []
  end.

(** [MATCH (c:Category {category_id: cat_id})
     MERGE (u)-[i:INTERESTED_IN]->(c)
     ON CREATE SET i.score = delta, i.count = 1
     ON MATCH SET i.score = i.score + delta, i.count = i.count + 1]. *)
Definition bump_interest (uid : string) (delta : Q) (g : Graph) (cat_id : string) : Graph :=
  if has_key cat_id (category_nodes g) then
    with_interested_in
      (cy_merge (uid, cat_id) {| score := delta; count := 1 |}
         (λ i, {| score := (score i + delta)%Q; count := count i + 1 |})) g
  else g.

Definition watch_statement (uid vid : string) (wt : Q) (ts : string) (g : Graph) : Graph :=
  tick (if has_key uid (users g) && has_key vid (videos g) then
          let g1 := with_watches
                      (merge_rel (uid, vid) {| rel_watch_time := wt; rel_timestamp := ts |}) g in
          foldl (bump_interest uid wt) g1 (stored_categories vid g1)
        else g).

Definition like_statement (uid vid : string) (ts : string) (g : Graph) : Graph :=
  tick (if has_key uid (users g) && has_key vid (videos g) then
          let g1 := with_likes (merge_rel (uid, vid) ts) g in
          foldl (bump_interest uid 2%Q) g1 (stored_categories vid g1)
        else g).

(** [UserCategoryInterest.objects.get_or_create(user, category)] followed by
    [score += delta; interaction_count += 1; save()]. *)
Definition bump_aggregate (uid : string) (delta : Q) (db : Django) (c : Category) : Django :=
  let add i := {| interest_score := (interest_score i + delta)%Q;
                  interaction_count := interaction_count i + 1 |} in
  with_interests
    (cy_merge (uid, category_id c)
       (add {| interest_score := 0%Q; interaction_count := 0 |}) add) db.

Definition sync_watch_to_neo4j (watch : Watch) (s : Stores) : Stores :=
  let uid := user_id (watch_user watch) in
  {| neo4j := watch_statement uid (video_id (watch_video watch))
                (watch_time watch) (watch_timestamp watch) (neo4j s);
     django := foldl (bump_aggregate uid (watch_time watch)) (django s)
                 (video_categories (watch_video watch)) |}.

Definition sync_like_to_neo4j (like : Like) (s : Stores) : Stores :=
  let uid := user_id (like_user like) in
  {| neo4j := like_statement uid (video_id (like_video like)) (like_timestamp like) (neo4j s);
     django := foldl (bump_aggregate uid 2%Q) (django s)
                 (video_categories (like_video like)) |}.

Definition sync_follow_to_neo4j (follow : Follow) (g : Graph) : Graph :=
  let a := user_id (follower follow) in
  let b := user_id (followee follow) in
  tick (if has_key a (users g) && has_key b (users g) then
          with_follows (merge_rel (a, b) (follow_timestamp follow)) g
        else g).

(** *** Video similarity *)

(** [toFloat(size([c IN c1 WHERE c IN c2])) / size(c1 + [c IN c2 WHERE NOT c IN c1])];
    [None] is the NaN of 0.0 / 0. *)
Definition cat_sim (c1 c2 : list string) : option Q :=
  let shared := length (filter (λ c, c ∈ c2) c1) in
  let all := length (c1 ++ filter (λ c, c ∉ c1) c2) in
  if decide (all = 0%nat) then None
  else Some (Z.of_nat shared # Pos.of_nat all)%Q.

(** [WHERE cat_sim >= 0.3]; a comparison with NaN does not hold. *)
Definition above_threshold (s : option Q) : bool :=
  match s with
  | Some q => Qle_bool (3 # 10)%Q q
  | None => false
  end.

(** The rows that reach the [MERGE]: ordered pairs of videos with
    non-null categories whose overlap passes the threshold. *)
Definition similarity_rows (g : Graph) : list (string * string * Q) :=
  v1 ← videos g;
  v2 ← videos g;
  if String.ltb v1.1 v2.1 then
    match attrs v1.2, attrs v2.2 with
    | Some a1, Some a2 =>
        match cat_sim (categories a1) (categories a2) with
        | Some q => if above_threshold (Some q) then [(v1.1, v2.1, q)] else []
        | None => []
        end
    | _, _ => []
    end
  else [].

(** The pattern [(v1)-[s:SIMILAR_TO]-(v2)] has no direction. *)
Definition undirected (a b : string) : string * string → bool :=
  λ k, bool_decide (k = (a, b)) || bool_decide (k = (b, a)).

Definition merge_similar (now : Z) l (row : string * string * Q) :=
  let p := {| similarity := row.2; similar_updated_at := now |} in
  cy_merge_where (undirected row.1.1 row.1.2) row.1 p (λ _, p) l.

Definition compute_video_similarities (g : Graph) : Graph :=
  tick (with_similar_to (λ l, foldl (merge_similar (db_clock g)) l (similarity_rows g)) g).

(** *** Bulk sync *)

Definition bulk_sync_all_data_to_neo4j (s : Stores) : Stores :=
  let db := django s in
  let s1 := on_graph (sync_categories_to_neo4j db) s in
  let s2 := foldl (λ s user, on_graph (sync_user_to_neo4j user) s) s1 (User_objects db) in
  let s3 := foldl (λ s video, on_graph (sync_video_to_neo4j video) s) s2 (Video_objects db) in
  let s4 := foldl (λ s watch, sync_watch_to_neo4j watch s) s3 (take 10000 (Watch_objects db)) in
  let s5 := foldl (λ s like, sync_like_to_neo4j like s) s4 (Like_objects db) in
  let s6 := foldl (λ s follow, on_graph (sync_follow_to_neo4j follow) s) s5 (Follow_objects db) in
  on_graph compute_video_similarities s6.

(** ** Read queries of the recommender *)

(** [MATCH (v:Video)<-[w:WATCHES]-() WITH v, count(w) as watch_count]. *)
Definition watch_count (g : Graph) (vid : string) : nat :=
  length (filter (λ w, w.1.2 = vid) (watches g)).

Definition popular_rows (g : Graph) : list (string * nat) :=
  filter (λ r, (0 < r.2)%nat) ((λ v, (v.1, watch_count g v.1)) <$> videos g).

Definition by_count_desc : relation (string * nat) := λ r1 r2, (r2.2 ≤ r1.2)%nat.

#[global] Instance by_count_desc_dec : RelDecision by_count_desc.
Proof. intros r1 r2. unfold by_count_desc. apply _. Defined.

(** [ORDER BY watch_count DESC LIMIT $limit]; rows of equal count keep the
    order of the store. *)
Definition _get_popular_videos (limit : nat) (g : Graph) : list string :=
  (take limit (merge_sort by_count_desc (popular_rows g))).*1.

(** [MATCH (u:User {user_id: $user_id})-[:WATCHES]->(v:Video) RETURN v.video_id],
    collected into a set. The endpoints of a relationship are nodes of the
    store, so the node patterns add no condition. *)
Definition watched_videos (uid : string) (g : Graph) : gset string :=
  list_to_set ((λ w, w.1.2) <$> filter (λ w, w.1.1 = uid) (watches g)).

(** ** Numerical libraries

    torch, numpy, faiss and json are used through this interface. The
    types are those of the values the engine passes around; nothing is
    assumed about the functions beyond their signature. *)

(** [HeteroData]: per node type the feature matrix and the node count,
    per edge type the index pairs and the weights. *)
Record HeteroData (F : Type) := {
  x_dict : gmap string F;
  num_nodes : gmap string nat;
  edge_index_dict : list ((string * string * string) * list (nat * nat));
  edge_attr : list ((string * string * string) * list Q)
}.
Arguments x_dict {F} _.
Arguments num_nodes {F} _.
Arguments edge_index_dict {F} _.
Arguments edge_attr {F} _.

Class Backend := {
  (** a float32 vector *)
  Vec : Type;
  (** a matrix of node features *)
  Features : Type;
  (** a [HeteroGNNModel]: architecture and weights, which is also what
      [state_dict()] saves *)
  Model : Type;
  (** the state of [torch.optim.Adam] *)
  Optimizer : Type;
  (** a [faiss.IndexFlatIP] *)
  Index : Type;
  (** the global random state of torch and numpy *)
  Rng : Type;
  (** [json.dumps(embedding.tolist())] *)
  json_dumps : Vec → string;
  (** [np.array(json.loads(text))] as a float vector; [None] when it raises *)
  json_loads : string → option Vec;
  (** [torch.randn(n, 64)] *)
  randn : nat → Rng → Features * Rng;
  (** [HeteroGNNModel(hidden_dim = d)], randomly initialised *)
  new_model : Z → Rng → Model * Rng;
  hidden_dim : Model → Z;
  (** [torch.optim.Adam(model.parameters(), lr = 0.001)] *)
  adam : Model → Optimizer;
  (** [np.random.randint(0, n)] for [n > 0] *)
  randint : nat → Rng → nat * Rng;
  (** One training example: the forward pass in training mode, the BPR
      loss of (user, positive, negative), the backward pass and the
      optimizer step; returns [loss.item()]. *)
  bpr_step : HeteroData Features → nat → nat → nat →
             Model * Optimizer * Rng → Q * (Model * Optimizer * Rng);
  (** The evaluation-mode forward pass, read at one node:
      [model(x_dict, edge_index_dict)[node_type][idx]]. *)
  embed : Model → HeteroData Features → string → nat → Vec;
  (** [normalize_L2] and [IndexFlatIP(d).add]; [None] when the rows do
      not form a matrix *)
  faiss_build : list Vec → option Index;
  (** [normalize_L2] of the query and [index.search(q, k)[1][0]]: [k]
      positions, -1 where the index has fewer vectors; [None] when the
      dimensions disagree *)
  faiss_search : Index → Vec → nat → option (list Z)
}.

(** ** Engine state, persisted artifacts, and the world around them *)

(** A file of the model directory. *)
Inductive file (A : Type) :=
  | Missing
  | Corrupt
  | Stored (a : A).
Arguments Missing {A}.
Arguments Corrupt {A}.
Arguments Stored {A} a.

Definition exists_ {A} (f : file A) : bool :=
  match f with Missing => false | _ => true end.

(** [model_metadata]: a dict whose keys may be absent. *)
Record Metadata := {
  md_hidden_dim : option Z;
  md_node_mappings : option (gmap string (gmap string nat));
  md_reverse_mappings : option (gmap string (gmap nat string));
  md_last_trained : option Z;
  md_total_epochs : option Z
}.

Definition empty_metadata : Metadata :=
  {| md_hidden_dim := None; md_node_mappings := None; md_reverse_mappings := None;
     md_last_trained := None; md_total_epochs := None |}.

Section engine.
Context `{B : Backend}.

Record Engine := {
  model : option Model;
  node_mappings : gmap string (gmap string nat);
  reverse_mappings : gmap string (gmap nat string);
  data : option (HeteroData Features);
  model_metadata : Metadata;
  faiss_index : option Index;
  video_ids : list string
}.

Record Files := {
  MODEL_PATH : file Model;
  METADATA_PATH : file Metadata;
  FAISS_INDEX_PATH : file Index;
  VIDEO_IDS_PATH : file (list string)
}.

(** Everything an operation of the engine can read or write; [clock] is
    what [datetime.now()] returns, in microseconds. *)
Record World := {
  graph : Graph;
  files : Files;
  engine : Engine;
  rng : Rng;
  clock : Z
}.

Definition with_graph f (w : World) : World :=
  {| graph := f (graph w); files := files w; engine := engine w; rng := rng w;
     clock := clock w |}.
Definition with_files f (w : World) : World :=
  {| graph := graph w; files := f (files w); engine := engine w; rng := rng w;
     clock := clock w |}.
Definition with_engine f (w : World) : World :=
  {| graph := graph w; files := files w; engine := f (engine w); rng := rng w;
     clock := clock w |}.
Definition with_rng r (w : World) : World :=
  {| graph := graph w; files := files w; engine := engine w; rng := r;
     clock := clock w |}.

Definition set_model m (e : Engine) : Engine :=
  {| model := m; node_mappings := node_mappings e; reverse_mappings := reverse_mappings e;
     data := data e; model_metadata := model_metadata e; faiss_index := faiss_index e;
     video_ids := video_ids e |}.
Definition set_mappings nm rm (e : Engine) : Engine :=
  {| model := model e; node_mappings := nm; reverse_mappings := rm;
     data := data e; model_metadata := model_metadata e; faiss_index := faiss_index e;
     video_ids := video_ids e |}.
Definition set_data d (e : Engine) : Engine :=
  {| model := model e; node_mappings := node_mappings e;
     reverse_mappings := reverse_mappings e;
     data := d; model_metadata := model_metadata e; faiss_index := faiss_index e;
     video_ids := video_ids e |}.
Definition set_metadata md (e : Engine) : Engine :=
  {| model := model e; node_mappings := node_mappings e;
     reverse_mappings := reverse_mappings e;
     data := data e; model_metadata := md; faiss_index := faiss_index e;
     video_ids := video_ids e |}.
Definition set_faiss_index ix (e : Engine) : Engine :=
  {| model := model e; node_mappings := node_mappings e;
     reverse_mappings := reverse_mappings e;
     data := data e; model_metadata := model_metadata e; faiss_index := ix;
     video_ids := video_ids e |}.
Definition set_video_ids ids (e : Engine) : Engine :=
  {| model := model e; node_mappings := node_mappings e;
     reverse_mappings := reverse_mappings e;
     data := data e; model_metadata := model_metadata e; faiss_index := faiss_index e;
     video_ids := ids |}.

(** The attributes [__init__] assigns before it looks at the files. *)
Definition blank_engine : Engine :=
  {| model := None; node_mappings := ∅; reverse_mappings := ∅; data := None;
     model_metadata := empty_metadata; faiss_index := None; video_ids := [] |}.

(** *** Persistence *)

Definition _load_model_if_exists (w : World) : World :=
  if exists_ (MODEL_PATH (files w)) && exists_ (METADATA_PATH (files w)) then
    match METADATA_PATH (files w) with
    | Stored md =>
        let w1 := with_engine (set_metadata md) w in
        let hd := default 128 (md_hidden_dim md) in
        let '(_, r) := new_model hd (rng w1) in
        let w2 := with_rng r w1 in
        match MODEL_PATH (files w) with
        | Stored m =>
            if decide (hidden_dim m = hd) then
              with_engine
                (λ e, set_mappings (default ∅ (md_node_mappings md))
                        (default ∅ (md_reverse_mappings md)) (set_model (Some m) e)) w2
            else with_engine (set_model None) w2
        | _ => with_engine (set_model None) w2
        end
    | _ => with_engine (set_model None) w
    end
  else w.

(** [torch.save] of the weights, then the metadata dict is rebuilt in
    memory. *)
Definition _save_model (w : World) : result World :=
  match model (engine w) with
  | None => Raise AttributeError
  | Some m =>
      let e := engine w in
      let md := {| md_hidden_dim := Some (hidden_dim m);
                   md_node_mappings := Some (node_mappings e);
                   md_reverse_mappings := Some (reverse_mappings e);
                   md_last_trained := Some (clock w);
                   md_total_epochs :=
                     Some (default 0 (md_total_epochs (model_metadata e)) + 30) |} in
      Ok (with_engine (set_metadata md)
            (with_files
               (λ f, {| MODEL_PATH := Stored m; METADATA_PATH := METADATA_PATH f;
                        FAISS_INDEX_PATH := FAISS_INDEX_PATH f;
                        VIDEO_IDS_PATH := VIDEO_IDS_PATH f |}) w))
  end.

Definition _load_faiss_index_if_exists (w : World) : World :=
  if exists_ (FAISS_INDEX_PATH (files w)) && exists_ (VIDEO_IDS_PATH (files w)) then
    match FAISS_INDEX_PATH (files w) with
    | Stored ix =>
        match VIDEO_IDS_PATH (files w) with
        | Stored ids =>
            with_engine (λ e, set_video_ids ids (set_faiss_index (Some ix) e)) w
        | _ => with_engine (set_faiss_index None) w
        end
    | _ => with_engine (set_faiss_index None) w
    end
  else w.

Definition _save_faiss_index (w : World) : World :=
  match faiss_index (engine w) with
  | Some ix =>
      with_files
        (λ f, {| MODEL_PATH := MODEL_PATH f; METADATA_PATH := METADATA_PATH f;
                 FAISS_INDEX_PATH := Stored ix;
                 VIDEO_IDS_PATH := Stored (video_ids (engine w)) |}) w
  | None => w
  end.

(** [RecommendationEngine()]: a new process over the same graph store and
    model directory. *)
Definition __init__ (g : Graph) (f : Files) (r : Rng) (now : Z) : World :=
  _load_faiss_index_if_exists
    (_load_model_if_exists
       {| graph := g; files := f; engine := blank_engine; rng := r; clock := now |}).

(** *** Staleness *)

(** [timedelta(days = 7)] in microseconds. *)
Definition seven_days : Z := 7 * 86400 * 1000000.

(** [current > trained * 1.2]. The product is taken in binary64; for
    counts below 2^50 it compares with an integer exactly as the exact
    product 6 * trained / 5 does. *)
Definition exceeds_by_fifth (current trained : Z) : bool :=
  bool_decide (6 * trained < 5 * current).

Definition check_model_needs_training (w : World) : bool :=
  match model (engine w) with
  | None => true
  | Some _ =>
      if (match md_last_trained (model_metadata (engine w)) with
          | Some last_trained => bool_decide (seven_days < clock w - last_trained)
          | None => false
          end)
      then true
      else
        let current_users := Z.of_nat (length (users (graph w))) in
        let current_videos := Z.of_nat (length (videos (graph w))) in
        let trained_users :=
          Z.of_nat (size (default ∅ (node_mappings (engine w) !! "user"))) in
        let trained_videos :=
          Z.of_nat (size (default ∅ (node_mappings (engine w) !! "video"))) in
        if exceeds_by_fifth current_users trained_users
           || exceeds_by_fifth current_videos trained_videos
        then true else false
  end.

End engine.

(** ** Graph loader, trainer, index and recommender *)

Section training.
Context `{B : Backend}.

(** A small error monad over the world. *)
Definition M (A : Type) : Type := World → result (A * World).

Definition ret {A} (a : A) : M A := λ w, Ok (a, w).
Definition raise {A} (e : exn) : M A := λ _, Raise e.
Definition bind {A C} (m : M A) (k : A → M C) : M C :=
  λ w, match m w with
       | Ok (a, w') => k a w'
       | Raise e => Raise e
       end.
Definition pure_step (f : World → World) : M unit := λ w, Ok ((), f w).

Notation "'do' a <- m ; k" := (bind m (λ a, k))
  (at level 10, a name, m at level 99, k at level 200).
Notation "'do_' m ; k" := (bind m (λ _, k))
  (at level 10, m at level 99, k at level 200).

(** *** Graph loader *)

(** [{nid: idx for idx, nid in enumerate(node_ids)}]: a repeated id keeps
    its last position. *)
Definition enumerate_ids (node_ids : list string) : gmap string nat :=
  foldl (λ m p, <[p.2 := p.1]> m) ∅ (zip (seq 0 (length node_ids)) node_ids).

(** [{idx: nid for nid, idx in mapping.items()}]. *)
Definition invert (m : gmap string nat) : gmap nat string :=
  list_to_map ((λ p, (p.2, p.1)) <$> map_to_list m).

Definition _get_all_nodes (g : Graph) : list (string * list string) :=
  [("user", keys (users g)); ("video", keys (videos g));
   ("category", keys (category_nodes g)); ("parent_category", keys (parent_nodes g))].

(** [a or 1.0] on a float. *)
Definition or_one (a : Q) : Q := if Qeq_bool a 0 then 1%Q else a.

Definition Qmin (a b : Q) : Q := if Qle_bool a b then a else b.

Definition unit_edges {P} (l : list ((string * string) * P)) : list (string * string * Q) :=
  (λ e, (e.1.1, e.1.2, 1%Q)) <$> l.

(** [MATCH (v1)-[r:SIMILAR_TO]-(v2) WHERE v1.video_id < v2.video_id]: every
    relationship once, in the orientation that satisfies the test. *)
Definition similar_edges (l : list ((string * string) * SimilarTo))
  : list (string * string * Q) :=
  e ← l;
  if String.ltb e.1.1 e.1.2 then [(e.1.1, e.1.2, similarity e.2)]
  else if String.ltb e.1.2 e.1.1 then [(e.1.2, e.1.1, similarity e.2)]
  else [].

Definition _get_all_edges (g : Graph)
  : list ((string * string * string) * list (string * string * Q)) :=
  [(("user", "watches", "video"),
    (λ e, (e.1.1, e.1.2, or_one (rel_watch_time e.2))) <$> watches g);
   (("user", "likes", "video"), unit_edges (likes g));
   (("video", "belongs_to", "category"), unit_edges (belongs_to g));
   (("video", "created_by", "user"), unit_edges (created_by g));
   (("user", "follows", "user"), unit_edges (follows g));
   (("user", "interested_in", "category"),
    (λ e, (e.1.1, e.1.2, Qmin (score e.2 / 10) 1)%Q) <$> interested_in g);
   (("video", "similar_to", "video"), similar_edges (similar_to g));
   (("category", "parent_of", "parent_category"), unit_edges (parent_of g))].

(** The edges of one type whose endpoints are both mapped. *)
Definition mapped_edges (nm : gmap string (gmap string nat))
    (src_type dst_type : string) (edge_list : list (string * string * Q))
  : list (nat * nat * Q) :=
  omap (λ e, match default ∅ (nm !! src_type) !! e.1.1,
                   default ∅ (nm !! dst_type) !! e.1.2 with
             | Some s, Some d => Some (s, d, e.2)
             | _, _ => None
             end) edge_list.

Definition load_graph_from_neo4j : M unit := λ w,
  let nodes := _get_all_nodes (graph w) in
  (* the per-type loop: mappings, placeholder features, node counts *)
  let '(nm, rm, xs, ns, r) :=
    foldl (λ acc node, let '(nm, rm, xs, ns, r) := acc in
             let mapping := enumerate_ids node.2 in
             let n := length node.2 in
             let '(features, r') := randn n r in
             (<[node.1 := mapping]> nm, <[node.1 := invert mapping]> rm,
              <[node.1 := features]> xs, <[node.1 := n]> ns, r'))
      (node_mappings (engine w), reverse_mappings (engine w),
       (∅ : gmap string Features), (∅ : gmap string nat), rng w) nodes in
  (* the per-edge-type loop *)
  let loaded :=
    omap (λ et, if decide (et.2 = []) then None
                else match mapped_edges nm et.1.1.1 et.1.2 et.2 with
                     | [] => None
                     | es => Some (et.1, es)
                     end) (_get_all_edges (graph w)) in
  let d := {| x_dict := xs; num_nodes := ns;
              edge_index_dict := (λ et, (et.1, (λ e, e.1) <$> et.2)) <$> loaded;
              edge_attr := (λ et, (et.1, (λ e, e.2) <$> et.2)) <$> loaded |} in
  Ok ((), with_rng r (with_engine (λ e, set_data (Some d) (set_mappings nm rm e)) w)).

(** *** Trainer *)

(** The state the loop of an epoch carries. *)
Record EpochState := {
  ep_model : option Model;
  ep_optimizer : Optimizer;
  ep_rng : Rng;
  total_loss : Q;
  num_batches : Z
}.

(** [a / b] on numbers. *)
Definition truediv (a : Q) (b : Z) : result Q :=
  if decide (b = 0) then Raise ZeroDivisionError else Ok (a / inject_Z b)%Q.

(** The body of the loop over the sampled interactions: an interaction
    with an unmapped endpoint is skipped; otherwise a negative is drawn
    and one example is trained. The arguments of the forward pass are
    evaluated before the call: [self.data.edge_index_dict] collects the
    index tensors of all edge types and raises [KeyError] when no edge
    type was loaded. *)
Definition train_interaction (d : HeteroData Features)
    (users_map videos_map : gmap string nat) (n_videos : nat)
    (acc : result EpochState) (interaction : string * string) : result EpochState :=
  match acc with
  | Raise e => Raise e
  | Ok st =>
      match users_map !! interaction.1, videos_map !! interaction.2 with
      | Some u_idx, Some v_idx =>
          if decide (n_videos = 0%nat) then Raise ValueError
          else
            let '(neg_idx, r) := randint n_videos (ep_rng st) in
            if decide (edge_index_dict d = []) then Raise KeyError
            else
              match ep_model st with
              | None => Raise TypeError
              | Some m =>
                  let '(loss, (m', o, r')) :=
                    bpr_step d u_idx v_idx neg_idx (m, ep_optimizer st, r) in
                  Ok {| ep_model := Some m'; ep_optimizer := o; ep_rng := r';
                        total_loss := (total_loss st + loss)%Q;
                        num_batches := num_batches st + 1 |}
              end
      | _, _ => Ok st
      end
  end.

(** [MATCH (u:User)-[w:WATCHES]->(v:Video) RETURN u.user_id, v.video_id LIMIT 5000]. *)
Definition sampled_interactions (g : Graph) : list (string * string) :=
  take 5000 (keys (watches g)).

(** One epoch; returns the mean loss and the optimizer. The model and the
    random state live in the world. *)
Definition _train_epoch (optimizer : Optimizer) : M (Q * Optimizer) := λ w,
  let interactions := sampled_interactions (graph w) in
  if decide (interactions = []) then Ok ((0%Q, optimizer), w)
  else
    match data (engine w) with
    | None => Raise TypeError
    | Some d =>
        match num_nodes d !! "video",
              node_mappings (engine w) !! "user", node_mappings (engine w) !! "video" with
        | Some n_videos, Some users_map, Some videos_map =>
            match foldl (train_interaction d users_map videos_map n_videos)
                    (Ok {| ep_model := model (engine w); ep_optimizer := optimizer;
                           ep_rng := rng w; total_loss := 0; num_batches := 0 |})
                    interactions with
            | Raise e => Raise e
            | Ok st =>
                match truediv (total_loss st) (Z.max (num_batches st) 1) with
                | Ok mean =>
                    Ok ((mean, ep_optimizer st),
                        with_rng (ep_rng st) (with_engine (set_model (ep_model st)) w))
                | Raise e => Raise e
                end
            end
        | _, _, _ => Raise KeyError
        end
    end.

(** *** Embedding store and vector index *)

(** [MATCH (n:Label {id_field: $node_id})
     SET n.embedding = $embedding, n.embedding_updated = datetime()]. *)
Definition store_embedding (node_type node_id emb_str : string) (g : Graph) : Graph :=
  let stamp {A} : Node A → Node A := set_embedding emb_str (db_clock g) in
  tick (if decide (node_type = "user") then with_users (cy_set node_id stamp) g
        else if decide (node_type = "video") then with_videos (cy_set node_id stamp) g
        else if decide (node_type = "category")
             then with_category_nodes (cy_set node_id stamp) g
        else if decide (node_type = "parent_category")
             then with_parent_nodes (cy_set node_id stamp) g
        else g).

Definition _store_embeddings_in_neo4j (node_type : string)
    (embeddings : list (string * Vec)) (g : Graph) : Graph :=
  foldl (λ g p, store_embedding node_type p.1 (json_dumps p.2) g) g embeddings.

(** [json.loads] of every row, in order; the first failure raises. *)
Fixpoint decode_rows (rows : list (string * string)) : result (list (string * Vec)) :=
  match rows with
  | [] => Ok []
  | (vid, text) :: rest =>
      match json_loads text with
      | None => Raise JSONDecodeError
      | Some v =>
          match decode_rows rest with
          | Ok l => Ok ((vid, v) :: l)
          | Raise e => Raise e
          end
      end
  end.

(** [MATCH (v:Video) WHERE v.embedding IS NOT NULL RETURN v.video_id, v.embedding]. *)
Definition embedded_videos (g : Graph) : list (string * string) :=
  omap (λ v, (λ e, (v.1, e)) <$> embedding v.2) (videos g).

Definition _build_faiss_index : M unit := λ w,
  match decode_rows (embedded_videos (graph w)) with
  | Raise e => Raise e
  | Ok rows =>
      let w1 := with_engine (set_video_ids (rows.*1)) w in
      if decide (rows = []) then Ok ((), w1)
      else match faiss_build (rows.*2) with
           | None => Raise ValueError
           | Some ix => Ok ((), with_engine (set_faiss_index (Some ix)) w1)
           end
  end.

Definition node_types : list string := ["user"; "video"; "category"; "parent_category"].

(** The evaluation-mode forward pass, then one write per mapped node of
    every type, then the index is rebuilt. As in training,
    [self.data.edge_index_dict] raises [KeyError] when no edge type was
    loaded. *)
Definition _extract_and_store_embeddings : M unit := λ w,
  match model (engine w), data (engine w) with
  | Some m, Some d =>
      if decide (edge_index_dict d = []) then Raise KeyError else
      let store (acc : result Graph) (node_type : string) : result Graph :=
        match acc with
        | Raise e => Raise e
        | Ok g =>
            match node_mappings (engine w) !! node_type with
            | None => Raise KeyError
            | Some mapping =>
                Ok (_store_embeddings_in_neo4j node_type
                      ((λ p, (p.1, embed m d node_type p.2)) <$> map_to_list mapping) g)
            end
        end in
      match foldl store (Ok (graph w)) node_types with
      | Raise e => Raise e
      | Ok g => _build_faiss_index (with_graph (λ _, g) w)
      end
  | _, _ => Raise AttributeError
  end.

(** *** Training run *)

Fixpoint train_epochs (n : nat) (optimizer : Optimizer) : M Optimizer :=
  match n with
  | O => ret optimizer
  | S n' => do r <- _train_epoch optimizer; train_epochs n' r.2
  end.

Definition train_gnn_and_update_embeddings (num_epochs : nat) (hd : Z) : M unit :=
  do_ (λ w, if data (engine w) is None then load_graph_from_neo4j w else Ok ((), w));
  do m <- (λ w, match model (engine w) with
                | Some m => Ok (m, w)
                | None => let '(m, r) := new_model hd (rng w) in
                          Ok (m, with_rng r (with_engine (set_model (Some m)) w))
                end);
  do_ train_epochs num_epochs (adam m);
  do_ _extract_and_store_embeddings;
  do_ (λ w, match _save_model w with Ok w' => Ok ((), w') | Raise e => Raise e end);
  pure_step _save_faiss_index.

Definition ensure_model_trained (force_retrain : bool) : M unit := λ w,
  if force_retrain || check_model_needs_training w then
    train_gnn_and_update_embeddings 30 128 w
  else if faiss_index (engine w) is None then _build_faiss_index w
  else Ok ((), w).

(** *** Recommender *)

(** [l[i]] for a Python list: a negative index counts from the end. *)
Definition py_index {A} (l : list A) (i : Z) : option A :=
  if bool_decide (0 ≤ i) then l !! Z.to_nat i
  else if bool_decide (- Z.of_nat (length l) ≤ i) then l !! Z.to_nat (Z.of_nat (length l) + i)
  else None.

(** The loop over the positions the search returned. *)
Fixpoint collect (ids : list string) (watched : gset string) (limit : nat)
    (indices : list Z) (recommendations : list string) : result (list string) :=
  match indices with
  | [] => Ok recommendations
  | idx :: rest =>
      if bool_decide (idx < Z.of_nat (length ids)) then
        match py_index ids idx with
        | None => Raise IndexError
        | Some video_id =>
            if bool_decide (video_id ∈ watched) then
              collect ids watched limit rest recommendations
            else
              let recommendations := recommendations ++ [video_id] in
              if bool_decide (limit ≤ length recommendations)%nat then Ok recommendations
              else collect ids watched limit rest recommendations
        end
      else collect ids watched limit rest recommendations
  end.

(** [record['embedding']] when the row exists and the text is truthy. *)
Definition stored_embedding (uid : string) (g : Graph) : option string :=
  match cy_get uid (users g) with
  | Some n =>
      match embedding n with
      | Some text => if decide (text = "") then None else Some text
      | None => None
      end
  | None => None
  end.

Definition get_recommendations (uid : string) (limit : nat) : M (list string) :=
  do_ (λ w, if faiss_index (engine w) is None then ensure_model_trained false w
            else Ok ((), w));
  λ w,
    match stored_embedding uid (graph w) with
    | None => Ok (_get_popular_videos limit (graph w), w)
    | Some text =>
        match json_loads text with
        | None => Raise JSONDecodeError
        | Some user_embedding =>
            match (if faiss_index (engine w) is None then _build_faiss_index w
                   else Ok ((), w)) with
            | Raise e => Raise e
            | Ok (_, w1) =>
                match faiss_index (engine w1) with
                | None => Raise AttributeError
                | Some ix =>
                    match faiss_search ix user_embedding (limit * 2) with
                    | None => Raise FaissError
                    | Some indices =>
                        match collect (video_ids (engine w1))
                                (watched_videos uid (graph w1)) limit indices [] with
                        | Ok recommendations => Ok (recommendations, w1)
                        | Raise e => Raise e
                        end
                    end
                end
            end
        end
    end.

End training.

(** ** The model: [HeteroGNNModel]

    Tensors and the layers of torch are used through this interface;
    nothing is assumed about them (in particular the addition of tensors
    is not assumed associative: sums are taken in the order of the code). *)

Class Tensors := {
  Tensor : Type;
  EdgeIndex : Type;
  (** the random state the dropout masks are drawn from *)
  Mask : Type;
  (** [self.input_projs[node_type]]: a [ModuleDict] with the four node types *)
  input_projs : string → option (Tensor → Tensor);
  (** [self.convs[i]], a [GCNConv] *)
  convs : nat → Tensor → EdgeIndex → Tensor;
  (** [self.norms[i]], a [LayerNorm] *)
  norms : nat → Tensor → Tensor;
  relu : Tensor → Tensor;
  (** [nn.Dropout(p)] in training mode *)
  drop : Q → Mask → Tensor → Tensor * Mask;
  tadd : Tensor → Tensor → Tensor;
  (** [len(self.convs)] *)
  num_layers : nat
}.

Section gnn.
Context `{T : Tensors}.

Definition edge_type : Type := string * string * string.








(** *** The layer as the specification words it *)

(** An edge type whose source and destination node types coincide. *)
Definition same_type (e : edge_type * EdgeIndex) : Prop := e.1.1.1 = e.1.2.

#[global] Instance same_type_dec e : Decision (same_type e).
Proof. unfold same_type. apply _. Defined.








End gnn.

(** ** Feeds and statistics read from the graph *)

(** [MATCH (u:User {user_id: $user_id})-[:FOLLOWS]->(creator:User)
     WHERE exists((creator)<-[:CREATED_BY]-(:Video))
     MATCH (creator)<-[:CREATED_BY]-(v:Video)
     WHERE NOT exists((u)-[:WATCHES]->(v))
     WITH v]: one row per path, so a video with two followed creators
    comes twice. *)
Definition followed_rows (uid : string) (g : Graph) : list string :=
  f ← follows g;
  if decide (f.1.1 = uid) then
    if existsb (λ c, bool_decide (c.1.2 = f.1.2)) (created_by g) then
      c ← created_by g;
      if decide (c.1.2 = f.1.2) then
        if has_key (uid, c.1.1) (watches g) then [] else [c.1.1]
      else []
    else []
  else [].

(** [OPTIONAL MATCH (v)<-[w:WATCHES]-() WITH v, count(w) as watch_count]:
    one group per video of the rows; a video that came in on [m] rows
    counts each of its watches [m] times. *)
Definition counted (g : Graph) (rows : list string) : list (string * nat) :=
  (λ v, (v, (length (filter (λ r, r = v) rows) * watch_count g v)%nat))
    <$> remove_dups rows.

(** [ORDER BY watch_count DESC LIMIT $limit RETURN v.video_id]; rows of
    equal count keep their order. *)
Definition ranked (limit : nat) (rows : list (string * nat)) : list string :=
  (take limit (merge_sort by_count_desc rows)).*1.

Definition get_recommendations_from_followed (uid : string) (limit : nat) (g : Graph)
  : list string :=
  ranked limit (counted g (followed_rows uid g)).

(** The [user_id] argument of the category feed: [None], an [int] as the
    signature says, or the UUID the view passes. *)
Inductive py_id :=
  | IdNone
  | IdInt (n : Z)
  | IdUuid (text : string).

(** [if user_id:] *)
Definition truthy (user_id : py_id) : bool :=
  match user_id with
  | IdNone => false
  | IdInt n => negb (bool_decide (n = 0))
  | IdUuid _ => true
  end.

(** [str(user_id)] *)
Definition str (user_id : py_id) : string :=
  match user_id with
  | IdNone => "None"
  | IdInt n => pretty n
  | IdUuid text => text
  end.

(** [MATCH (v:Video) WHERE $parent_cat IN v.parent_categories], and in the
    first query [AND NOT exists((:User {user_id: $user_id})-[:WATCHES]->(v))];
    [IN] a null list is null and the row is dropped. *)
Definition category_rows (parent_cat : string) (watched_by : option string) (g : Graph)
  : list string :=
  omap (λ v, match attrs v.2 with
             | Some a =>
                 if bool_decide (parent_cat ∈ parent_categories a)
                    && negb (match watched_by with
                             | Some uid => has_key (uid, v.1) (watches g)
                             | None => false
                             end)
                 then Some v.1 else None
             | None => None
             end) (videos g).

Definition get_recommendations_by_category (parent_category_id : string)
    (user_id : py_id) (limit : nat) (g : Graph) : list string :=
  if truthy user_id then
    ranked limit ((λ v, (v, watch_count g v))
                    <$> category_rows parent_category_id (Some (str user_id)) g)
  else
    ranked limit ((λ v, (v, watch_count g v))
                    <$> category_rows parent_category_id None g).

(** The dict [get_user_stats] returns. *)
Record UserStats := {
  follower_count : nat;
  following_count : nat;
  video_count : nat
}.

(** The query has no row when no user node has the id ([user_id] names at
    most one node, by the constraint of the schema); [result.single()] is
    then [None] and subscripting it raises. *)
Definition get_user_stats (uid : string) (g : Graph) : result UserStats :=
  if has_key uid (users g) then
    Ok {| follower_count :=
            length (remove_dups ((λ f, f.1.1) <$> filter (λ f, f.1.2 = uid) (follows g)));
          following_count :=
            length (remove_dups ((λ f, f.1.2) <$> filter (λ f, f.1.1 = uid) (follows g)));
          video_count := length (filter (λ c, c.1.2 = uid) (created_by g)) |}
  else Raise TypeError.

(** ** Signal receivers (signals.py) and request handlers (views.py)

    The receivers are connected when the app is ready, so every
    [save()] that inserts a row runs its receiver before it returns. A
    handler that raises is answered with a server error; what it wrote
    before stays written (the graph store takes no part in a database
    transaction). *)

Definition sync_watch_on_save (instance : Watch) (created : bool) (s : Stores) : Stores :=
  if created then sync_watch_to_neo4j instance s else s.

Definition sync_like (instance : Like) (created : bool) (s : Stores) : Stores :=
  if created then sync_like_to_neo4j instance s else s.

Definition sync_follow (instance : Follow) (created : bool) (s : Stores) : Stores :=
  if created then on_graph (sync_follow_to_neo4j instance) s else s.

Definition with_watch_rows f (db : Django) : Django :=
  {| User_objects := User_objects db; Video_objects := Video_objects db;
     Category_objects := Category_objects db;
     ParentCategory_objects := ParentCategory_objects db;
     Watch_objects := f (Watch_objects db); Like_objects := Like_objects db;
     Follow_objects := Follow_objects db;
     UserCategoryInterest_objects := UserCategoryInterest_objects db |}.

Definition with_like_rows f (db : Django) : Django :=
  {| User_objects := User_objects db; Video_objects := Video_objects db;
     Category_objects := Category_objects db;
     ParentCategory_objects := ParentCategory_objects db;
     Watch_objects := Watch_objects db; Like_objects := f (Like_objects db);
     Follow_objects := Follow_objects db;
     UserCategoryInterest_objects := UserCategoryInterest_objects db |}.

Definition with_follow_rows f (db : Django) : Django :=
  {| User_objects := User_objects db; Video_objects := Video_objects db;
     Category_objects := Category_objects db;
     ParentCategory_objects := ParentCategory_objects db;
     Watch_objects := Watch_objects db; Like_objects := Like_objects db;
     Follow_objects := f (Follow_objects db);
     UserCategoryInterest_objects := UserCategoryInterest_objects db |}.

Definition on_django (f : Django → Django) (s : Stores) : Stores :=
  {| django := f (django s); neo4j := neo4j s |}.

(** The site: the two stores and the [views] and [likes] columns of the
    video table (0 for a video that has none yet). *)
Record Site := {
  stores : Stores;
  video_views : gmap string Z;
  video_likes : gmap string Z
}.

Definition on_stores (f : Stores → Stores) (site : Site) : Site :=
  {| stores := f (stores site); video_views := video_views site;
     video_likes := video_likes site |}.

(** What a handler answers. *)
Inductive response :=
  | Status (text : string)          (* [Response({'status': text})] *)
  | BadRequest (text : string)      (* [Response({'error': text}, status = 400)] *)
  | NotFound                        (* [get_object()] raised [Http404] *)
  | IntegrityError                  (* the insert broke [unique_together] *)
  | ServerError (e : exn).          (* any other exception *)

(** [self.get_object()] on the video and user view sets. *)
Definition get_video (pk : string) (db : Django) : option Video :=
  list_find (λ v, video_id v = pk) (Video_objects db) ≫= λ p, Some p.2.

Definition get_user (pk : string) (db : Django) : option User :=
  list_find (λ u, user_id u = pk) (User_objects db) ≫= λ p, Some p.2.

Definition watch_row (user video : string) (db : Django) : bool :=
  bool_decide (Exists (λ w, user_id (watch_user w) = user ∧ video_id (watch_video w) = video)
                 (Watch_objects db)).

Definition like_row (user video : string) (db : Django) : bool :=
  bool_decide (Exists (λ l, user_id (like_user l) = user ∧ video_id (like_video l) = video)
                 (Like_objects db)).

Definition follow_row (a b : string) (db : Django) : bool :=
  bool_decide (Exists (λ f, user_id (follower f) = a ∧ user_id (followee f) = b)
                 (Follow_objects db)).

(** [VideoViewSet.watch]; [watch_time] is the float the request value
    parsed to, [now] the time of the insert. The new row is the latest,
    so it comes first in the model's ordering. *)
Definition watch (request_user : User) (pk : string) (watch_time : Q) (now : string)
    (site : Site) : response * Site :=
  match get_video pk (django (stores site)) with
  | None => (NotFound, site)
  | Some video =>
      if watch_row (user_id request_user) pk (django (stores site))
      then (IntegrityError, site)
      else
        let w := {| watch_user := request_user; watch_video := video;
                    watch_time := watch_time; watch_timestamp := now |} in
        (* Watch.objects.create: the insert, then the post_save receiver *)
        let s1 := sync_watch_on_save w true
                    (on_django (with_watch_rows (λ l, w :: l)) (stores site)) in
        (* video.views += 1; video.save(update_fields = ['views']) *)
        let views := <[pk := default 0 (video_views site !! pk) + 1]> (video_views site) in
        let s2 := sync_watch_to_neo4j w s1 in
        (Status "watched",
         {| stores := s2; video_views := views; video_likes := video_likes site |})
  end.

(** [VideoViewSet.like]. [Model.save] has no parameter [updated_fields],
    so the call after the insert raises [TypeError]; the in-memory
    [video.likes += 1] is lost with it. *)
Definition like (request_user : User) (pk : string) (now : string) (site : Site)
  : response * Site :=
  match get_video pk (django (stores site)) with
  | None => (NotFound, site)
  | Some video =>
      if like_row (user_id request_user) pk (django (stores site))
      then (Status "already liked", site)
      else
        let l := {| like_user := request_user; like_video := video;
                    like_timestamp := now |} in
        (* Like.objects.get_or_create: the insert, then the post_save receiver *)
        let s1 := sync_like l true
                    (on_django (with_like_rows (λ rows, l :: rows)) (stores site)) in
        (ServerError TypeError, on_stores (λ _, s1) site)
  end.

(** [VideoViewSet.unlike]. *)
Definition unlike (request_user : User) (pk : string) (site : Site) : response * Site :=
  match get_video pk (django (stores site)) with
  | None => (NotFound, site)
  | Some video =>
      let keep (l : Like) :=
        negb (bool_decide (user_id (like_user l) = user_id request_user
                           ∧ video_id (like_video l) = pk)) in
      let rows := Like_objects (django (stores site)) in
      let deleted_count := length (filter (λ l, keep l = false) rows) in
      let s1 := on_django (with_like_rows (filter (λ l, keep l = true))) (stores site) in
      let likes :=
        if decide (deleted_count = 0%nat) then video_likes site
        else <[pk := Z.max 0 (default 0 (video_likes site !! pk) - 1)]> (video_likes site) in
      (Status "unliked",
       {| stores := s1; video_views := video_views site; video_likes := likes |})
  end.

(** [UserViewSet.follow]. *)
Definition follow (request_user : User) (pk : string) (now : string) (site : Site)
  : response * Site :=
  match get_user pk (django (stores site)) with
  | None => (NotFound, site)
  | Some user_to_follow =>
      if decide (user_id request_user = user_id user_to_follow)
      then (BadRequest "Cannot follow youself", site)
      else if follow_row (user_id request_user) pk (django (stores site))
      then (Status "already following", site)
      else
        let f := {| follower := request_user; followee := user_to_follow;
                    follow_timestamp := now |} in
        (* Follow.objects.get_or_create: the insert, then the post_save receiver *)
        let s1 := sync_follow f true
                    (on_django (with_follow_rows (λ rows, f :: rows)) (stores site)) in
        (Status "followed", on_stores (λ _, on_graph (sync_follow_to_neo4j f) s1) site)
  end.

(** [UserViewSet.unfollow]: the relational row goes; no receiver listens
    to deletions. *)
Definition unfollow (request_user : User) (pk : string) (site : Site) : response * Site :=
  match get_user pk (django (stores site)) with
  | None => (NotFound, site)
  | Some user_to_unfollow =>
      let keep (f : Follow) :=
        negb (bool_decide (user_id (follower f) = user_id request_user
                           ∧ user_id (followee f) = pk)) in
      (Status "unfollowed",
       on_stores (on_django (with_follow_rows (filter (λ f, keep f = true)))) site)
  end.

(** ** A reference back end

    An exact-arithmetic instance of the numerical interface, used to run
    the engine on concrete worlds: vectors are lists of integers, the
    index ranks by exact inner product, and JSON texts are integer arrays. *)

Module Reference.

Definition digit_of (c : ascii) : option Z :=
  let n := nat_of_ascii c in
  if (48 <=? n)%nat && (n <=? 57)%nat then Some (Z.of_nat (n - 48)) else None.

Fixpoint parse_digits (s : string) (acc : Z) : option Z :=
  match s with
  | EmptyString => Some acc
  | String c s' =>
      match digit_of c with
      | Some d => parse_digits s' (10 * acc + d)
      | None => None
      end
  end.

Definition parse_int (s : string) : option Z :=
  match s with
  | EmptyString => None
  | String c s' =>
      if decide (c = "-"%char) then
        (if decide (s' = "") then None else Z.opp <$> parse_digits s' 0)
      else parse_digits s 0
  end.

Definition finish (cur : string) (acc : list Z) : option (list Z) :=
  if decide (cur = "") then (if decide (acc = []) then Some [] else None)
  else (λ z, acc ++ [z]) <$> parse_int cur.

(** The elements after the opening bracket. *)
Fixpoint ints_tail (s : string) (cur : string) (acc : list Z) : option (list Z) :=
  match s with
  | EmptyString => None
  | String c r =>
      if decide (c = "]"%char) then (if decide (r = "") then finish cur acc else None)
      else if decide (c = ","%char) then
        match parse_int cur with
        | Some z => ints_tail r "" (acc ++ [z])
        | None => None
        end
      else if decide (c = " "%char) then ints_tail r cur acc
      else ints_tail r (cur +:+ String c "") acc
  end.

Definition loads (s : string) : option (list Z) :=
  match s with
  | String c r => if decide (c = "["%char) then ints_tail r "" [] else None
  | EmptyString => None
  end.

Definition dumps (v : list Z) : string :=
  "[" +:+ String.concat ", " (pretty <$> v) +:+ "]".

Definition dot (a b : list Z) : Z := foldr Z.add 0 (zip_with Z.mul a b).

Definition by_score_desc : relation (Z * Z) := λ a b, b.2 ≤ a.2.

#[global] Instance by_score_desc_dec : RelDecision by_score_desc.
Proof. intros a b. unfold by_score_desc. apply _. Defined.

Definition build (rows : list (list Z)) : option (list (list Z)) :=
  match rows with
  | [] => Some []
  | r :: _ => if forallb (λ v, (length v =? length r)%nat) rows then Some rows else None
  end.

(** The [k] best positions by inner product, padded with -1. *)
Definition search (ix : list (list Z)) (q : list Z) (k : nat) : option (list Z) :=
  if forallb (λ v, (length v =? length q)%nat) ix then
    let scored := imap (λ i v, (Z.of_nat i, dot v q)) ix in
    Some (take k ((merge_sort by_score_desc scored).*1 ++ replicate k (-1)))
  else None.

#[global] Instance backend : Backend := {|
  Vec := list Z;
  Features := nat;
  Model := Z * nat;
  Optimizer := nat;
  Index := list (list Z);
  Rng := nat;
  json_dumps := dumps;
  json_loads := loads;
  randn := λ n r, (n, S r);
  new_model := λ d r, ((d, 0%nat), S r);
  hidden_dim := λ m, m.1;
  adam := λ _, 0%nat;
  randint := λ n r, ((r `mod` n)%nat, S r);
  bpr_step := λ _ _ _ _ st, (1%Q, ((st.1.1.1, S st.1.1.2), S st.1.2, st.2));
  embed := λ _ _ _ idx, [Z.of_nat idx + 1; 1];
  faiss_build := build;
  faiss_search := search
|}.

End Reference.

(** ** Notions the specification is stated in *)

(** Jaccard overlap of two category sets: intersection size over union
    size; undefined when both sets are empty. *)
Definition jaccard (A B : gset string) : option Q :=
  if decide (size (A ∪ B) = 0%nat) then None
  else Some (Z.of_nat (size (A ∩ B)) # Pos.of_nat (size (A ∪ B)))%Q.

(** Some [SimilarTo] relationship joins [a] and [b], in either direction. *)
Definition similar_edge (g : Graph) (a b : string) : Prop :=
  ∃ k p, (k, p) ∈ similar_to g ∧ undirected a b k = true.

(** The unordered pair behind a relationship key. *)
Definition unordered (k : string * string) : string * string :=
  if String.ltb k.2 k.1 then (k.2, k.1) else k.

(** At most one relationship per unordered pair of endpoints. *)
Definition one_edge_per_pair {P} (l : list ((string * string) * P)) : Prop :=
  NoDup (unordered <$> keys l).

(** The [InterestedIn] aggregate of a (user, category) pair; a pair with
    no relationship yet has score 0 and count 0. *)
Definition interest_score_of (g : Graph) (u c : string) : Q :=
  match cy_get (u, c) (interested_in g) with
  | Some i => score i
  | None => 0%Q
  end.

Definition interest_count_of (g : Graph) (u c : string) : Z :=
  match cy_get (u, c) (interested_in g) with
  | Some i => count i
  | None => 0
  end.

(** The interactions that feed the aggregate. *)
Inductive interaction :=
  | Watched (w : Watch)
  | Liked (l : Like).

Definition sync_interaction (i : interaction) (s : Stores) : Stores :=
  match i with
  | Watched w => sync_watch_to_neo4j w s
  | Liked l => sync_like_to_neo4j l s
  end.

Definition interaction_user (i : interaction) : string :=
  match i with
  | Watched w => user_id (watch_user w)
  | Liked l => user_id (like_user l)
  end.

Definition interaction_video (i : interaction) : string :=
  match i with
  | Watched w => video_id (watch_video w)
  | Liked l => video_id (like_video l)
  end.

(** The score an interaction adds: the watch time, or 2.0 for a like. *)
Definition interaction_weight (i : interaction) : Q :=
  match i with
  | Watched w => watch_time w
  | Liked _ => 2%Q
  end.

(** An interaction qualifies for (u, c) when it is by [u] on a video of the
    store that carries [c], both nodes and the category node being there. *)
Definition qualifies (g : Graph) (u c : string) (i : interaction) : Prop :=
  interaction_user i = u ∧
  u ∈ keys (users g) ∧
  interaction_video i ∈ keys (videos g) ∧
  c ∈ stored_categories (interaction_video i) g ∧
  c ∈ keys (category_nodes g).

#[global] Instance qualifies_dec g u c i : Decision (qualifies g u c i).
Proof. unfold qualifies. apply _. Defined.

(** How often [c] occurs in a list of category ids. *)
Definition occurrences (c : string) (cats : list string) : Z :=
  Z.of_nat (length (filter (λ x, x = c) cats)).

(** The rows of the [UNWIND] of an interaction that land on the
    relationship of (u, c): one per occurrence of [c] in the stored
    category list of the video, when the interaction is by [u] and the
    user, video and category nodes are there. *)
Definition interest_rows (g : Graph) (u c : string) (i : interaction) : Z :=
  if decide (interaction_user i = u ∧ u ∈ keys (users g) ∧
             interaction_video i ∈ keys (videos g) ∧ c ∈ keys (category_nodes g))
  then occurrences c (stored_categories (interaction_video i) g)
  else 0.

(** Stored category lists have no repetition (they are read from a
    many-to-many relation). *)
Definition categories_distinct (g : Graph) : Prop :=
  ∀ vid n a, (vid, n) ∈ videos g → attrs n = Some a → NoDup (categories a).

Definition sync_interactions (ops : list interaction) (s : Stores) : Stores :=
  foldl (λ s i, sync_interaction i s) s ops.

(** The counts the staleness detector compares. *)
Definition current_count {A} (table : list (string * A)) : Z := Z.of_nat (length table).

Definition trained_count `{B : Backend} (w : World) (node_type : string) : Z :=
  Z.of_nat (size (default ∅ (node_mappings (engine w) !! node_type))).

(** The candidates behind the positions a search returned, in rank order,
    minus the watched ones. *)
Definition survivors (ids : list string) (watched : gset string) (indices : list Z)
  : list string :=
  filter (λ v, v ∉ watched) (omap (λ i, ids !! Z.to_nat i) indices).

(** The first step of [get_recommendations]: with no index in memory the
    engine makes sure a model is trained. *)
Definition index_trigger `{B : Backend} : M unit := λ w,
  if faiss_index (engine w) is None then ensure_model_trained false w else Ok ((), w).

(** A step leaves the in-memory metadata and the metadata file alone. *)
Definition keeps_metadata `{B : Backend} (w w' : World) : Prop :=
  model_metadata (engine w') = model_metadata (engine w) ∧
  METADATA_PATH (files w') = METADATA_PATH (files w).

(** The statements of a watch or a like leave the node tables alone. *)
Definition same_nodes (g g' : Graph) : Prop :=
  users g' = users g ∧ videos g' = videos g ∧ category_nodes g' = category_nodes g.

Definition is_ok {A} (r : result A) : bool :=
  match r with Ok _ => true | Raise _ => false end.

(** ** What a repeated sync may change

    The skeleton of a table forgets what [sk] forgets of each value; the
    skeleton of a graph forgets the [updated_at] stamps of nodes and
    similarity relationships, the clock of the store, and the score and
    count of the [InterestedIn] relationships. Keys, their order, and every
    other attribute stay. *)

Definition skt {K V} (sk : V → V) (l : list (K * V)) : list (K * V) :=
  prod_map id sk <$> l.

Definition sk_node {A} (n : Node A) : Node A :=
  {| attrs := attrs n; updated_at := None; embedding := embedding n;
     embedding_updated := embedding_updated n |}.

Definition sk_interest (i : InterestedIn) : InterestedIn := {| score := 0; count := 0 |}.

Definition sk_similar (s : SimilarTo) : SimilarTo :=
  {| similarity := similarity s; similar_updated_at := 0 |}.

Definition skel (g : Graph) : Graph :=
  {| users := skt sk_node (users g);
     videos := skt sk_node (videos g);
     category_nodes := skt sk_node (category_nodes g);
     parent_nodes := skt sk_node (parent_nodes g);
     watches := watches g;
     likes := likes g;
     follows := follows g;
     created_by := created_by g;
     belongs_to := belongs_to g;
     parent_of := parent_of g;
     interested_in := skt sk_interest (interested_in g);
     similar_to := skt sk_similar (similar_to g);
     db_clock := 0 |}.

(** Some entry matches [p], and every entry that does satisfies [P]. *)
Definition holds {K V} (p : K → bool) (P : V → Prop) (l : list (K * V)) : Prop :=
  (∃ k, k ∈ keys l ∧ p k = true) ∧ ∀ k v, (k, v) ∈ l → p k = true → P v.

(** The uniqueness constraints of the schema, and one relationship of a
    type per pair of endpoints. *)
Definition unique_keys (g : Graph) : Prop :=
  NoDup (keys (users g)) ∧ NoDup (keys (videos g)) ∧
  NoDup (keys (category_nodes g)) ∧ NoDup (keys (parent_nodes g)) ∧
  NoDup (keys (watches g)) ∧ NoDup (keys (likes g)) ∧ NoDup (keys (follows g)) ∧
  NoDup (keys (created_by g)) ∧ NoDup (keys (belongs_to g)) ∧
  NoDup (keys (parent_of g)) ∧ NoDup (keys (interested_in g)) ∧
  one_edge_per_pair (similar_to g).

(** The relational source keeps primary keys and [unique_together]. *)
Definition wf_django (db : Django) : Prop :=
  NoDup (parent_category_id <$> ParentCategory_objects db) ∧
  NoDup (category_id <$> Category_objects db) ∧
  NoDup (user_id <$> User_objects db) ∧
  NoDup (video_id <$> Video_objects db) ∧
  NoDup ((λ w, (user_id (watch_user w), video_id (watch_video w))) <$> Watch_objects db) ∧
  NoDup ((λ l, (user_id (like_user l), video_id (like_video l))) <$> Like_objects db) ∧
  NoDup ((λ f, (user_id (follower f), user_id (followee f))) <$> Follow_objects db).

(** The statements a bulk sync sends to the store, one after the other. *)
Inductive statement :=
  | SParent (pc : ParentCategory)
  | SCategory (c : Category)
  | SUser (u : User)
  | SVideo (v : Video)
  | SWatch (w : Watch)
  | SLike (l : Like)
  | SFollow (f : Follow)
  | SSimilar.

Definition run_statement (g : Graph) (st : statement) : Graph :=
  match st with
  | SParent pc => parent_statement pc g
  | SCategory c => category_statement c g
  | SUser u => sync_user_to_neo4j u g
  | SVideo v => sync_video_to_neo4j v g
  | SWatch w =>
      watch_statement (user_id (watch_user w)) (video_id (watch_video w))
        (watch_time w) (watch_timestamp w) g
  | SLike l =>
      like_statement (user_id (like_user l)) (video_id (like_video l)) (like_timestamp l) g
  | SFollow f => sync_follow_to_neo4j f g
  | SSimilar => compute_video_similarities g
  end.

Definition bulk_statements (db : Django) : list statement :=
  (SParent <$> ParentCategory_objects db) ++ (SCategory <$> Category_objects db) ++
  (SUser <$> User_objects db) ++ (SVideo <$> Video_objects db) ++
  (SWatch <$> take 10000 (Watch_objects db)) ++ (SLike <$> Like_objects db) ++
  (SFollow <$> Follow_objects db) ++ [SSimilar].

Definition rank (st : statement) : nat :=
  match st with
  | SParent _ => 0 | SCategory _ => 1 | SUser _ => 2 | SVideo _ => 3
  | SWatch _ => 4 | SLike _ => 5 | SFollow _ => 6 | SSimilar => 7
  end.

Definition statement_key (st : statement) : string * string :=
  match st with
  | SParent pc => (parent_category_id pc, "")
  | SCategory c => (category_id c, "")
  | SUser u => (user_id u, "")
  | SVideo v => (video_id v, "")
  | SWatch w => (user_id (watch_user w), video_id (watch_video w))
  | SLike l => (user_id (like_user l), video_id (like_video l))
  | SFollow f => (user_id (follower f), user_id (followee f))
  | SSimilar => ("", "")
  end.

(** [b] may run after [a]: a later phase, or the same phase on another key. *)
Definition may_follow (a b : statement) : Prop :=
  (rank a < rank b)%nat ∨ (rank a = rank b ∧ statement_key a ≠ statement_key b).

(** One row of the [UNWIND] of a watch or a like, on the relationship table. *)
Definition interest_row {N} (cn : list (string * N)) (uid : string) (delta : Q)
    (l : list ((string * string) * InterestedIn)) (cat_id : string) :=
  if has_key cat_id cn then
    cy_merge (uid, cat_id) {| score := delta; count := 1 |}
      (λ i, {| score := (score i + delta)%Q; count := count i + 1 |}) l
  else l.

Definition has_attrs {A} (k : string) (a : A) (l : list (string * Node A)) : Prop :=
  holds (key_is k) (λ n, attrs n = Some a) l.

Definition has_props {P} (k : string * string) (p : P) (l : list ((string * string) * P))
  : Prop :=
  holds (key_is k) (λ p', p' = p) l.

(** What a statement leaves behind in the store: the store is synced
    with respect to it. *)
Definition synced (g : Graph) (st : statement) : Prop :=
  match st with
  | SParent pc => has_attrs (parent_category_id pc) (parent_name pc) (parent_nodes g)
  | SCategory c =>
      has_attrs (category_id c)
        {| category_name := category_label c;
           parent_category := parent_category_id (category_parent c) |} (category_nodes g) ∧
      parent_category_id (category_parent c) ∈ keys (parent_nodes g) ∧
      (category_id c, parent_category_id (category_parent c)) ∈ keys (parent_of g)
  | SUser u => has_attrs (user_id u) (user_username u) (users g)
  | SVideo v =>
      has_attrs (video_id v)
        {| title := video_title v; categories := category_id <$> video_categories v;
           parent_categories := parent_category_id <$> video_parent_categories v |}
        (videos g) ∧
      user_id (creator v) ∈ keys (users g) ∧
      (video_id v, user_id (creator v)) ∈ keys (created_by g) ∧
      ∀ c, c ∈ category_id <$> video_categories v →
           c ∈ keys (category_nodes g) ∧ (video_id v, c) ∈ keys (belongs_to g)
  | SWatch w =>
      let u := user_id (watch_user w) in
      let v := video_id (watch_video w) in
      u ∈ keys (users g) → v ∈ keys (videos g) →
      has_props (u, v) {| rel_watch_time := watch_time w; rel_timestamp := watch_timestamp w |}
        (watches g) ∧
      ∀ c, c ∈ stored_categories v g → c ∈ keys (category_nodes g) →
           (u, c) ∈ keys (interested_in g)
  | SLike l =>
      let u := user_id (like_user l) in
      let v := video_id (like_video l) in
      u ∈ keys (users g) → v ∈ keys (videos g) →
      has_props (u, v) (like_timestamp l) (likes g) ∧
      ∀ c, c ∈ stored_categories v g → c ∈ keys (category_nodes g) →
           (u, c) ∈ keys (interested_in g)
  | SFollow f =>
      let a := user_id (follower f) in
      let b := user_id (followee f) in
      a ∈ keys (users g) → b ∈ keys (users g) →
      has_props (a, b) (follow_timestamp f) (follows g)
  | SSimilar =>
      ∀ a b q, (a, b, q) ∈ similarity_rows g →
               holds (undirected a b) (λ p, similarity p = q) (similar_to g)
  end.

(** ** Frames of the sync operations *)

(** Every node and relationship key of [g] is still one of [g']. *)
Definition grows (g g' : Graph) : Prop :=
  keys (users g) ⊆ keys (users g') ∧ keys (videos g) ⊆ keys (videos g') ∧
  keys (category_nodes g) ⊆ keys (category_nodes g') ∧
  keys (parent_nodes g) ⊆ keys (parent_nodes g') ∧
  keys (watches g) ⊆ keys (watches g') ∧ keys (likes g) ⊆ keys (likes g') ∧
  keys (follows g) ⊆ keys (follows g') ∧ keys (created_by g) ⊆ keys (created_by g') ∧
  keys (belongs_to g) ⊆ keys (belongs_to g') ∧ keys (parent_of g) ⊆ keys (parent_of g') ∧
  keys (interested_in g) ⊆ keys (interested_in g') ∧
  keys (similar_to g) ⊆ keys (similar_to g').

(** The [UserCategoryInterest] row of a (user, category) pair; a pair with
    no row has the defaults of the model, 0.0 and 0. *)
Definition aggregate_score_of (db : Django) (u c : string) : Q :=
  match cy_get (u, c) (UserCategoryInterest_objects db) with
  | Some i => interest_score i
  | None => 0%Q
  end.

Definition aggregate_count_of (db : Django) (u c : string) : Z :=
  match cy_get (u, c) (UserCategoryInterest_objects db) with
  | Some i => interaction_count i
  | None => 0
  end.

(** The categories of the relational row of the video of an interaction. *)
Definition interaction_categories (i : interaction) : list string :=
  match i with
  | Watched w => category_id <$> video_categories (watch_video w)
  | Liked l => category_id <$> video_categories (like_video l)
  end.

(** The stored embedding of a node and its stamp; [None] for a node that
    is not there. *)
Definition embedding_of {A} (k : string) (l : list (string * Node A))
  : option (option string * option Z) :=
  (λ n, (embedding n, embedding_updated n)) <$> cy_get k l.

(** [g'] has the embeddings of [g] on the nodes of [g], and none on the
    nodes it adds. *)
Definition keeps_embeddings (g g' : Graph) : Prop :=
  ∀ k,
    default (None, None) (embedding_of k (users g'))
    = default (None, None) (embedding_of k (users g)) ∧
    default (None, None) (embedding_of k (videos g'))
    = default (None, None) (embedding_of k (videos g)) ∧
    default (None, None) (embedding_of k (category_nodes g'))
    = default (None, None) (embedding_of k (category_nodes g)) ∧
    default (None, None) (embedding_of k (parent_nodes g'))
    = default (None, None) (embedding_of k (parent_nodes g)).

(** The embedding texts of the nodes of one type, by id. *)
Definition embeddings (node_type : string) (g : Graph) : list (string * option string) :=
  if decide (node_type = "user") then prod_map id embedding <$> users g
  else if decide (node_type = "video") then prod_map id embedding <$> videos g
  else if decide (node_type = "category") then prod_map id embedding <$> category_nodes g
  else if decide (node_type = "parent_category")
       then prod_map id embedding <$> parent_nodes g
  else [].

(** What a node is apart from its embedding. *)
Definition node_data {A} (l : list (string * Node A))
  : list (string * (option A * option Z)) :=
  prod_map id (λ n, (attrs n, updated_at n)) <$> l.

(** [g'] differs from [g] at most in embeddings, their stamps and the
    store's clock. *)
Definition same_but_embeddings (g g' : Graph) : Prop :=
  node_data (users g') = node_data (users g) ∧
  node_data (videos g') = node_data (videos g) ∧
  node_data (category_nodes g') = node_data (category_nodes g) ∧
  node_data (parent_nodes g') = node_data (parent_nodes g) ∧
  watches g' = watches g ∧ likes g' = likes g ∧ follows g' = follows g ∧
  created_by g' = created_by g ∧ belongs_to g' = belongs_to g ∧
  parent_of g' = parent_of g ∧ interested_in g' = interested_in g ∧
  similar_to g' = similar_to g.


(** ** Concrete scenarios *)

Definition video_node (ttl : string) (cats : list string) : Node VideoAttrs :=
  {| attrs := Some {| title := ttl; categories := cats; parent_categories := [] |};
     updated_at := Some 0; embedding := None; embedding_updated := None |}.

(** Three videos A{x,y}, B{y,z}, C{p,q} and no relationship yet. *)
Definition three_videos : Graph :=
  with_videos (λ _, [("A", video_node "a" ["x"; "y"]);
                     ("B", video_node "b" ["y"; "z"]);
                     ("C", video_node "c" ["p"; "q"])]) empty_graph.

Definition node_of {A} (a : A) : Node A :=
  {| attrs := Some a; updated_at := Some 0; embedding := None; embedding_updated := None |}.

Definition alice : User := {| user_id := "u1"; user_username := "alice" |}.
Definition topics : ParentCategory := {| parent_category_id := "p"; parent_name := "Topics" |}.
Definition cat_c : Category :=
  {| category_id := "c"; category_label := "C"; category_parent := topics |}.
Definition video_1 : Video :=
  {| video_id := "v1"; video_title := "one"; creator := alice;
     video_categories := [cat_c]; video_parent_categories := [topics] |}.
Definition video_2 : Video :=
  {| video_id := "v2"; video_title := "two"; creator := alice;
     video_categories := [cat_c]; video_parent_categories := [topics] |}.

(** One viewer, two videos of category c, nothing watched yet. *)
Definition viewer_graph : Graph :=
  with_users (λ _, [("u1", node_of "alice")])
    (with_videos (λ _, [("v1", video_node "one" ["c"]); ("v2", video_node "two" ["c"])])
       (with_category_nodes
          (λ _, [("c", node_of {| category_name := "C"; parent_category := "p" |})])
          empty_graph)).

Definition empty_django : Django :=
  {| User_objects := []; Video_objects := []; Category_objects := [];
     ParentCategory_objects := []; Watch_objects := []; Like_objects := [];
     Follow_objects := []; UserCategoryInterest_objects := [] |}.

Definition viewer_stores : Stores := {| django := empty_django; neo4j := viewer_graph |}.

(** The same store where the stored category list of v1 names c twice. *)
Definition repeated_stores : Stores :=
  {| django := empty_django;
     neo4j := with_videos (λ _, [("v1", video_node "one" ["c"; "c"])]) viewer_graph |}.

Definition watch_of (v : Video) (t : Q) : Watch :=
  {| watch_user := alice; watch_video := v; watch_time := t; watch_timestamp := "2024-01-01T00:00:00" |}.

Definition like_of (v : Video) : Like :=
  {| like_user := alice; like_video := v; like_timestamp := "2024-01-02T00:00:00" |}.

(** *** A serving world over the reference back end

    Two users and three videos; u1 has watched v1, which is the most
    watched video. The index holds one vector per video. *)

Definition user_node (text : option string) : Node string :=
  {| attrs := Some "alice"; updated_at := Some 0; embedding := text;
     embedding_updated := None |}.

Definition seen (wt : Q) : WatchesRel :=
  {| rel_watch_time := wt; rel_timestamp := "2024-01-01T00:00:00" |}.

Definition serving_graph (text : option string) : Graph :=
  with_users (λ _, [("u1", user_node text); ("u2", user_node None)])
    (with_videos (λ _, [("v1", video_node "one" ["c"]); ("v2", video_node "two" ["c"]);
                        ("v3", video_node "three" ["d"])])
       (with_watches (λ _, [(("u1", "v1"), seen 1); (("u2", "v1"), seen 1);
                            (("u2", "v2"), seen 1)])
          empty_graph)).

Definition no_files : @Files Reference.backend :=
  {| MODEL_PATH := Missing; METADATA_PATH := Missing;
     FAISS_INDEX_PATH := Missing; VIDEO_IDS_PATH := Missing |}.

Definition serving_mappings : gmap string (gmap string nat) :=
  {[ "user" := enumerate_ids ["u1"; "u2"]; "video" := enumerate_ids ["v1"; "v2"; "v3"] ]}.

Definition serving_engine (last_trained : Z) : @Engine Reference.backend :=
  {| model := Some (128, 0%nat);
     node_mappings := serving_mappings;
     reverse_mappings := ∅;
     data := None;
     model_metadata :=
       {| md_hidden_dim := Some 128; md_node_mappings := Some serving_mappings;
          md_reverse_mappings := None; md_last_trained := Some last_trained;
          md_total_epochs := Some 30 |};
     faiss_index := Some [[1; 0]; [0; 1]; [1; 1]];
     video_ids := ["v1"; "v2"; "v3"] |}.

Definition serving_world (text : option string) : @World Reference.backend :=
  {| graph := serving_graph text; files := no_files; engine := serving_engine 1000;
     rng := 0%nat; clock := 1000 |}.

(** The same world after a third user has signed up. *)
Definition grown_world : @World Reference.backend :=
  with_graph (with_users (λ l, l ++ [("u3", user_node None)])) (serving_world None).

(** A world whose only watch is by a user the mapping does not know. *)
Definition drifted_world : @World Reference.backend :=
  with_engine
    (set_data (Some {| x_dict := ∅; num_nodes := {[ "video" := 3%nat ]};
                       edge_index_dict := []; edge_attr := [] |}))
    (with_graph (with_watches (λ _, [(("u9", "v1"), seen 1)])) (serving_world None)).

(** An untrained process over a synced graph and an empty model directory. *)
Definition untrained_world : @World Reference.backend :=
  {| graph := serving_graph None; files := no_files; engine := blank_engine;
     rng := 0%nat; clock := 5000 |}.

(** The serving world without an index in memory, where the stored
    embedding of v1 is not JSON. The model is fresh, so the index is
    rebuilt from the stored embeddings. *)
Definition bad_video_world : @World Reference.backend :=
  with_engine (set_faiss_index None)
    (with_graph (with_videos (cy_set "v1" (set_embedding "not json" 0)))
       (serving_world None)).

(** An untrained process over a graph of users and videos without any
    relationship. *)
Definition unrelated_world : @World Reference.backend :=
  {| graph := with_watches (λ _, []) (serving_graph None); files := no_files;
     engine := blank_engine; rng := 0%nat; clock := 5000 |}.

(** *** A small catalogue in the relational store, and an empty graph *)

Definition catalogue_django : Django :=
  {| User_objects := [alice]; Video_objects := [video_1; video_2];
     Category_objects := [cat_c]; ParentCategory_objects := [topics];
     Watch_objects := [watch_of video_1 3%Q]; Like_objects := [like_of video_2];
     Follow_objects := []; UserCategoryInterest_objects := [] |}.

Definition catalogue_stores : Stores := {| django := catalogue_django; neo4j := empty_graph |}.

(** The catalogue over a graph that already has the viewer, the two
    videos and their category. *)
Definition viewer_site : Site :=
  {| stores := {| django := catalogue_django; neo4j := viewer_graph |};
     video_views := ∅; video_likes := ∅ |}.

(** The serving world after the loader has run: all four node types are
    mapped and the data object holds the watch edges. *)
Definition loaded_world : @World Reference.backend :=
  with_engine
    (λ e, set_data (Some {| x_dict := ∅; num_nodes := ∅;
                            edge_index_dict :=
                              [(("user", "watches", "video"),
                                [(0, 0); (1, 0); (1, 1)]%nat)];
                            edge_attr := [(("user", "watches", "video"), [1; 1; 1]%Q)] |})
            (set_mappings (<["category" := ∅]> (<["parent_category" := ∅]> serving_mappings))
               ∅ e))
    (serving_world None).

(** * Results *)

Lemma is_ok_Ok {A} (r : result A) : is_ok r = true → ∃ a, r = Ok a.
Proof. destruct r as [a|e]; [by exists a|done]. Qed.

(** * Facts about keyed tables *)

Section cypher_facts.
Context {K V : Type} `{EqDecision K}.
Implicit Types (l : list (K * V)) (k : K) (p : K → bool).

Lemma elem_of_keys k l : k ∈ keys l ↔ ∃ v, (k, v) ∈ l.
Proof.
  unfold keys. rewrite list_elem_of_fmap. split.
  - intros [[k' v] [-> Hin]]. by exists v.
  - intros [v Hin]. by exists (k, v).
Qed.

Lemma has_key_true k l : has_key k l = true ↔ k ∈ keys l.
Proof. unfold has_key. by rewrite bool_decide_eq_true. Qed.

Lemma has_key_false k l : has_key k l = false ↔ k ∉ keys l.
Proof. unfold has_key. by rewrite bool_decide_eq_false. Qed.

Lemma keys_app l1 l2 : keys (l1 ++ l2) = keys l1 ++ keys l2.
Proof. unfold keys. by rewrite fmap_app. Qed.

Lemma keys_cy_set_where p f l : keys (cy_set_where p f l) = keys l.
Proof.
  unfold keys, cy_set_where. rewrite <- list_fmap_compose.
  apply list_fmap_ext. intros i [k v] _. simpl. by destruct (p k).
Qed.

Lemma existsb_match p l :
  existsb (λ kv, p kv.1) l = true ↔ ∃ k, k ∈ keys l ∧ p k = true.
Proof.
  rewrite existsb_exists. split.
  - intros [[k v] [Hin Hp]]. exists k. split; [|done].
    apply elem_of_keys. exists v. by apply list_elem_of_In.
  - intros [k [Hin Hp]]. apply elem_of_keys in Hin as [v Hin].
    exists (k, v). split; [by apply list_elem_of_In|done].
Qed.

Lemma existsb_key_is k l : existsb (λ kv, key_is k kv.1) l = has_key k l.
Proof.
  apply eq_true_iff_eq. rewrite existsb_match, has_key_true. unfold key_is. split.
  - intros [k' [Hin Hk]]. by apply bool_decide_eq_true in Hk as ->.
  - intros Hin. exists k. split; [done|]. by apply bool_decide_eq_true.
Qed.

(** A [MERGE] never removes a key, and adds at most the merged one. *)
Lemma keys_cy_merge_where p k c f l :
  keys (cy_merge_where p k c f l) =
  if existsb (λ kv, p kv.1) l then keys l else keys l ++ [k].
Proof.
  unfold cy_merge_where. destruct (existsb _ l).
  - apply keys_cy_set_where.
  - by rewrite keys_app.
Qed.

Lemma keys_cy_merge k c f l :
  keys (cy_merge k c f l) = if has_key k l then keys l else keys l ++ [k].
Proof. unfold cy_merge. by rewrite keys_cy_merge_where, existsb_key_is. Qed.

Lemma elem_of_keys_cy_merge k k' c f l :
  k' ∈ keys (cy_merge k c f l) ↔ k' = k ∨ k' ∈ keys l.
Proof.
  rewrite keys_cy_merge. destruct (has_key k l) eqn:Hk.
  - apply has_key_true in Hk. split; [by right|]. by intros [->|].
  - rewrite elem_of_app, list_elem_of_singleton. tauto.
Qed.

Lemma NoDup_keys_cy_merge k c f l : NoDup (keys l) → NoDup (keys (cy_merge k c f l)).
Proof.
  intros Hnd. rewrite keys_cy_merge. destruct (has_key k l) eqn:Hk; [done|].
  apply has_key_false in Hk. apply NoDup_app. split; [done|]. split.
  - intros x Hx Hx'. apply list_elem_of_singleton in Hx' as ->. done.
  - apply NoDup_singleton.
Qed.

Lemma elem_of_cy_set_where p f l k v :
  (k, v) ∈ cy_set_where p f l ↔
  ∃ v0, (k, v0) ∈ l ∧ v = if p k then f v0 else v0.
Proof.
  unfold cy_set_where. rewrite list_elem_of_fmap. split.
  - intros [[k0 v0] [Heq Hin]]. simpl in Heq. destruct (p k0) eqn:Hp.
    + injection Heq as -> ->. exists v0. by rewrite Hp.
    + injection Heq as -> ->. exists v0. by rewrite Hp.
  - intros [v0 [Hin ->]]. exists (k, v0). split; [|done]. simpl. by destruct (p k).
Qed.

Lemma elem_of_cy_merge_where p k c f l k' v :
  (k', v) ∈ cy_merge_where p k c f l ↔
  if existsb (λ kv, p kv.1) l
  then ∃ v0, (k', v0) ∈ l ∧ v = if p k' then f v0 else v0
  else (k', v) ∈ l ∨ (k' = k ∧ v = c).
Proof.
  unfold cy_merge_where. destruct (existsb _ l).
  - apply elem_of_cy_set_where.
  - rewrite elem_of_app, list_elem_of_singleton. split.
    + intros [?|Heq]; [by left|]. injection Heq as -> ->. by right.
    + intros [?|[-> ->]]; [by left|by right].
Qed.

Lemma cy_get_Some_elem k v l : cy_get k l = Some v → (k, v) ∈ l.
Proof.
  induction l as [|[k' v'] l IH]; simpl; [done|].
  destruct (decide (k' = k)) as [->|].
  - intros [= ->]. apply list_elem_of_here.
  - intros. apply list_elem_of_further. auto.
Qed.

Lemma cy_get_None k l : cy_get k l = None ↔ k ∉ keys l.
Proof.
  induction l as [|[k' v'] l IH]; simpl.
  - split; [|done]. intros _ Hin. by apply elem_of_nil in Hin.
  - unfold keys in *. simpl. rewrite not_elem_of_cons.
    destruct (decide (k' = k)) as [->|Hne]; split; try done.
    + intros [? _]. done.
    + intros. split; [done|]. by apply IH.
    + intros [_ ?]. by apply IH.
Qed.

Lemma cy_get_NoDup k v l : NoDup (keys l) → (k, v) ∈ l → cy_get k l = Some v.
Proof.
  induction l as [|[k' v'] l IH]; simpl.
  - intros _ Hin. by apply elem_of_nil in Hin.
  - unfold keys in *. simpl. intros Hnd Hin. apply NoDup_cons in Hnd as [Hni Hnd].
    apply elem_of_cons in Hin as [Heq|Hin].
    + injection Heq as -> ->. by rewrite decide_True.
    + destruct (decide (k' = k)) as [->|Hne]; [|by apply IH].
      exfalso. apply Hni. apply list_elem_of_fmap. by exists (k, v).
Qed.

End cypher_facts.

(** * Video similarity *)

Lemma ltb_irrefl a : String.ltb a a = false.
Proof.
  unfold String.ltb. destruct (String.compare a a) eqn:Hc; try done.
  pose proof (String.compare_antisym a a) as Ha. rewrite Hc in Ha. done.
Qed.

Lemma ltb_asym a b : String.ltb a b = true → String.ltb b a = false.
Proof.
  unfold String.ltb. rewrite (String.compare_antisym a b).
  by destruct (String.compare b a).
Qed.

Lemma ltb_total a b : String.ltb a b = false → String.ltb b a = false → a = b.
Proof.
  unfold String.ltb. rewrite (String.compare_antisym a b).
  destruct (String.compare b a) eqn:Hc; simpl; try done.
  intros _ _. symmetry. by apply String.compare_eq_iff.
Qed.

Lemma unordered_swap a b : unordered (a, b) = unordered (b, a).
Proof.
  unfold unordered. simpl.
  destruct (String.ltb b a) eqn:Hba, (String.ltb a b) eqn:Hab; try done.
  - apply ltb_asym in Hba. congruence.
  - by rewrite (ltb_total a b).
Qed.

Lemma unordered_cases k : unordered k = k ∨ unordered k = (k.2, k.1).
Proof. unfold unordered. destruct (String.ltb k.2 k.1); auto. Qed.

Lemma undirected_unordered a b k :
  undirected a b k = true ↔ unordered k = unordered (a, b).
Proof.
  unfold undirected. rewrite orb_true_iff, !bool_decide_eq_true. split.
  - intros [->| ->]; [done|]. by rewrite unordered_swap.
  - destruct k as [c d]. intros Heq.
    destruct (unordered_cases (c, d)) as [Hc|Hc], (unordered_cases (a, b)) as [Ha|Ha];
      rewrite Hc, Ha in Heq; simpl in Heq.
    + by left.
    + right. done.
    + right. by injection Heq as -> ->.
    + left. by injection Heq as -> ->.
Qed.

Lemma cat_sim_jaccard (c1 c2 : list string) :
  NoDup c1 → NoDup c2 → cat_sim c1 c2 = jaccard (list_to_set c1) (list_to_set c2).
Proof.
  intros H1 H2. unfold cat_sim, jaccard.
  assert (Hi : length (filter (λ c, c ∈ c2) c1)
               = size (list_to_set c1 ∩ list_to_set c2 : gset string)).
  { rewrite <- (size_list_to_set (C := gset string)) by by apply NoDup_filter.
    f_equal. apply set_eq. intros x.
    rewrite elem_of_intersection, !elem_of_list_to_set, list_elem_of_filter. tauto. }
  assert (Hu : length (c1 ++ filter (λ c, c ∉ c1) c2)
               = size (list_to_set c1 ∪ list_to_set c2 : gset string)).
  { rewrite <- (size_list_to_set (C := gset string)).
    - f_equal. apply set_eq. intros x.
      rewrite elem_of_union, !elem_of_list_to_set, elem_of_app, list_elem_of_filter.
      destruct (decide (x ∈ c1)); tauto.
    - apply NoDup_app. split; [done|]. split; [|by apply NoDup_filter].
      intros x Hx Hx'. apply list_elem_of_filter in Hx' as [? _]. done. }
  by rewrite Hi, Hu.
Qed.

(** The rows that reach the [MERGE]. *)
Lemma elem_of_similarity_rows g a b q :
  (a, b, q) ∈ similarity_rows g ↔
  ∃ na nb ca cb, (a, na) ∈ videos g ∧ (b, nb) ∈ videos g ∧
    String.ltb a b = true ∧ attrs na = Some ca ∧ attrs nb = Some cb ∧
    cat_sim (categories ca) (categories cb) = Some q ∧ Qle_bool (3 # 10)%Q q = true.
Proof.
  unfold similarity_rows. rewrite list_elem_of_bind. split.
  - intros [[a' na] [Hin Ha]]. apply list_elem_of_bind in Hin as [[b' nb] [Hin Hb]].
    simpl in Hin. destruct (String.ltb a' b') eqn:Hlt; [|by apply elem_of_nil in Hin].
    destruct (attrs na) as [ca|] eqn:Hca; [|by apply elem_of_nil in Hin].
    destruct (attrs nb) as [cb|] eqn:Hcb; [|by apply elem_of_nil in Hin].
    destruct (cat_sim _ _) as [q'|] eqn:Hs; [|by apply elem_of_nil in Hin].
    simpl in Hin. destruct (Qle_bool _ q') eqn:Hq; [|by apply elem_of_nil in Hin].
    apply list_elem_of_singleton in Hin. injection Hin as -> -> ->.
    by exists na, nb, ca, cb.
  - intros (na & nb & ca & cb & Ha & Hb & Hlt & Hca & Hcb & Hs & Hq).
    exists (a, na). split; [|done]. apply list_elem_of_bind. exists (b, nb).
    split; [|done]. simpl. rewrite Hlt, Hca, Hcb, Hs. simpl. rewrite Hq.
    by apply list_elem_of_singleton.
Qed.

Lemma similarity_rows_ordered g a b q :
  (a, b, q) ∈ similarity_rows g → String.ltb a b = true.
Proof. rewrite elem_of_similarity_rows. by intros (_ & _ & _ & _ & _ & _ & ? & _). Qed.

(** One [MERGE] of a similarity row. *)
Lemma merge_similar_edge now l (row : string * string * Q) a b :
  (∃ k p, (k, p) ∈ merge_similar now l row ∧ undirected a b k = true) ↔
  (∃ k p, (k, p) ∈ l ∧ undirected a b k = true) ∨ unordered row.1 = unordered (a, b).
Proof.
  destruct row as [[c d] q]. unfold merge_similar. simpl. split.
  - intros (k & p & Hin & Hk). apply elem_of_cy_merge_where in Hin.
    destruct (existsb _ l) eqn:Hex.
    + destruct Hin as (p0 & Hin & _). left. by exists k, p0.
    + destruct Hin as [Hin|[-> _]]; [left; by exists k, p|].
      right. by apply undirected_unordered.
  - intros [(k & p & Hin & Hk)|Heq].
    + destruct (existsb (λ kv, undirected c d kv.1) l) eqn:Hex.
      * eexists k, _. split; [|done]. apply elem_of_cy_merge_where. rewrite Hex.
        exists p. split; [done|reflexivity].
      * exists k, p. split; [|done]. apply elem_of_cy_merge_where. rewrite Hex. by left.
    + destruct (existsb (λ kv, undirected c d kv.1) l) eqn:Hex.
      * apply existsb_match in Hex as (k & Hin & Hk). apply elem_of_keys in Hin as [p Hin].
        eexists k, _. split.
        -- apply elem_of_cy_merge_where.
           rewrite (proj2 (existsb_match (undirected c d) l)).
           ++ exists p. split; [done|reflexivity].
           ++ exists k. split; [|done]. apply elem_of_keys. by exists p.
        -- apply undirected_unordered. apply undirected_unordered in Hk. congruence.
      * eexists (c, d), _. split.
        -- apply elem_of_cy_merge_where. rewrite Hex. right. done.
        -- by apply undirected_unordered.
Qed.

Lemma foldl_merge_similar_edge now rows l a b :
  (∃ k p, (k, p) ∈ foldl (merge_similar now) l rows ∧ undirected a b k = true) ↔
  (∃ k p, (k, p) ∈ l ∧ undirected a b k = true) ∨
  (∃ row, row ∈ rows ∧ unordered row.1 = unordered (a, b)).
Proof.
  revert l. induction rows as [|row rows IH]; intros l; simpl.
  - split; [by left|]. intros [?|(row & Hin & _)]; [done|]. by apply elem_of_nil in Hin.
  - rewrite IH, merge_similar_edge. split.
    + intros [[?|?]|(row' & Hin & ?)]; [by left| |].
      * right. exists row. split; [apply list_elem_of_here|done].
      * right. exists row'. split; [by apply list_elem_of_further|done].
    + intros [?|(row' & Hin & ?)]; [left; by left|].
      apply elem_of_cons in Hin as [->|Hin]; [left; by right|].
      right. by exists row'.
Qed.

(** After the similarity of the pair is written, later rows of other
    pairs leave it alone. *)
Lemma merge_similar_value now l (row : string * string * Q) a b q :
  (unordered row.1 = unordered (a, b) → row.2 = q) →
  (unordered row.1 = unordered (a, b) ∨
   ∀ k p, (k, p) ∈ l → undirected a b k = true → similarity p = q) →
  ∀ k p, (k, p) ∈ merge_similar now l row → undirected a b k = true → similarity p = q.
Proof.
  destruct row as [[c d] q']. unfold merge_similar. simpl. intros Hq Hl k p Hin Hk.
  apply elem_of_cy_merge_where in Hin.
  destruct (decide (unordered (c, d) = unordered (a, b))) as [Heq|Hne].
  - rewrite (Hq Heq) in Hin. destruct (existsb _ l) eqn:Hex.
    + destruct Hin as (p0 & Hin & ->).
      rewrite (proj2 (undirected_unordered c d k)); [done|].
      apply undirected_unordered in Hk. congruence.
    + destruct Hin as [Hin|[-> ->]]; [|done].
      exfalso. apply not_true_iff_false in Hex. apply Hex. apply existsb_match.
      exists k. split; [apply elem_of_keys; by exists p|].
      apply undirected_unordered. apply undirected_unordered in Hk. congruence.
  - destruct Hl as [?|Hl]; [done|]. destruct (existsb _ l).
    + destruct Hin as (p0 & Hin & ->).
      destruct (undirected c d k) eqn:Hcd.
      * exfalso. apply Hne. apply undirected_unordered in Hcd, Hk. congruence.
      * by apply (Hl k).
    + destruct Hin as [Hin|[-> ->]]; [by apply (Hl k)|].
      exfalso. apply Hne. by apply undirected_unordered.
Qed.

Lemma foldl_merge_similar_value now rows l a b q :
  (∀ row, row ∈ rows → unordered row.1 = unordered (a, b) → row.2 = q) →
  ((∃ row, row ∈ rows ∧ unordered row.1 = unordered (a, b)) ∨
   ∀ k p, (k, p) ∈ l → undirected a b k = true → similarity p = q) →
  ∀ k p, (k, p) ∈ foldl (merge_similar now) l rows →
         undirected a b k = true → similarity p = q.
Proof.
  revert l. induction rows as [|row rows IH]; intros l Hq Hl; simpl.
  - destruct Hl as [(row & Hin & _)|Hl]; [by apply elem_of_nil in Hin|done].
  - apply IH.
    + intros row' Hin. apply Hq. by apply list_elem_of_further.
    + destruct (decide (unordered row.1 = unordered (a, b))) as [Heq|Hne].
      * right. apply merge_similar_value; [|by left].
        intros _. apply Hq; [apply list_elem_of_here|done].
      * destruct Hl as [(row' & Hin & Heq)|Hl].
        -- apply elem_of_cons in Hin as [->|Hin]; [done|]. left. by exists row'.
        -- right. apply merge_similar_value; [done|by right].
Qed.

Lemma merge_similar_one_edge now l row :
  one_edge_per_pair l → one_edge_per_pair (merge_similar now l row).
Proof.
  unfold one_edge_per_pair, merge_similar. intros Hnd.
  rewrite keys_cy_merge_where. destruct (existsb _ l) eqn:Hex; [done|].
  rewrite fmap_app. apply NoDup_app. split; [done|]. split; [|apply NoDup_singleton].
  intros x Hx Hx'. apply list_elem_of_singleton in Hx' as ->.
  apply list_elem_of_fmap in Hx as (k & Heq & Hin).
  apply not_true_iff_false in Hex. apply Hex. apply existsb_match.
  exists k. split; [done|]. apply undirected_unordered.
  destruct row as [[c d] q]. simpl in *. congruence.
Qed.

Lemma foldl_merge_similar_one_edge now rows l :
  one_edge_per_pair l → one_edge_per_pair (foldl (merge_similar now) l rows).
Proof.
  revert l. induction rows as [|row rows IH]; intros l Hl; simpl; [done|].
  by apply IH, merge_similar_one_edge.
Qed.

Lemma similar_to_compute g :
  similar_to (compute_video_similarities g)
  = foldl (merge_similar (db_clock g)) (similar_to g) (similarity_rows g).
Proof. done. Qed.

(** With unique video ids the rows of a pair are determined by the two
    nodes. *)
Lemma similarity_rows_pair g a b na nb ca cb row :
  NoDup (keys (videos g)) →
  (a, na) ∈ videos g → (b, nb) ∈ videos g →
  attrs na = Some ca → attrs nb = Some cb →
  String.ltb a b = true →
  row ∈ similarity_rows g → unordered row.1 = unordered (a, b) →
  row.1 = (a, b) ∧ cat_sim (categories ca) (categories cb) = Some row.2 ∧
  Qle_bool (3 # 10)%Q row.2 = true.
Proof.
  intros Hnd Ha Hb Hca Hcb Hlt Hrow Heq. destruct row as [[c d] q]. simpl in *.
  apply elem_of_similarity_rows in Hrow
    as (nc & nd & cc & cd & Hc & Hd & Hlt' & Hcc & Hcd & Hs & Hq).
  assert ((c, d) = (a, b)) as [= -> ->].
  { apply undirected_unordered in Heq. unfold undirected in Heq.
    apply orb_true_iff in Heq as [Heq|Heq]; apply bool_decide_eq_true in Heq; [done|].
    injection Heq as -> ->. apply ltb_asym in Hlt. congruence. }
  assert (nc = na) as ->.
  { apply (cy_get_NoDup _ _ _ Hnd) in Hc, Ha. congruence. }
  assert (nd = nb) as ->.
  { apply (cy_get_NoDup _ _ _ Hnd) in Hd, Hb. congruence. }
  rewrite Hca in Hcc. rewrite Hcb in Hcd. injection Hcc as ->. injection Hcd as ->.
  done.
Qed.

Lemma filter_none {A} (P : A → Prop) `{∀ x, Decision (P x)} (l : list A) :
  (∀ x, x ∈ l → ¬ P x) → filter P l = [].
Proof.
  induction l as [|x l IH]; intros Hl; [done|].
  rewrite filter_cons_False by (apply Hl, list_elem_of_here).
  apply IH. intros y Hy. apply Hl. by apply list_elem_of_further.
Qed.

Lemma cat_sim_chain (x y z : string) :
  x ≠ y → y ≠ z → x ≠ z → cat_sim [x; y] [y; z] = Some (1 # 3)%Q.
Proof.
  intros Hxy Hyz Hxz. unfold cat_sim.
  assert (Hx : x ∉ [y; z]).
  { rewrite !not_elem_of_cons. repeat split; try done. apply not_elem_of_nil. }
  assert (Hz : z ∉ [x; y]).
  { rewrite !not_elem_of_cons. repeat split; try done. apply not_elem_of_nil. }
  assert (Hs : filter (λ c, c ∈ [y; z]) [x; y] = [y]).
  { rewrite filter_cons_False by done.
    rewrite filter_cons_True by apply list_elem_of_here. done. }
  assert (Ha : filter (λ c, c ∉ [x; y]) [y; z] = [z]).
  { rewrite filter_cons_False.
    - by rewrite filter_cons_True.
    - intros Hn. apply Hn. apply list_elem_of_further, list_elem_of_here. }
  rewrite Hs, Ha. done.
Qed.

Lemma cat_sim_disjoint (c1 c2 : list string) :
  (∀ c, c ∈ c1 → c ∉ c2) → above_threshold (cat_sim c1 c2) = false.
Proof.
  intros Hd. unfold cat_sim.
  rewrite (filter_none (λ c, c ∈ c2) c1) by done.
  destruct (decide _); [done|]. simpl. unfold Qle_bool. simpl.
  apply Z.leb_gt. lia.
Qed.

Lemma above_threshold_spec (s : option Q) :
  above_threshold s = true ↔ ∃ q, s = Some q ∧ (3 # 10 <= q)%Q.
Proof.
  destruct s as [q|]; simpl.
  - rewrite Qle_bool_iff. split; [by exists q|]. by intros (q' & [= ->] & ?).
  - split; [done|]. by intros (q' & ? & _).
Qed.

(** C6. [compute_video_similarities] merges a [SimilarTo] relationship for
    a pair of videos exactly when the Jaccard overlap of their category
    sets (intersection size over union size) is at least 0.30, and sets
    that ratio as the similarity; only pairs with [v1.video_id < v2.video_id]
    are processed and no second relationship is ever created for an
    unordered pair. Categories {x,y} and {y,z} give 1/3 and pass the
    threshold; disjoint category lists never pass. The stored category
    lists are duplicate-free (they come from a many-to-many relation) and
    video ids are unique (schema constraint). *)
Theorem compute_video_similarities_jaccard g a b na nb ca cb :
  NoDup (keys (videos g)) →
  (a, na) ∈ videos g → (b, nb) ∈ videos g →
  attrs na = Some ca → attrs nb = Some cb →
  NoDup (categories ca) → NoDup (categories cb) →
  String.ltb a b = true →
  let J := jaccard (list_to_set (categories ca)) (list_to_set (categories cb)) in
  let passes := ∃ q, J = Some q ∧ (3 # 10 <= q)%Q in
  let g' := compute_video_similarities g in
  ((∃ q, (a, b, q) ∈ similarity_rows g) ↔ passes) ∧
  (similar_edge g' a b ↔ similar_edge g a b ∨ passes) ∧
  (∀ q, J = Some q → (3 # 10 <= q)%Q →
     ∀ k p, (k, p) ∈ similar_to g' → undirected a b k = true → similarity p = q) ∧
  (∀ c d q, (c, d, q) ∈ similarity_rows g → String.ltb c d = true) ∧
  (one_edge_per_pair (similar_to g) → one_edge_per_pair (similar_to g')) ∧
  (∀ x y z : string, x ≠ y → y ≠ z → x ≠ z →
     cat_sim [x; y] [y; z] = Some (1 # 3)%Q ∧
     above_threshold (cat_sim [x; y] [y; z]) = true) ∧
  (∀ c1 c2 : list string, (∀ c, c ∈ c1 → c ∉ c2) →
     above_threshold (cat_sim c1 c2) = false).
Proof.
  intros Hnd Ha Hb Hca Hcb Hna Hnb Hlt J passes g'.
  assert (HJ : cat_sim (categories ca) (categories cb) = J) by by apply cat_sim_jaccard.
  assert (Hrows : (∃ q, (a, b, q) ∈ similarity_rows g) ↔ passes).
  { unfold passes. rewrite <- HJ. split.
    - intros [q Hin]. exists q.
      destruct (similarity_rows_pair g a b na nb ca cb (a, b, q)) as (_ & Hs & Hq); try done.
      split; [done|]. by apply Qle_bool_iff.
    - intros (q & Hs & Hq). exists q. apply elem_of_similarity_rows.
      exists na, nb, ca, cb. repeat split; try done. by apply Qle_bool_iff. }
  assert (Hrows' : (∃ row, row ∈ similarity_rows g ∧ unordered row.1 = unordered (a, b))
                   ↔ passes).
  { rewrite <- Hrows. split.
    - intros (row & Hin & Heq).
      destruct (similarity_rows_pair g a b na nb ca cb row) as (Hk & _); try done.
      exists row.2. destruct row as [[c d] q]. simpl in *. by injection Hk as -> ->.
    - intros [q Hin]. by exists (a, b, q). }
  repeat split.
  - by apply Hrows.
  - by apply Hrows.
  - unfold similar_edge, g'. rewrite similar_to_compute, foldl_merge_similar_edge.
    rewrite Hrows'. done.
  - unfold similar_edge, g'. rewrite similar_to_compute, foldl_merge_similar_edge.
    rewrite Hrows'. done.
  - intros q Hq Hle. unfold g'. rewrite similar_to_compute.
    apply foldl_merge_similar_value.
    + intros row Hin Heq.
      destruct (similarity_rows_pair g a b na nb ca cb row) as (_ & Hs & _); try done.
      rewrite HJ, Hq in Hs. by injection Hs.
    + left. apply Hrows'. by exists q.
  - intros c d q. apply similarity_rows_ordered.
  - unfold g'. rewrite similar_to_compute. apply foldl_merge_similar_one_edge.
  - by apply cat_sim_chain.
  - rewrite cat_sim_chain by done. done.
  - apply cat_sim_disjoint.
Qed.

Lemma compute_video_similarities_jaccard_witness :
  similar_edge (compute_video_similarities three_videos) "A" "B" ∧
  (∀ k p, (k, p) ∈ similar_to (compute_video_similarities three_videos) →
          undirected "A" "B" k = true → similarity p = (1 # 3)%Q) ∧
  ¬ similar_edge (compute_video_similarities three_videos) "A" "C".
Proof.
  assert (Hnd : NoDup (keys (videos three_videos))).
  { apply (bool_decide_unpack _). by vm_compute. }
  assert (HA : ("A", video_node "a" ["x"; "y"]) ∈ videos three_videos).
  { apply list_elem_of_here. }
  assert (HB : ("B", video_node "b" ["y"; "z"]) ∈ videos three_videos).
  { apply list_elem_of_further, list_elem_of_here. }
  assert (HC : ("C", video_node "c" ["p"; "q"]) ∈ videos three_videos).
  { apply list_elem_of_further, list_elem_of_further, list_elem_of_here. }
  assert (Hxy : NoDup ["x"; "y"]) by (apply (bool_decide_unpack _); by vm_compute).
  assert (Hyz : NoDup ["y"; "z"]) by (apply (bool_decide_unpack _); by vm_compute).
  assert (Hpq : NoDup ["p"; "q"]) by (apply (bool_decide_unpack _); by vm_compute).
  destruct (compute_video_similarities_jaccard three_videos "A" "B" _ _ _ _
              Hnd HA HB eq_refl eq_refl Hxy Hyz eq_refl) as (_ & Hedge & Hval & _).
  destruct (compute_video_similarities_jaccard three_videos "A" "C" _ _ _ _
              Hnd HA HC eq_refl eq_refl Hxy Hpq eq_refl) as (_ & Hno & _).
  split; [|split].
  - apply Hedge. right. exists (1 # 3)%Q. split; [by vm_compute|]. by vm_compute.
  - apply Hval; by vm_compute.
  - intros He. apply Hno in He as [(k & p & Hin & _)|(q & HJ & Hle)].
    + by apply elem_of_nil in Hin.
    + vm_compute in HJ. injection HJ as <-. by vm_compute in Hle.
Defined.

(** * Lookups after a [MERGE] *)

Section cypher_get.
Context {K V : Type} `{EqDecision K}.
Implicit Types (l : list (K * V)) (k : K).

Lemma cy_get_app k l1 l2 :
  cy_get k (l1 ++ l2) = match cy_get k l1 with Some v => Some v | None => cy_get k l2 end.
Proof.
  induction l1 as [|[k' v'] l1 IH]; simpl; [done|]. by destruct (decide (k' = k)).
Qed.

Lemma cy_get_cy_set_where (p : K → bool) f k l :
  cy_get k (cy_set_where p f l) = (if p k then f else id) <$> cy_get k l.
Proof.
  induction l as [|[k' v'] l IH]; simpl; [done|].
  destruct (p k') eqn:Hp; simpl; destruct (decide (k' = k)) as [->|]; simpl; try done.
  - by rewrite Hp.
  - by rewrite Hp.
Qed.

Lemma cy_get_has_key k l : has_key k l = true ↔ is_Some (cy_get k l).
Proof.
  rewrite has_key_true. destruct (cy_get k l) eqn:Hg.
  - split; [by eexists|]. intros _. apply elem_of_keys. eexists. by apply cy_get_Some_elem.
  - apply cy_get_None in Hg. split; [done|]. by intros [? ?].
Qed.

Lemma cy_get_cy_merge k k' c f l :
  cy_get k' (cy_merge k c f l) =
  if decide (k' = k) then Some (match cy_get k l with Some v => f v | None => c end)
  else cy_get k' l.
Proof.
  unfold cy_merge, cy_merge_where. rewrite existsb_key_is.
  destruct (has_key k l) eqn:Hk.
  - rewrite cy_get_cy_set_where. unfold key_is. apply cy_get_has_key in Hk as [v Hv].
    destruct (decide (k' = k)) as [->|Hne].
    + rewrite bool_decide_eq_true_2 by done. by rewrite Hv.
    + rewrite bool_decide_eq_false_2 by done. by destruct (cy_get k' l).
  - apply has_key_false, cy_get_None in Hk. rewrite cy_get_app. simpl.
    destruct (decide (k' = k)) as [->|Hne].
    + rewrite Hk. by rewrite decide_True.
    + rewrite decide_False by done. by destruct (cy_get k' l).
Qed.

End cypher_get.

(** * The InterestedIn aggregate *)

Lemma same_nodes_refl g : same_nodes g g.
Proof. done. Qed.

Lemma same_nodes_trans g1 g2 g3 : same_nodes g1 g2 → same_nodes g2 g3 → same_nodes g1 g3.
Proof. unfold same_nodes. intros (-> & -> & ->) (-> & -> & ->). done. Qed.

Lemma bump_interest_nodes u d g c : same_nodes g (bump_interest u d g c).
Proof. unfold bump_interest. by destruct (has_key c (category_nodes g)). Qed.

Lemma foldl_bump_interest_nodes u d cats g :
  same_nodes g (foldl (bump_interest u d) g cats).
Proof.
  revert g. induction cats as [|c cats IH]; intros g; simpl; [done|].
  eapply same_nodes_trans; [apply bump_interest_nodes|apply IH].
Qed.

Lemma same_nodes_stored_categories g g' vid :
  same_nodes g g' → stored_categories vid g' = stored_categories vid g.
Proof. unfold stored_categories. by intros (_ & -> & _). Qed.

(** One row of the [UNWIND]. *)
Lemma bump_interest_count u' d g c' u c :
  interest_count_of (bump_interest u' d g c') u c =
  interest_count_of g u c +
  (if decide (u = u' ∧ c = c' ∧ c' ∈ keys (category_nodes g)) then 1 else 0).
Proof.
  unfold bump_interest, interest_count_of.
  destruct (has_key c' (category_nodes g)) eqn:Hk.
  - apply has_key_true in Hk. simpl. rewrite cy_get_cy_merge.
    destruct (decide ((u, c) = (u', c'))) as [Heq|Hne]; [injection Heq as -> ->|].
    + rewrite decide_True by done. destruct (cy_get _ _); simpl; lia.
    + rewrite decide_False by (intros (-> & -> & _); done). lia.
  - apply has_key_false in Hk. rewrite decide_False by (intros (_ & _ & ?); done). lia.
Qed.

Lemma bump_interest_score u' d g c' u c :
  (0 <= d)%Q →
  (interest_score_of g u c <= interest_score_of (bump_interest u' d g c') u c)%Q.
Proof.
  intros Hd. unfold bump_interest, interest_score_of.
  destruct (has_key c' (category_nodes g)); [|lra].
  simpl. rewrite cy_get_cy_merge.
  destruct (decide ((u, c) = (u', c'))) as [Heq|Hne]; [injection Heq as -> ->|].
  - destruct (cy_get _ _); simpl; lra.
  - lra.
Qed.

Lemma foldl_bump_interest_score u' d cats g u c :
  (0 <= d)%Q →
  (interest_score_of g u c <= interest_score_of (foldl (bump_interest u' d) g cats) u c)%Q.
Proof.
  intros Hd. revert g. induction cats as [|c' cats IH]; intros g; simpl; [lra|].
  eapply Qle_trans; [apply (bump_interest_score u' d g c'); done|apply IH].
Qed.

Lemma stored_categories_NoDup g vid :
  categories_distinct g → NoDup (stored_categories vid g).
Proof.
  intros Hd. unfold stored_categories.
  destruct (cy_get vid (videos g)) as [n|] eqn:Hg; [|apply NoDup_nil_2].
  destruct (attrs n) as [a|] eqn:Ha; [|apply NoDup_nil_2].
  apply cy_get_Some_elem in Hg. by apply (Hd vid n a).
Qed.

Lemma sync_interactions_nodes ops s :
  same_nodes (neo4j s) (neo4j (sync_interactions ops s)).
Proof.
  revert s. induction ops as [|i ops IH]; intros s; [done|].
  eapply same_nodes_trans; [|apply IH].
  destruct i; simpl; unfold watch_statement, like_statement;
    destruct (has_key _ _ && has_key _ _); simpl; try done;
    (eapply same_nodes_trans; [|apply foldl_bump_interest_nodes]); done.
Qed.

Lemma occurrences_nil c : occurrences c [] = 0.
Proof. done. Qed.

Lemma occurrences_cons c x cats :
  occurrences c (x :: cats) = (if decide (x = c) then 1 else 0) + occurrences c cats.
Proof.
  unfold occurrences. rewrite filter_cons. destruct (decide (x = c)); simpl; lia.
Qed.

Lemma sync_interaction_stores i s :
  neo4j (sync_interaction i s)
  = tick (if has_key (interaction_user i) (users (neo4j s))
             && has_key (interaction_video i) (videos (neo4j s))
          then foldl (bump_interest (interaction_user i) (interaction_weight i))
                 (match i with
                  | Watched w =>
                      with_watches (merge_rel (interaction_user i, interaction_video i)
                        {| rel_watch_time := watch_time w;
                           rel_timestamp := watch_timestamp w |}) (neo4j s)
                  | Liked l =>
                      with_likes (merge_rel (interaction_user i, interaction_video i)
                        (like_timestamp l)) (neo4j s)
                  end)
                 (stored_categories (interaction_video i) (neo4j s))
          else neo4j s) ∧
  django (sync_interaction i s)
  = foldl (bump_aggregate (interaction_user i) (interaction_weight i)) (django s)
      (match i with
       | Watched w => video_categories (watch_video w)
       | Liked l => video_categories (like_video l)
       end).
Proof. by destruct i. Qed.

(** The rows of the [UNWIND] of one statement: a category without node
    matches nothing. *)
Lemma foldl_bump_interest_rows u' d cats g u c :
  interest_count_of (foldl (bump_interest u' d) g cats) u c
  = interest_count_of g u c +
    (if decide (u = u' ∧ c ∈ keys (category_nodes g)) then occurrences c cats else 0).
Proof.
  revert g. induction cats as [|c' cats IH]; intros g; cbn [foldl].
  - rewrite occurrences_nil. destruct (decide _); lia.
  - rewrite IH, bump_interest_count, occurrences_cons.
    destruct (bump_interest_nodes u' d g c') as (_ & _ & ->).
    destruct (decide (u = u' ∧ c ∈ keys (category_nodes g))) as [[-> Hc]|Hn].
    + destruct (decide (c' = c)) as [->|Hne].
      * rewrite decide_True by done. lia.
      * rewrite decide_False by (intros (_ & ? & _); congruence). lia.
    + rewrite decide_False; [lia|]. intros (-> & -> & ?). by apply Hn.
Qed.

Lemma sync_interaction_count i s u c :
  interest_count_of (neo4j (sync_interaction i s)) u c
  = interest_count_of (neo4j s) u c + interest_rows (neo4j s) u c i.
Proof.
  destruct (sync_interaction_stores i s) as [-> _].
  change (interest_count_of (tick ?x) u c) with (interest_count_of x u c).
  unfold interest_rows.
  destruct (has_key (interaction_user i) (users (neo4j s))) eqn:Hu;
    [destruct (has_key (interaction_video i) (videos (neo4j s))) eqn:Hv|]; cbn [andb].
  - apply has_key_true in Hu, Hv. rewrite foldl_bump_interest_rows.
    assert (Hg1 : ∀ g1 : Graph,
      category_nodes g1 = category_nodes (neo4j s) →
      interested_in g1 = interested_in (neo4j s) →
      interest_count_of g1 u c +
      (if decide (u = interaction_user i ∧ c ∈ keys (category_nodes g1))
       then occurrences c (stored_categories (interaction_video i) (neo4j s)) else 0)
      = interest_count_of (neo4j s) u c +
        (if decide (interaction_user i = u ∧ u ∈ keys (users (neo4j s)) ∧
                    interaction_video i ∈ keys (videos (neo4j s)) ∧
                    c ∈ keys (category_nodes (neo4j s)))
         then occurrences c (stored_categories (interaction_video i) (neo4j s)) else 0)).
    { intros g1 -> Hi. unfold interest_count_of. rewrite Hi.
      repeat case_decide; try done; exfalso; naive_solver. }
    destruct i; by apply Hg1.
  - apply has_key_false in Hv. rewrite decide_False; [lia|]. naive_solver.
  - apply has_key_false in Hu. rewrite decide_False; [lia|]. naive_solver.
Qed.

Lemma sync_interaction_score i s u c :
  (0 <= interaction_weight i)%Q →
  (interest_score_of (neo4j s) u c
   <= interest_score_of (neo4j (sync_interaction i s)) u c)%Q.
Proof.
  intros Hw. destruct (sync_interaction_stores i s) as [-> _].
  change (interest_score_of (tick ?x) u c) with (interest_score_of x u c).
  destruct (has_key _ _ && has_key _ _); [|apply Qle_refl].
  eapply Qle_trans; [|by apply foldl_bump_interest_score].
  destruct i; apply Qle_refl.
Qed.

Lemma same_nodes_interest_rows g g' u c i :
  same_nodes g g' → interest_rows g' u c i = interest_rows g u c i.
Proof.
  intros Hs. unfold interest_rows. rewrite (same_nodes_stored_categories g g' _ Hs).
  destruct Hs as (-> & -> & ->). done.
Qed.

Lemma occurrences_pos c cats : c ∈ cats ↔ 0 < occurrences c cats.
Proof.
  induction cats as [|x cats IH].
  - rewrite occurrences_nil. split; [by intros ?%elem_of_nil|lia].
  - rewrite occurrences_cons, elem_of_cons, IH.
    assert (0 ≤ occurrences c cats) by (unfold occurrences; lia).
    destruct (decide (x = c)) as [->|Hne]; split; try lia; [by left|].
    intros [->|?]; [done|lia].
Qed.

Lemma occurrences_NoDup c cats :
  NoDup cats → occurrences c cats = if decide (c ∈ cats) then 1 else 0.
Proof.
  induction 1 as [|x cats Hx Hnd IH].
  - rewrite occurrences_nil. by rewrite decide_False by apply not_elem_of_nil.
  - rewrite occurrences_cons, IH. destruct (decide (x = c)) as [->|Hne].
    + rewrite decide_False by done. rewrite decide_True by apply list_elem_of_here. lia.
    + destruct (decide (c ∈ cats)) as [Hin|Hni].
      * rewrite decide_True by by apply list_elem_of_further. lia.
      * rewrite decide_False; [lia|]. intros [->|?]%elem_of_cons; done.
Qed.

Lemma interest_rows_qualifies g u c i :
  qualifies g u c i ↔ 0 < interest_rows g u c i.
Proof.
  unfold qualifies, interest_rows. destruct (decide _) as [(Hu & Hin & Hv & Hc)|Hn].
  - rewrite <- occurrences_pos. naive_solver.
  - split; [|lia]. intros (? & ? & ? & ? & ?). exfalso. by apply Hn.
Qed.

Lemma interest_rows_distinct g u c i :
  categories_distinct g →
  interest_rows g u c i = if decide (qualifies g u c i) then 1 else 0.
Proof.
  intros Hd. unfold qualifies, interest_rows.
  rewrite (occurrences_NoDup c _ (stored_categories_NoDup g (interaction_video i) Hd)).
  repeat case_decide; try done; exfalso; naive_solver.
Qed.

(** C9 (as amended). Along any sequence of [sync_watch_to_neo4j] and
    [sync_like_to_neo4j] operations, whatever the watch times and
    whatever happened before, the [InterestedIn] count of every (user,
    category) pair grows with each interaction by the number of rows of
    its [UNWIND] that land on the pair: none for an interaction that does
    not qualify, and for a qualifying one the number of times the
    category occurs in the stored category list of the video, which is at
    least one and exactly one when the list has no repetition. So the
    count never decreases and strictly increases on each qualifying
    interaction; with repetition-free lists it grows by the number of
    qualifying interactions. When the watch times of the operations are
    non-negative the score never decreases. *)
Theorem interest_monotone ops1 ops2 s u c :
  let s1 := sync_interactions ops1 s in
  let s2 := sync_interactions ops2 s1 in
  interest_count_of (neo4j s2) u c
  = interest_count_of (neo4j s1) u c +
    foldr Z.add 0 (interest_rows (neo4j s) u c <$> ops2) ∧
  (∀ i, (qualifies (neo4j s) u c i ↔ 0 < interest_rows (neo4j s) u c i) ∧
        (¬ qualifies (neo4j s) u c i → interest_rows (neo4j s) u c i = 0) ∧
        (NoDup (stored_categories (interaction_video i) (neo4j s)) →
         qualifies (neo4j s) u c i → interest_rows (neo4j s) u c i = 1)) ∧
  (categories_distinct (neo4j s) →
   interest_count_of (neo4j s2) u c
   = interest_count_of (neo4j s1) u c +
     Z.of_nat (length (filter (qualifies (neo4j s) u c) ops2))) ∧
  (Forall (λ i, (0 <= interaction_weight i)%Q) ops2 →
   (interest_score_of (neo4j s1) u c <= interest_score_of (neo4j s2) u c)%Q).
Proof.
  intros s1 s2.
  assert (Hs1 : same_nodes (neo4j s) (neo4j s1)) by apply sync_interactions_nodes.
  assert (Hcount : interest_count_of (neo4j s2) u c
    = interest_count_of (neo4j s1) u c +
      foldr Z.add 0 (interest_rows (neo4j s) u c <$> ops2)).
  { unfold s2. clearbody s1. clear s2. revert s1 Hs1.
    induction ops2 as [|i ops2 IH]; intros s1 Hs1; [simpl; lia|].
    change (sync_interactions (i :: ops2) s1)
      with (sync_interactions ops2 (sync_interaction i s1)).
    rewrite IH.
    - rewrite sync_interaction_count, (same_nodes_interest_rows _ _ u c i Hs1).
      rewrite fmap_cons. cbn [foldr]. lia.
    - eapply same_nodes_trans; [exact Hs1|].
      apply (sync_interactions_nodes [i] s1). }
  split; [exact Hcount|]. split; [|split].
  - intros i. split; [apply interest_rows_qualifies|]. split.
    + intros Hn. assert (0 ≤ interest_rows (neo4j s) u c i).
      { unfold interest_rows, occurrences. destruct (decide _); lia. }
      destruct (decide (0 < interest_rows (neo4j s) u c i)) as [Hp|]; [|lia].
      by apply interest_rows_qualifies in Hp.
    + intros Hnd Hq. unfold interest_rows. rewrite occurrences_NoDup by done.
      unfold qualifies in Hq. rewrite !decide_True; naive_solver.
  - intros Hd. rewrite Hcount. f_equal. clear Hcount s2.
    induction ops2 as [|i ops2 IH]; [done|].
    rewrite fmap_cons, filter_cons. cbn [foldr]. rewrite IH, interest_rows_distinct by done.
    destruct (decide (qualifies (neo4j s) u c i)); simpl; lia.
  - intros Hw. unfold s2. clearbody s1. clear s2 Hs1 Hcount. revert s1.
    induction Hw as [|i ops2 Hi Hw IH]; intros s1; [apply Qle_refl|].
    eapply Qle_trans; [by apply (sync_interaction_score i s1)|apply IH].
Qed.

Lemma interest_monotone_witness :
  interest_count_of (neo4j (sync_interactions [Liked (like_of video_2)]
        (sync_interactions [Watched (watch_of video_1 1)] viewer_stores))) "u1" "c" = 2 ∧
  (interest_score_of (neo4j (sync_interactions [Watched (watch_of video_1 1)] viewer_stores)) "u1" "c"
   <= interest_score_of (neo4j (sync_interactions [Liked (like_of video_2)]
        (sync_interactions [Watched (watch_of video_1 1)] viewer_stores))) "u1" "c")%Q ∧
  interest_count_of (neo4j (sync_interactions [Watched (watch_of video_1 1)] repeated_stores))
    "u1" "c" = 2.
Proof.
  destruct (interest_monotone [Watched (watch_of video_1 1)] [Liked (like_of video_2)]
              viewer_stores "u1" "c") as (Hc & _ & _ & Hs).
  destruct (interest_monotone [] [Watched (watch_of video_1 1)]
              repeated_stores "u1" "c") as (Hc2 & _).
  split; [|split].
  - rewrite Hc. by vm_compute.
  - apply Hs. apply Forall_singleton. by vm_compute.
  - etrans; [exact Hc2|]. by vm_compute.
Defined.

(** The claim as stated fails: a watch with a negative watch time (the
    endpoint passes the client's number through unchecked) lowers the score. *)
Lemma interest_score_can_decrease :
  (interest_score_of
     (neo4j (sync_interactions [Watched (watch_of video_2 (-5))]
               (sync_interactions [Watched (watch_of video_1 1)] viewer_stores))) "u1" "c"
   < interest_score_of
       (neo4j (sync_interactions [Watched (watch_of video_1 1)] viewer_stores)) "u1" "c")%Q.
Proof. by vm_compute. Qed.

(** * Staleness detector *)

Section staleness.
Context `{B : Backend}.

Lemma exceeds_by_fifth_spec (current trained : Z) :
  exceeds_by_fifth current trained = true ↔
  ((12 # 10) * inject_Z trained < inject_Z current)%Q.
Proof.
  unfold exceeds_by_fifth. rewrite bool_decide_eq_true.
  unfold Qlt. simpl. lia.
Qed.

(** C3. [check_model_needs_training] answers true exactly when no model is
    loaded, or the metadata carries a [last_trained] stamp more than seven
    days old, or the current user count exceeds 1.2 times the user count of
    the loaded mapping, or the same holds for videos. With equal counts and
    [last_trained] = now it answers false; once the user count has grown by
    21 percent over a non-empty mapping it answers true. *)
Theorem check_model_needs_training_spec (w : World) :
  (check_model_needs_training w = true ↔
     model (engine w) = None ∨
     (∃ t, md_last_trained (model_metadata (engine w)) = Some t ∧
           seven_days < clock w - t) ∨
     ((12 # 10) * inject_Z (trained_count w "user")
        < inject_Z (current_count (users (graph w))))%Q ∨
     ((12 # 10) * inject_Z (trained_count w "video")
        < inject_Z (current_count (videos (graph w))))%Q) ∧
  (is_Some (model (engine w)) →
   md_last_trained (model_metadata (engine w)) = Some (clock w) →
   current_count (users (graph w)) = trained_count w "user" →
   current_count (videos (graph w)) = trained_count w "video" →
   check_model_needs_training w = false) ∧
  (0 < trained_count w "user" →
   ((121 # 100) * inject_Z (trained_count w "user")
      <= inject_Z (current_count (users (graph w))))%Q →
   check_model_needs_training w = true).
Proof.
  assert (Hmain : check_model_needs_training w = true ↔
     model (engine w) = None ∨
     (∃ t, md_last_trained (model_metadata (engine w)) = Some t ∧
           seven_days < clock w - t) ∨
     ((12 # 10) * inject_Z (trained_count w "user")
        < inject_Z (current_count (users (graph w))))%Q ∨
     ((12 # 10) * inject_Z (trained_count w "video")
        < inject_Z (current_count (videos (graph w))))%Q).
  { rewrite <- !exceeds_by_fifth_spec. unfold check_model_needs_training.
    fold (trained_count w "user") (trained_count w "video").
    fold (current_count (users (graph w))) (current_count (videos (graph w))).
    destruct (model (engine w)) as [m|]; [|by split; [left|]].
    destruct (md_last_trained _) as [t|].
    - destruct (bool_decide (seven_days < clock w - t)) eqn:Hage.
      + apply bool_decide_eq_true in Hage. split; [|done].
        intros _. right. left. by exists t.
      + apply bool_decide_eq_false in Hage.
        destruct (exceeds_by_fifth _ _ || exceeds_by_fifth _ _) eqn:Hx.
        * apply orb_true_iff in Hx. split; [|done]. intros _. right. right. done.
        * apply orb_false_iff in Hx as [Hu Hv]. split; [done|].
          intros [?|[(t' & [= <-] & ?)|[?|?]]]; congruence.
    - destruct (exceeds_by_fifth _ _ || exceeds_by_fifth _ _) eqn:Hx.
      + apply orb_true_iff in Hx. split; [|done]. intros _. right. right. done.
      + apply orb_false_iff in Hx as [Hu Hv]. split; [done|].
        intros [?|[(t' & ? & ?)|[?|?]]]; congruence. }
  split; [exact Hmain|]. split.
  - intros [m Hm] Hlast Hu Hv. apply not_true_iff_false. rewrite Hmain.
    intros [Hn|[(t & Ht & Hage)|[Hx|Hx]]].
    + congruence.
    + rewrite Hlast in Ht. injection Ht as <-. unfold seven_days in Hage. lia.
    + rewrite Hu in Hx. unfold Qlt in Hx. simpl in Hx. unfold trained_count in Hx. lia.
    + rewrite Hv in Hx. unfold Qlt in Hx. simpl in Hx. unfold trained_count in Hx. lia.
  - intros Hpos Hgrow. apply Hmain. right. right. left.
    unfold Qle in Hgrow. unfold Qlt. simpl in *. lia.
Qed.

End staleness.

(** * One training epoch *)

Section epoch.
Context `{B : Backend}.

Lemma truediv_guarded (a : Q) (n : Z) :
  truediv a (Z.max n 1) = Ok (a / inject_Z (Z.max n 1))%Q.
Proof. unfold truediv. rewrite decide_False by lia. done. Qed.

(** The loop raises nothing but what its body raises. *)
Lemma foldl_train_interaction_no_zero_division d um vm n l acc :
  acc ≠ Raise ZeroDivisionError →
  foldl (train_interaction d um vm n) acc l ≠ Raise ZeroDivisionError.
Proof.
  revert acc. induction l as [|i l IH]; intros acc Hacc; [done|]. cbn [foldl].
  apply IH. unfold train_interaction. destruct acc as [st|e]; [|done].
  destruct (um !! i.1); [|done]. destruct (vm !! i.2); [|done].
  destruct (decide (n = 0%nat)); [done|].
  destruct (randint n (ep_rng st)) as [neg r].
  destruct (decide (edge_index_dict d = [])); [done|].
  destruct (ep_model st); [|done].
  by destruct (bpr_step _ _ _ _ _) as [loss [[m' o] r']].
Qed.

(** When every interaction is skipped the state of the loop stays put. *)
Lemma foldl_train_interaction_skipped d um vm n l st :
  (∀ i, i ∈ l → um !! i.1 = None ∨ vm !! i.2 = None) →
  foldl (train_interaction d um vm n) (Ok st) l = Ok st.
Proof.
  induction l as [|i l IH]; intros Hl; [done|]. cbn [foldl].
  assert (train_interaction d um vm n (Ok st) i = Ok st) as ->.
  { unfold train_interaction.
    destruct (Hl i (list_elem_of_here _ _)) as [-> | Hv]; [done|].
    rewrite Hv. by destruct (um !! i.1). }
  apply IH. intros j Hj. apply Hl. by apply list_elem_of_further.
Qed.

Lemma world_unchanged (w : World) :
  with_rng (rng w) (with_engine (set_model (model (engine w))) w) = w.
Proof. destruct w as [g f e r c]. by destruct e. Qed.

(** C10. [_train_epoch] never divides by zero. It returns 0.0 when the
    sampled pool is empty; and when every sampled interaction is skipped
    because its user or video id is not mapped, the guarded mean
    [total_loss / max(num_batches, 1)] is 0.0 and neither the model nor the
    optimizer has taken a step. *)
Theorem _train_epoch_total (optimizer : Optimizer) (w : World) :
  _train_epoch optimizer w ≠ Raise ZeroDivisionError ∧
  (sampled_interactions (graph w) = [] →
   _train_epoch optimizer w = Ok ((0%Q, optimizer), w)) ∧
  (∀ d n_videos users_map videos_map,
     data (engine w) = Some d → num_nodes d !! "video" = Some n_videos →
     node_mappings (engine w) !! "user" = Some users_map →
     node_mappings (engine w) !! "video" = Some videos_map →
     (∀ i, i ∈ sampled_interactions (graph w) →
           users_map !! i.1 = None ∨ videos_map !! i.2 = None) →
     _train_epoch optimizer w = Ok ((0%Q, optimizer), w)).
Proof.
  split; [|split].
  - unfold _train_epoch. destruct (decide _) as [|_]; [done|].
    destruct (data (engine w)) as [d|]; [|done].
    destruct (num_nodes d !! "video") as [n|]; [|done].
    destruct (node_mappings (engine w) !! "user") as [um|]; [|done].
    destruct (node_mappings (engine w) !! "video") as [vm|]; [|done].
    destruct (foldl _ _ _) as [st|e] eqn:Hf.
    + by rewrite truediv_guarded.
    + intros [= ->]. by eapply foldl_train_interaction_no_zero_division, Hf.
  - intros Hempty. unfold _train_epoch. by rewrite decide_True.
  - intros d n um vm Hd Hn Hum Hvm Hskip. unfold _train_epoch.
    destruct (decide _) as [Hempty|_]; [done|].
    rewrite Hd, Hn, Hum, Hvm, foldl_train_interaction_skipped by done.
    rewrite truediv_guarded. simpl. by rewrite world_unchanged.
Qed.

End epoch.

(** * Recommender *)

#[global] Instance by_count_desc_total : Total by_count_desc.
Proof. intros a b. unfold by_count_desc. lia. Qed.

#[global] Instance by_count_desc_trans : Transitive by_count_desc.
Proof. intros a b c. unfold by_count_desc. lia. Qed.

(** The popularity ranking: the videos with at least one watch, by
    descending watch count, cut at [limit]. *)
Lemma _get_popular_videos_ranking limit g :
  ∃ ranking : list (string * nat),
    _get_popular_videos limit g = (take limit ranking).*1 ∧
    StronglySorted by_count_desc ranking ∧
    ranking ≡ₚ popular_rows g.
Proof.
  exists (merge_sort by_count_desc (popular_rows g)). split; [done|]. split.
  - apply StronglySorted_merge_sort; apply _.
  - apply merge_sort_Permutation.
Qed.

Lemma elem_of_popular_rows g v n :
  (v, n) ∈ popular_rows g ↔
  v ∈ keys (videos g) ∧ n = watch_count g v ∧ (0 < n)%nat.
Proof.
  unfold popular_rows. rewrite list_elem_of_filter, list_elem_of_fmap. simpl. split.
  - intros [Hn ([v' nd] & [= -> ->] & Hin)]. split; [|done].
    apply elem_of_keys. by exists nd.
  - intros (Hin & -> & Hn). split; [done|]. apply elem_of_keys in Hin as [nd Hin].
    by exists (v, nd).
Qed.

Lemma take_snoc_full {A} (acc : list A) (v : A) (rest : list A) (n : nat) :
  (n ≤ length acc + 1)%nat → (length acc < n)%nat →
  take n (acc ++ v :: rest) = acc ++ [v].
Proof.
  intros Hle Hlt. rewrite (cons_middle v acc rest), app_assoc.
  rewrite take_app_le by (rewrite length_app; simpl; lia).
  apply take_ge. rewrite length_app. simpl. lia.
Qed.

Section collect.
Implicit Types (ids : list string) (watched : gset string) (indices : list Z).

Lemma collect_unwatched ids watched limit indices acc l :
  (∀ v, v ∈ acc → v ∉ watched) →
  collect ids watched limit indices acc = Ok l →
  ∀ v, v ∈ l → v ∉ watched.
Proof.
  revert acc. induction indices as [|idx rest IH]; intros acc Hacc; simpl.
  - by intros [= <-].
  - destruct (bool_decide (idx < Z.of_nat (length ids))); [|by apply IH].
    destruct (py_index ids idx) as [video_id|]; [|done].
    destruct (bool_decide (video_id ∈ watched)) eqn:Hw; [by apply IH|].
    apply bool_decide_eq_false in Hw.
    assert (Hacc' : ∀ v, v ∈ acc ++ [video_id] → v ∉ watched).
    { intros v Hv. apply elem_of_app in Hv as [Hv|Hv]; [by apply Hacc|].
      by apply list_elem_of_singleton in Hv as ->. }
    destruct (bool_decide (limit ≤ length (acc ++ [video_id]))%nat); [|by apply IH].
    by intros [= <-].
Qed.

Lemma collect_in_range ids watched limit indices acc :
  Forall (λ i, 0 ≤ i < Z.of_nat (length ids)) indices →
  (length acc < limit)%nat →
  collect ids watched limit indices acc
  = Ok (take limit (acc ++ survivors ids watched indices)).
Proof.
  intros Hr. revert acc. induction Hr as [|idx rest Hidx Hr IH]; intros acc Hacc; simpl.
  - unfold survivors. simpl. rewrite app_nil_r. by rewrite take_ge by lia.
  - rewrite bool_decide_eq_true_2 by lia.
    unfold py_index. rewrite bool_decide_eq_true_2 by lia.
    destruct (ids !! Z.to_nat idx) as [video_id|] eqn:Hl.
    2:{ apply lookup_ge_None in Hl. lia. }
    unfold survivors. simpl. rewrite Hl. simpl.
    destruct (decide (video_id ∈ watched)) as [Hw|Hw].
    + rewrite bool_decide_eq_true_2 by done.
      rewrite filter_cons_False by (intros Hn; by apply Hn). by apply IH.
    + rewrite bool_decide_eq_false_2 by done. rewrite filter_cons_True by done.
      fold (survivors ids watched rest).
      destruct (decide (limit ≤ length (acc ++ [video_id]))%nat) as [Hfull|Hfull].
      * rewrite bool_decide_eq_true_2 by done. f_equal.
        rewrite length_app in Hfull. simpl in Hfull.
        by rewrite take_snoc_full by lia.
      * rewrite bool_decide_eq_false_2 by done.
        rewrite IH by lia. by rewrite <- app_assoc.
Qed.

End collect.

Section recommender.
Context `{B : Backend}.

Lemma _build_faiss_index_graph w w' :
  _build_faiss_index w = Ok ((), w') → graph w' = graph w.
Proof.
  unfold _build_faiss_index. destruct (decode_rows _) as [rows|]; [|done].
  destruct (decide (rows = [])); [intros [= <-]; done|].
  destruct (faiss_build _); [|done]. intros [= <-]. done.
Qed.

(** What a successful call went through. *)
Lemma get_recommendations_Ok uid limit w l w' :
  get_recommendations uid limit w = Ok (l, w') →
  ∃ w1, index_trigger w = Ok ((), w1) ∧ graph w' = graph w1 ∧
    match stored_embedding uid (graph w1) with
    | None => w' = w1 ∧ l = _get_popular_videos limit (graph w1)
    | Some text =>
        ∃ q ix indices,
          json_loads text = Some q ∧
          faiss_index (engine w') = Some ix ∧
          faiss_search ix q (limit * 2) = Some indices ∧
          collect (video_ids (engine w')) (watched_videos uid (graph w')) limit indices []
          = Ok l
    end.
Proof.
  unfold get_recommendations, bind.
  change (if faiss_index (engine w) is Some _ then Ok ((), w)
          else ensure_model_trained false w) with (index_trigger w).
  destruct (index_trigger w) as [[[] w1]|] eqn:Ht; [|done].
  intros H. exists w1. split; [done|].
  destruct (stored_embedding uid (graph w1)) as [text|].
  - destruct (json_loads text) as [q|]; [|done].
    destruct (if faiss_index (engine w1) is None then _build_faiss_index w1 else Ok ((), w1))
      as [[[] w2]|] eqn:Hb; [|done].
    assert (Hg : graph w2 = graph w1).
    { destruct (faiss_index (engine w1)); [by injection Hb as <-|].
      by apply _build_faiss_index_graph. }
    destruct (faiss_index (engine w2)) as [ix|] eqn:Hix; [|done].
    destruct (faiss_search ix q (limit * 2)) as [indices|] eqn:Hs; [|done].
    destruct (collect _ _ _ _ _) as [recs|] eqn:Hc; [|done].
    injection H as <- <-. split; [done|]. by exists q, ix, indices.
  - injection H as <- <-. done.
Qed.

(** C2 (as amended). No video the user has watched appears in a list that
    [get_recommendations] answers from the vector index, that is, for a
    user with a stored embedding: the list is what the loop collects from
    the 2 × limit positions of the search, and when those positions are all
    inside the id list it is the first [limit] unwatched candidates in
    rank order. (The popularity fallback is the global ranking and is not
    filtered.) *)
Theorem get_recommendations_unwatched uid limit w l w' :
  get_recommendations uid limit w = Ok (l, w') →
  is_Some (stored_embedding uid (graph w')) →
  (∀ v, v ∈ l → v ∉ watched_videos uid (graph w')) ∧
  ∃ text q ix indices,
    stored_embedding uid (graph w') = Some text ∧
    json_loads text = Some q ∧
    faiss_index (engine w') = Some ix ∧
    faiss_search ix q (limit * 2) = Some indices ∧
    (Forall (λ i, 0 ≤ i < Z.of_nat (length (video_ids (engine w')))) indices →
     (0 < limit)%nat →
     l = take limit (survivors (video_ids (engine w'))
                       (watched_videos uid (graph w')) indices)).
Proof.
  intros Hok [text Htext].
  apply get_recommendations_Ok in Hok as (w1 & _ & Hg & Hbranch).
  rewrite <- Hg, Htext in Hbranch. destruct Hbranch as (q & ix & indices & Hq & Hix & Hs & Hc).
  split.
  - eapply collect_unwatched; [|exact Hc]. intros v Hv. by apply elem_of_nil in Hv.
  - exists text, q, ix, indices. repeat split; try done.
    intros Hr Hl. rewrite collect_in_range in Hc by (simpl; done).
    by injection Hc as <-.
Qed.

(** C4 (as amended). A missing stored embedding (no user node, a null
    property or an empty text) sends [get_recommendations] to the
    popularity fallback, and the fallback itself cannot fail. With a
    vector index in memory the call therefore answers exactly
    [_get_popular_videos limit] and changes nothing. With no index in
    memory the call first runs [ensure_model_trained]: what that raises
    (while training, storing embeddings or building the index) is raised
    by the call, before the embedding of the user is looked at; and when
    it returns, a user whose embedding is missing from the graph it left
    gets [_get_popular_videos limit] of that graph. The fallback is the
    list of the videos with at least one watch, by descending watch
    count, cut at [limit]. (A non-empty text that does not decode is not
    handled and raises.) *)
Theorem get_recommendations_cold_start uid limit w :
  (is_Some (faiss_index (engine w)) → stored_embedding uid (graph w) = None →
   get_recommendations uid limit w = Ok (_get_popular_videos limit (graph w), w)) ∧
  (faiss_index (engine w) = None →
   match ensure_model_trained false w with
   | Raise e => get_recommendations uid limit w = Raise e
   | Ok (_, w1) =>
       stored_embedding uid (graph w1) = None →
       get_recommendations uid limit w = Ok (_get_popular_videos limit (graph w1), w1)
   end) ∧
  ∀ g, ∃ ranking : list (string * nat),
    _get_popular_videos limit g = (take limit ranking).*1 ∧
    StronglySorted by_count_desc ranking ∧
    ranking ≡ₚ popular_rows g ∧
    (∀ v n, (v, n) ∈ ranking ↔
            v ∈ keys (videos g) ∧ n = watch_count g v ∧ (0 < n)%nat).
Proof.
  split; [|split].
  - intros [ix Hix] Hnone. unfold get_recommendations, bind. by rewrite Hix, Hnone.
  - intros Hix. unfold get_recommendations, bind. rewrite Hix.
    destruct (ensure_model_trained false w) as [[[] w1]|e]; [|done].
    by intros ->.
  - intros g. destruct (_get_popular_videos_ranking limit g) as (ranking & H1 & H2 & H3).
    exists ranking. split; [done|]. split; [done|]. split; [done|].
    intros v n. rewrite H3. apply elem_of_popular_rows.
Qed.

End recommender.

(** * Training run and persisted artifacts *)

Section persistence.
Context `{B : Backend}.

Lemma keeps_metadata_refl w : keeps_metadata w w.
Proof. done. Qed.

Lemma keeps_metadata_trans w1 w2 w3 :
  keeps_metadata w1 w2 → keeps_metadata w2 w3 → keeps_metadata w1 w3.
Proof. unfold keeps_metadata. intros [-> ->] [-> ->]. done. Qed.

Lemma load_graph_keeps w w' :
  load_graph_from_neo4j w = Ok ((), w') → keeps_metadata w w'.
Proof.
  unfold load_graph_from_neo4j.
  destruct (foldl _ _ _) as [[[[nm rm] xs] ns] r]. by intros [= <-].
Qed.

Lemma _train_epoch_keeps optimizer w r w' :
  _train_epoch optimizer w = Ok (r, w') → keeps_metadata w w'.
Proof.
  unfold _train_epoch. destruct (decide _) as [|_]; [by intros [= _ <-]|].
  destruct (data (engine w)) as [d|]; [|done].
  destruct (num_nodes d !! "video") as [n|]; [|done].
  destruct (node_mappings (engine w) !! "user") as [um|]; [|done].
  destruct (node_mappings (engine w) !! "video") as [vm|]; [|done].
  destruct (foldl _ _ _) as [st|]; [|done].
  destruct (truediv _ _); [|done]. by intros [= _ <-].
Qed.

Lemma train_epochs_keeps n optimizer w o w' :
  train_epochs n optimizer w = Ok (o, w') → keeps_metadata w w'.
Proof.
  revert optimizer w. induction n as [|n IH]; intros optimizer w; simpl.
  - by intros [= _ <-].
  - unfold bind. destruct (_train_epoch optimizer w) as [[r w1]|] eqn:He; [|done].
    intros Hn. eapply keeps_metadata_trans; [by eapply _train_epoch_keeps|by eapply IH].
Qed.

Lemma _build_faiss_index_keeps w w' :
  _build_faiss_index w = Ok ((), w') → keeps_metadata w w'.
Proof.
  unfold _build_faiss_index. destruct (decode_rows _) as [rows|]; [|done].
  destruct (decide (rows = [])); [intros [= <-]; done|].
  destruct (faiss_build _); [|done]. intros [= <-]. done.
Qed.

Lemma _extract_and_store_embeddings_keeps w w' :
  _extract_and_store_embeddings w = Ok ((), w') → keeps_metadata w w'.
Proof.
  unfold _extract_and_store_embeddings.
  destruct (model (engine w)); [|done]. destruct (data (engine w)) as [d|]; [|done].
  destruct (decide (edge_index_dict d = [])); [done|].
  destruct (foldl _ _ _) as [g|]; [|done].
  intros Hb. apply _build_faiss_index_keeps in Hb. done.
Qed.

Lemma _save_faiss_index_keeps w : keeps_metadata w (_save_faiss_index w).
Proof. unfold _save_faiss_index. by destruct (faiss_index (engine w)). Qed.

(** What [_save_model] writes. *)
Lemma _save_model_Ok w w' :
  _save_model w = Ok w' →
  md_total_epochs (model_metadata (engine w'))
  = Some (default 0 (md_total_epochs (model_metadata (engine w))) + 30) ∧
  METADATA_PATH (files w') = METADATA_PATH (files w) ∧
  is_Some (model (engine w')) ∧ exists_ (MODEL_PATH (files w')) = true.
Proof.
  unfold _save_model. destruct (model (engine w)) as [m|] eqn:Hm; [|done].
  intros [= <-]. simpl. rewrite Hm. by repeat split.
Qed.

(** The steps of a training run, in order. *)
Lemma train_run_Ok num_epochs hd w w' :
  train_gnn_and_update_embeddings num_epochs hd w = Ok ((), w') →
  ∃ w1 w2, keeps_metadata w w1 ∧ _save_model w1 = Ok w2 ∧ w' = _save_faiss_index w2.
Proof.
  unfold train_gnn_and_update_embeddings, bind, pure_step.
  destruct (if data (engine w) is None then _ else _) as [[[] wa]|] eqn:Ha; [|done].
  assert (Hka : keeps_metadata w wa).
  { destruct (data (engine w)); [by injection Ha as <-|by apply load_graph_keeps]. }
  destruct (match model (engine wa) with Some _ => _ | None => _ end)
    as [[m wb]|] eqn:Hb; [|done].
  assert (Hkb : keeps_metadata wa wb).
  { destruct (model (engine wa)); [by injection Hb as _ <-|].
    destruct (new_model hd (rng wa)). by injection Hb as _ <-. }
  destruct (train_epochs num_epochs (adam m) wb) as [[o wc]|] eqn:Hc; [|done].
  apply train_epochs_keeps in Hc.
  destruct (_extract_and_store_embeddings wc) as [[[] wd]|] eqn:Hd; [|done].
  apply _extract_and_store_embeddings_keeps in Hd.
  destruct (_save_model wd) as [we|] eqn:He; [|done].
  intros [= <-]. exists wd, we. split; [|done].
  eauto using keeps_metadata_trans.
Qed.

(** C7: the epoch count and the metadata file after a training run. The
    run of [num_epochs] epochs adds 30 to the recorded total, whatever
    [num_epochs] is, and the metadata file is left as it was: the
    metadata dict is rebuilt in memory only. *)
Theorem train_run_metadata num_epochs hd w w' :
  train_gnn_and_update_embeddings num_epochs hd w = Ok ((), w') →
  md_total_epochs (model_metadata (engine w'))
  = Some (default 0 (md_total_epochs (model_metadata (engine w))) + 30) ∧
  METADATA_PATH (files w') = METADATA_PATH (files w) ∧
  exists_ (MODEL_PATH (files w')) = true.
Proof.
  intros Hrun. apply train_run_Ok in Hrun as (w1 & w2 & [Hmd Hfile] & Hsave & ->).
  apply _save_model_Ok in Hsave as (Hep & Hpath & _ & Hsaved).
  destruct (_save_faiss_index_keeps w2) as [Hmd' Hfile'].
  rewrite Hmd', Hfile', Hep, Hpath, Hmd, Hfile. split; [done|]. split; [done|].
  unfold _save_faiss_index. by destruct (faiss_index (engine w2)).
Qed.

(** C1: a process restarted after a training run that began with no
    metadata file has no model. The weights were saved, but the loader
    wants the metadata file as well, and nothing writes it. *)
Theorem trained_model_lost_on_restart num_epochs hd w w' r now :
  METADATA_PATH (files w) = Missing →
  train_gnn_and_update_embeddings num_epochs hd w = Ok ((), w') →
  let fresh := __init__ (graph w') (files w') r now in
  is_Some (model (engine w')) ∧
  exists_ (MODEL_PATH (files w')) = true ∧
  model (engine fresh) = None ∧
  model_metadata (engine fresh) = empty_metadata ∧
  check_model_needs_training fresh = true.
Proof.
  intros Hmissing Hrun fresh.
  destruct (train_run_metadata _ _ _ _ Hrun) as (_ & Hpath & Hsaved).
  apply train_run_Ok in Hrun as (w1 & w2 & _ & Hsave & ->).
  apply _save_model_Ok in Hsave as (_ & _ & Hmodel & _).
  rewrite Hmissing in Hpath.
  assert (Hfresh : model (engine fresh) = None ∧
                   model_metadata (engine fresh) = empty_metadata).
  { unfold fresh, __init__, _load_model_if_exists. simpl. rewrite Hpath.
    rewrite andb_false_r. unfold _load_faiss_index_if_exists. simpl.
    destruct (exists_ _ && exists_ _); [|done].
    destruct (FAISS_INDEX_PATH _); try done. by destruct (VIDEO_IDS_PATH _). }
  destruct Hfresh as [Hnone Hmeta]. repeat split; try done.
  - unfold _save_faiss_index. by destruct (faiss_index (engine w2)).
  - unfold check_model_needs_training. by rewrite Hnone.
Qed.

End persistence.

(** * The forward pass of the model *)

Section gnn_facts.
Context `{T : Tensors}.
Implicit Types (x d : gmap string Tensor) (edges : list (edge_type * EdgeIndex)).










End gnn_facts.

(** * Tables up to what a sync may change *)

Section tables.
Context {K V : Type} `{EqDecision K}.
Implicit Types (l : list (K * V)) (k : K) (p : K → bool) (sk : V → V).

Lemma keys_skt sk l : keys (skt sk l) = keys l.
Proof.
  unfold keys, skt. rewrite <- list_fmap_compose. apply list_fmap_ext.
  by intros i [k v] _.
Qed.

Lemma skt_keys sk l l' : skt sk l = skt sk l' → keys l = keys l'.
Proof. intros Heq. by rewrite <- (keys_skt sk l), Heq, keys_skt. Qed.

Lemma skt_length sk l l' : skt sk l = skt sk l' → length l = length l'.
Proof. intros Heq. apply (f_equal length) in Heq. unfold skt in Heq. by rewrite !length_fmap in Heq. Qed.

Lemma existsb_keys p l : existsb (λ kv, p kv.1) l = existsb p (keys l).
Proof. induction l as [|[k v] l IH]; simpl; [done|]. by rewrite IH. Qed.

Lemma has_key_skt sk k l l' : skt sk l = skt sk l' → has_key k l = has_key k l'.
Proof. intros Heq. unfold has_key. by rewrite (skt_keys sk l l' Heq). Qed.

Lemma cy_get_skt sk k l : cy_get k (skt sk l) = sk <$> cy_get k l.
Proof.
  induction l as [|[k' v] l IH]; simpl; [done|]. by destruct (decide (k' = k)).
Qed.

Lemma skt_app sk l1 l2 : skt sk (l1 ++ l2) = skt sk l1 ++ skt sk l2.
Proof. unfold skt. by rewrite fmap_app. Qed.

Lemma skt_cy_set_where sk p f f' l l' :
  skt sk l = skt sk l' →
  (∀ v v', sk v = sk v' → sk (f v) = sk (f' v')) →
  skt sk (cy_set_where p f l) = skt sk (cy_set_where p f' l').
Proof.
  intros Heq Hf. revert l' Heq. induction l as [|[k v] l IH]; intros [|[k' v'] l'] Heq;
    try done.
  simpl in Heq. injection Heq as -> Hv Hl. simpl. rewrite (IH l' Hl).
  destruct (p k'); simpl; [|by rewrite Hv]. by rewrite (Hf v v' Hv).
Qed.

(** [MERGE] respects the skeleton. *)
Lemma skt_cy_merge_where sk p k c c' f f' l l' :
  skt sk l = skt sk l' → sk c = sk c' →
  (∀ v v', sk v = sk v' → sk (f v) = sk (f' v')) →
  skt sk (cy_merge_where p k c f l) = skt sk (cy_merge_where p k c' f' l').
Proof.
  intros Heq Hc Hf. unfold cy_merge_where.
  rewrite !existsb_keys, (skt_keys sk l l' Heq). destruct (existsb p (keys l')).
  - by apply skt_cy_set_where.
  - rewrite !skt_app, Heq. simpl. by rewrite Hc.
Qed.

(** A [MERGE] that finds its match and rewrites what is there is
    absorbed. *)
Lemma skt_cy_merge_where_absorbed sk p k c f l :
  holds p (λ v, sk (f v) = sk v) l →
  skt sk (cy_merge_where p k c f l) = skt sk l.
Proof.
  intros [Hex Hall]. unfold cy_merge_where.
  rewrite (proj2 (existsb_match p l)) by done. clear Hex.
  induction l as [|[k' v] l IH]; [done|]. simpl.
  rewrite IH by (intros k0 v0 Hin; apply Hall; by apply list_elem_of_further).
  destruct (p k') eqn:Hp; [|done]. simpl.
  by rewrite (Hall k' v (list_elem_of_here _ _) Hp).
Qed.

Lemma holds_skt sk p (P : V → Prop) l l' :
  (∀ v v', sk v = sk v' → P v → P v') →
  skt sk l = skt sk l' → holds p P l → holds p P l'.
Proof.
  intros HP Heq [Hex Hall]. split.
  - by rewrite <- (skt_keys sk l l' Heq).
  - intros k v' Hin Hp.
    assert (Hin' : (k, sk v') ∈ skt sk l).
    { rewrite Heq. unfold skt. apply list_elem_of_fmap. by exists (k, v'). }
    unfold skt in Hin'. apply list_elem_of_fmap in Hin' as ([k0 v] & [= -> Hv] & Hin0).
    apply (HP v v'); [done|]. by apply (Hall k0).
Qed.

(** A [MERGE] establishes its pattern. *)
Lemma holds_cy_merge_where p k c f (P : V → Prop) l :
  p k = true → P c → (∀ v, P (f v)) → holds p P (cy_merge_where p k c f l).
Proof.
  intros Hk Hc Hf. split.
  - rewrite keys_cy_merge_where. destruct (existsb _ l) eqn:Hex.
    + by apply existsb_match.
    + exists k. split; [|done]. apply elem_of_app. right. by apply list_elem_of_singleton.
  - intros k' v Hin Hp. apply elem_of_cy_merge_where in Hin.
    destruct (existsb _ l) eqn:Hex.
    + destruct Hin as (v0 & _ & ->). rewrite Hp. apply Hf.
    + destruct Hin as [Hin|[-> ->]]; [|done].
      exfalso. apply not_true_iff_false in Hex. apply Hex, existsb_match.
      exists k'. split; [|done]. apply elem_of_keys. by exists v.
Qed.

(** A [MERGE] on other keys leaves a pattern as it holds. *)
Lemma holds_cy_merge_where_other p p' k c f (P : V → Prop) l :
  (∀ k', p k' = true → p' k' = false) → p k = false →
  holds p P l → holds p P (cy_merge_where p' k c f l).
Proof.
  intros Hdis Hk [(k0 & Hin0 & Hp0) Hall]. split.
  - exists k0. split; [|done]. rewrite keys_cy_merge_where.
    destruct (existsb _ l); [done|]. apply elem_of_app. by left.
  - intros k' v Hin Hp. apply elem_of_cy_merge_where in Hin.
    destruct (existsb _ l).
    + destruct Hin as (v0 & Hin & ->). rewrite (Hdis k' Hp). by apply (Hall k').
    + destruct Hin as [Hin|[-> ->]]; [by apply (Hall k')|]. congruence.
Qed.

(** A [MERGE] whose [SET] keeps [P] leaves a key pattern as it holds,
    whatever its own key is. *)
Lemma holds_cy_merge_keeps k k' c f (P : V → Prop) l :
  (∀ v, P v → P (f v)) →
  holds (key_is k) P l → holds (key_is k) P (cy_merge k' c f l).
Proof.
  intros Hf Hh. destruct (decide (k' = k)) as [->|Hne].
  - destruct Hh as [Hex Hall]. split.
    + destruct Hex as (k0 & Hin0 & Hp0). exists k0. split; [|done].
      apply elem_of_keys_cy_merge. by right.
    + intros k' v Hin Hp. unfold cy_merge in Hin. apply elem_of_cy_merge_where in Hin.
      rewrite (proj2 (existsb_match (key_is k) l) Hex) in Hin.
      destruct Hin as (v0 & Hin & ->). rewrite Hp. apply Hf. by apply (Hall k').
  - apply holds_cy_merge_where_other; [|by apply bool_decide_eq_false|done].
    intros k0 Hk0. apply bool_decide_eq_true in Hk0 as ->. by apply bool_decide_eq_false.
Qed.

Lemma holds_key_is k (P : V → Prop) l :
  holds (key_is k) P l ↔ k ∈ keys l ∧ ∀ v, (k, v) ∈ l → P v.
Proof.
  unfold holds, key_is. split.
  - intros [(k0 & Hin & Hk) Hall]. apply bool_decide_eq_true in Hk as ->.
    split; [done|]. intros v Hv. apply (Hall k v Hv). by apply bool_decide_eq_true.
  - intros [Hin Hall]. split.
    + exists k. split; [done|]. by apply bool_decide_eq_true.
    + intros k0 v Hv Hk. apply bool_decide_eq_true in Hk as ->. by apply Hall.
Qed.

Lemma holds_key_in k (P : V → Prop) l : holds (key_is k) P l → k ∈ keys l.
Proof. rewrite holds_key_is. by intros [? _]. Qed.

(** A key that is there is a pattern that holds trivially. *)
Lemma holds_True k l : k ∈ keys l ↔ holds (key_is k) (λ _, True) l.
Proof. rewrite holds_key_is. split; [by intros ?|by intros [? _]]. Qed.

Lemma cy_merge_keeps_key k k' c f l : k ∈ keys l → k ∈ keys (cy_merge k' c f l).
Proof. intros Hin. apply elem_of_keys_cy_merge. by right. Qed.

Lemma cy_merge_has_key k c f l : k ∈ keys (cy_merge k c f l).
Proof. apply elem_of_keys_cy_merge. by left. Qed.

End tables.

(** * Bulk sync, statement by statement *)

Lemma foldl_belongs_row vid cats g :
  foldl (belongs_row vid) g cats =
  with_belongs_to (λ l, foldl (λ l c, merge_edge (vid, c) l) l cats)
    (with_category_nodes (λ l, foldl (λ l c, merge_bare c l) l cats) g).
Proof.
  revert g. induction cats as [|c cats IH]; intros g.
  - by destruct g.
  - cbn [foldl]. rewrite IH. by destruct g.
Qed.

Lemma foldl_bump_interest uid delta cats g :
  foldl (bump_interest uid delta) g cats =
  with_interested_in (λ l, foldl (interest_row (category_nodes g) uid delta) l cats) g.
Proof.
  revert g. induction cats as [|c cats IH]; intros g.
  - by destruct g.
  - cbn [foldl]. rewrite IH. unfold bump_interest, interest_row.
    destruct g; simpl. by destruct (has_key c _).
Qed.

(** Folded merges on one table. *)
Section folds.
Context {K V : Type} `{EqDecision K}.
Implicit Types (l : list (K * V)).

Lemma foldl_merge_keeps_key {X} (step : list (K * V) → X → list (K * V)) xs l k :
  (∀ l x, k ∈ keys l → k ∈ keys (step l x)) →
  k ∈ keys l → k ∈ keys (foldl step l xs).
Proof.
  intros Hstep. revert l. induction xs as [|x xs IH]; intros l Hin; [done|].
  cbn [foldl]. by apply IH, Hstep.
Qed.

Lemma foldl_preserves {X} (Inv : list (K * V) → Prop)
    (step : list (K * V) → X → list (K * V)) xs l :
  (∀ l x, Inv l → Inv (step l x)) → Inv l → Inv (foldl step l xs).
Proof.
  intros Hstep. revert l. induction xs as [|x xs IH]; intros l Hl; [done|].
  cbn [foldl]. by apply IH, Hstep.
Qed.

End folds.

Lemma interest_row_keeps_key {N} (cn : list (string * N)) uid delta l c k :
  k ∈ keys l → k ∈ keys (interest_row cn uid delta l c).
Proof.
  intros Hin. unfold interest_row. destruct (has_key c cn); [|done].
  by apply cy_merge_keeps_key.
Qed.

Lemma foldl_interest_row_key {N} (cn : list (string * N)) uid delta cats l c :
  c ∈ cats → c ∈ keys cn →
  (uid, c) ∈ keys (foldl (interest_row cn uid delta) l cats).
Proof.
  revert l. induction cats as [|c' cats IH]; intros l Hc Hk.
  - by apply elem_of_nil in Hc.
  - cbn [foldl]. apply elem_of_cons in Hc as [->|Hc]; [|by apply IH].
    apply foldl_merge_keeps_key; [intros; by apply interest_row_keeps_key|].
    unfold interest_row. rewrite (proj2 (has_key_true _ _) Hk). apply cy_merge_has_key.
Qed.

Lemma foldl_merge_bare_keeps {A} cats (l : list (string * Node A)) k (P : Node A → Prop) :
  holds (key_is k) P l → holds (key_is k) P (foldl (λ l c, merge_bare c l) l cats).
Proof.
  apply (foldl_preserves (holds (key_is k) P)). intros l' c Hl.
  by apply holds_cy_merge_keeps.
Qed.

Lemma foldl_merge_bare_key {A} cats (l : list (string * Node A)) c :
  c ∈ cats → c ∈ keys (foldl (λ l c, merge_bare c l) l cats).
Proof.
  revert l. induction cats as [|c' cats IH]; intros l Hc.
  - by apply elem_of_nil in Hc.
  - cbn [foldl]. apply elem_of_cons in Hc as [->|Hc]; [|by apply IH].
    apply foldl_merge_keeps_key; [intros; by apply cy_merge_keeps_key|].
    apply cy_merge_has_key.
Qed.

Lemma foldl_merge_edge_key vid cats (l : list ((string * string) * unit)) c :
  c ∈ cats → (vid, c) ∈ keys (foldl (λ l c, merge_edge (vid, c) l) l cats).
Proof.
  revert l. induction cats as [|c' cats IH]; intros l Hc.
  - by apply elem_of_nil in Hc.
  - cbn [foldl]. apply elem_of_cons in Hc as [->|Hc]; [|by apply IH].
    apply foldl_merge_keeps_key; [intros; by apply cy_merge_keeps_key|].
    apply cy_merge_has_key.
Qed.

(** ** What the merges of the sync statements establish and keep *)

Lemma has_attrs_merge_node {A} k (a : A) now l : has_attrs k a (merge_node k a now l).
Proof.
  apply holds_cy_merge_where; [by apply bool_decide_eq_true|done|done].
Qed.

Lemma has_attrs_merge_node_other {A} k (a : A) k' (a' : A) now l :
  k' ≠ k → has_attrs k a l → has_attrs k a (merge_node k' a' now l).
Proof.
  intros Hne. apply holds_cy_merge_where_other; [|by apply bool_decide_eq_false].
  intros k0 Hk0. apply bool_decide_eq_true in Hk0 as ->. by apply bool_decide_eq_false.
Qed.

Lemma has_attrs_merge_bare {A} k (a : A) c l :
  has_attrs k a l → has_attrs k a (merge_bare c l).
Proof. by apply holds_cy_merge_keeps. Qed.

Lemma has_props_merge_rel {P} k (p : P) l : has_props k p (merge_rel k p l).
Proof.
  apply holds_cy_merge_where; [by apply bool_decide_eq_true|done|done].
Qed.

Lemma has_props_merge_rel_other {P} k (p : P) k' (p' : P) l :
  k' ≠ k → has_props k p l → has_props k p (merge_rel k' p' l).
Proof.
  intros Hne. apply holds_cy_merge_where_other; [|by apply bool_decide_eq_false].
  intros k0 Hk0. apply bool_decide_eq_true in Hk0 as ->. by apply bool_decide_eq_false.
Qed.

Lemma similarity_rows_functional g a b q row :
  NoDup (keys (videos g)) →
  (a, b, q) ∈ similarity_rows g → row ∈ similarity_rows g →
  unordered row.1 = unordered (a, b) → row.2 = q.
Proof.
  intros Hnd Hin Hrow Heq.
  pose proof Hin as Hin'.
  apply elem_of_similarity_rows in Hin'
    as (na & nb & ca & cb & Ha & Hb & Hlt & Hca & Hcb & Hs & _).
  destruct (similarity_rows_pair g a b na nb ca cb row) as (_ & Hs' & _); try done.
  congruence.
Qed.

Lemma holds_exists {K V} (p : K → bool) (P : V → Prop) (l : list (K * V)) :
  holds p P l ↔
  (∃ k v, (k, v) ∈ l ∧ p k = true) ∧ ∀ k v, (k, v) ∈ l → p k = true → P v.
Proof.
  unfold holds. split; intros [Hex Hall]; (split; [|done]).
  - destruct Hex as (k & Hin & Hp). apply elem_of_keys in Hin as [v Hin]. by exists k, v.
  - destruct Hex as (k & v & Hin & Hp). exists k. split; [|done].
    apply elem_of_keys. by exists v.
Qed.

(** Every statement leaves the store synced with respect to itself. *)
Lemma run_statement_synced g st :
  NoDup (keys (videos g)) → synced (run_statement g st) st.
Proof.
  intros Hnd. destruct st as [pc|c|u|v|w|l|f|]; cbn [run_statement synced].
  - apply has_attrs_merge_node.
  - split; [apply has_attrs_merge_node|]. split; apply cy_merge_has_key.
  - apply has_attrs_merge_node.
  - unfold sync_video_to_neo4j. rewrite foldl_belongs_row. simpl.
    split; [apply has_attrs_merge_node|]. split; [apply cy_merge_has_key|].
    split; [apply cy_merge_has_key|].
    intros c Hc. split; [by apply foldl_merge_bare_key|by apply foldl_merge_edge_key].
  - unfold watch_statement.
    destruct (has_key _ (users g) && has_key _ (videos g)) eqn:Hcond.
    + rewrite foldl_bump_interest. simpl. intros _ _.
      split; [apply has_props_merge_rel|]. intros c Hc Hk.
      by apply foldl_interest_row_key.
    + simpl. intros Hu Hv. apply has_key_true in Hu, Hv. by rewrite Hu, Hv in Hcond.
  - unfold like_statement.
    destruct (has_key _ (users g) && has_key _ (videos g)) eqn:Hcond.
    + rewrite foldl_bump_interest. simpl. intros _ _.
      split; [apply has_props_merge_rel|]. intros c Hc Hk.
      by apply foldl_interest_row_key.
    + simpl. intros Hu Hv. apply has_key_true in Hu, Hv. by rewrite Hu, Hv in Hcond.
  - unfold sync_follow_to_neo4j.
    destruct (has_key _ (users g) && has_key _ (users g)) eqn:Hcond.
    + simpl. intros _ _. apply has_props_merge_rel.
    + simpl. intros Hu Hv. apply has_key_true in Hu, Hv. by rewrite Hu, Hv in Hcond.
  - intros a b q Hin.
    change (similarity_rows (compute_video_similarities g)) with (similarity_rows g) in Hin.
    rewrite similar_to_compute. apply holds_exists. split.
    + apply foldl_merge_similar_edge. right. by exists (a, b, q).
    + apply foldl_merge_similar_value.
      * intros row Hrow Heq. by eapply similarity_rows_functional.
      * left. by exists (a, b, q).
Qed.

(** ** What later statements keep *)

Lemma cy_merge_where_keeps_key {K V} (p : K → bool) k k' c f (l : list (K * V)) :
  k ∈ keys l → k ∈ keys (cy_merge_where p k' c f l).
Proof.
  intros Hin. rewrite keys_cy_merge_where. destruct (existsb _ l); [done|].
  apply elem_of_app. by left.
Qed.

(** The statements of watches, likes, follows and similarities write no
    node and no structural relationship. *)
Lemma late_statement_frame b g :
  (4 ≤ rank b)%nat →
  users (run_statement g b) = users g ∧ videos (run_statement g b) = videos g ∧
  category_nodes (run_statement g b) = category_nodes g ∧
  parent_nodes (run_statement g b) = parent_nodes g ∧
  created_by (run_statement g b) = created_by g ∧
  belongs_to (run_statement g b) = belongs_to g ∧
  parent_of (run_statement g b) = parent_of g.
Proof.
  intros Hr. destruct b as [pc|c|u|v|w|l|f|]; simpl in Hr; try lia;
    cbn [run_statement];
    unfold watch_statement, like_statement, sync_follow_to_neo4j;
    rewrite ?foldl_bump_interest; try destruct (has_key _ _ && has_key _ _); done.
Qed.

Lemma late_statement_stored_categories b g vid :
  (4 ≤ rank b)%nat → stored_categories vid (run_statement g b) = stored_categories vid g.
Proof.
  intros Hr. unfold stored_categories.
  by destruct (late_statement_frame b g Hr) as (_ & -> & _).
Qed.

(** No statement removes a key. *)
Lemma run_statement_keys b g :
  (∀ k, k ∈ keys (users g) → k ∈ keys (users (run_statement g b))) ∧
  (∀ k, k ∈ keys (videos g) → k ∈ keys (videos (run_statement g b))) ∧
  (∀ k, k ∈ keys (category_nodes g) → k ∈ keys (category_nodes (run_statement g b))) ∧
  (∀ k, k ∈ keys (parent_nodes g) → k ∈ keys (parent_nodes (run_statement g b))) ∧
  (∀ k, k ∈ keys (created_by g) → k ∈ keys (created_by (run_statement g b))) ∧
  (∀ k, k ∈ keys (belongs_to g) → k ∈ keys (belongs_to (run_statement g b))) ∧
  (∀ k, k ∈ keys (parent_of g) → k ∈ keys (parent_of (run_statement g b))) ∧
  (∀ k, k ∈ keys (interested_in g) → k ∈ keys (interested_in (run_statement g b))).
Proof.
  destruct b as [pc|c|u|v|w|l|f|]; cbn [run_statement];
    unfold watch_statement, like_statement, sync_follow_to_neo4j, sync_video_to_neo4j;
    rewrite ?foldl_bump_interest, ?foldl_belongs_row;
    try destruct (has_key _ _ && has_key _ _); simpl;
    repeat split; intros k Hk; try done;
    try (by apply cy_merge_keeps_key);
    try (apply foldl_merge_keeps_key; [intros; by apply cy_merge_keeps_key|done]);
    try (apply foldl_merge_keeps_key; [intros; by apply interest_row_keeps_key|done]).
Qed.

Lemma may_follow_key a b :
  may_follow a b → rank a = rank b → statement_key a ≠ statement_key b.
Proof. intros [?|[_ ?]] ?; [lia|done]. Qed.

Lemma may_follow_rank a b : may_follow a b → (rank a ≤ rank b)%nat.
Proof. intros [?|[? _]]; lia. Qed.

(** A statement that may follow keeps the store synced with respect to
    the earlier one. *)
Lemma run_statement_keeps a b g :
  may_follow a b → synced g a → synced (run_statement g b) a.
Proof.
  intros Hmf Hs. pose proof (may_follow_rank a b Hmf) as Hrank.
  pose proof (may_follow_key a b Hmf) as Hkey.
  destruct (run_statement_keys b g) as (Ku & Kv & Kc & Kp & Kcb & Kbt & Kpo & Kii).
  destruct a as [pc|c|u|v|w|l|f|]; cbn [synced] in *.
  - (* parent category *)
    destruct (decide (4 ≤ rank b)%nat) as [Hlate|Hearly].
    { destruct (late_statement_frame b g Hlate) as (Fu & Fv & Fc & Fp & Fcb & Fbt & Fpo).
      by rewrite Fp. }
    destruct b as [pc'|c'|u'|v'|w'|l'|f'|]; simpl in Hearly; try lia; cbn [run_statement].
    + apply has_attrs_merge_node_other; [|done]. intros Heq. apply Hkey; simpl; congruence.
    + simpl. by apply has_attrs_merge_bare.
    + done.
    + unfold sync_video_to_neo4j. rewrite foldl_belongs_row. done.
  - (* category *)
    destruct Hs as (Hattrs & Hpid & Hpo). split; [|split; [by apply Kp|by apply Kpo]].
    destruct (decide (4 ≤ rank b)%nat) as [Hlate|Hearly].
    { destruct (late_statement_frame b g Hlate) as (Fu & Fv & Fc & Fp & Fcb & Fbt & Fpo).
      by rewrite Fc. }
    destruct b as [pc'|c'|u'|v'|w'|l'|f'|]; simpl in Hearly, Hrank; try lia;
      cbn [run_statement].
    + apply has_attrs_merge_node_other; [|done]. intros Heq. apply Hkey; simpl; congruence.
    + done.
    + unfold sync_video_to_neo4j. rewrite foldl_belongs_row. simpl.
      by apply foldl_merge_bare_keeps.
  - (* user *)
    destruct (decide (4 ≤ rank b)%nat) as [Hlate|Hearly].
    { destruct (late_statement_frame b g Hlate) as (Fu & Fv & Fc & Fp & Fcb & Fbt & Fpo).
      by rewrite Fu. }
    destruct b as [pc'|c'|u'|v'|w'|l'|f'|]; simpl in Hearly, Hrank; try lia;
      cbn [run_statement].
    + apply has_attrs_merge_node_other; [|done]. intros Heq. apply Hkey; simpl; congruence.
    + unfold sync_video_to_neo4j. rewrite foldl_belongs_row. simpl.
      by apply has_attrs_merge_bare.
  - (* video *)
    destruct Hs as (Hattrs & Hcr & Hcb & Hcats).
    split; [|split; [by apply Ku|split; [by apply Kcb|]]].
    2:{ intros c Hc. destruct (Hcats c Hc). split; [by apply Kc|by apply Kbt]. }
    destruct (decide (4 ≤ rank b)%nat) as [Hlate|Hearly].
    { destruct (late_statement_frame b g Hlate) as (Fu & Fv & Fc & Fp & Fcb & Fbt & Fpo).
      by rewrite Fv. }
    destruct b as [pc'|c'|u'|v'|w'|l'|f'|]; simpl in Hearly, Hrank; try lia;
      cbn [run_statement].
    unfold sync_video_to_neo4j. rewrite foldl_belongs_row. simpl.
    apply has_attrs_merge_node_other; [|done]. intros Heq. apply Hkey; simpl; congruence.
  - (* watch *)
    assert (Hlate : (4 ≤ rank b)%nat) by (simpl in Hrank; lia).
    destruct (late_statement_frame b g Hlate) as (Fu & Fv & Fc & Fp & Fcb & Fbt & Fpo).
    rewrite Fu, Fv, Fc, late_statement_stored_categories by done.
    intros Hu Hv. destruct (Hs Hu Hv) as [Hprops Hint].
    split; [|intros c Hc Hk; by apply Kii, Hint].
    destruct b as [pc'|c'|u'|v'|w'|l'|f'|]; simpl in Hrank; try lia; cbn [run_statement];
      unfold watch_statement, like_statement, sync_follow_to_neo4j;
      rewrite ?foldl_bump_interest; try destruct (has_key _ _ && has_key _ _); try done.
    simpl. apply has_props_merge_rel_other; [|done]. intros Heq. apply Hkey; simpl; congruence.
  - (* like *)
    assert (Hlate : (4 ≤ rank b)%nat) by (simpl in Hrank; lia).
    destruct (late_statement_frame b g Hlate) as (Fu & Fv & Fc & Fp & Fcb & Fbt & Fpo).
    rewrite Fu, Fv, Fc, late_statement_stored_categories by done.
    intros Hu Hv. destruct (Hs Hu Hv) as [Hprops Hint].
    split; [|intros c Hc Hk; by apply Kii, Hint].
    destruct b as [pc'|c'|u'|v'|w'|l'|f'|]; simpl in Hrank; try lia; cbn [run_statement];
      unfold watch_statement, like_statement, sync_follow_to_neo4j;
      rewrite ?foldl_bump_interest; try destruct (has_key _ _ && has_key _ _); try done.
    simpl. apply has_props_merge_rel_other; [|done]. intros Heq. apply Hkey; simpl; congruence.
  - (* follow *)
    assert (Hlate : (4 ≤ rank b)%nat) by (simpl in Hrank; lia).
    destruct (late_statement_frame b g Hlate) as (Fu & Fv & Fc & Fp & Fcb & Fbt & Fpo).
    rewrite Fu. intros Hu Hv. specialize (Hs Hu Hv).
    destruct b as [pc'|c'|u'|v'|w'|l'|f'|]; simpl in Hrank; try lia; cbn [run_statement];
      unfold watch_statement, like_statement, sync_follow_to_neo4j;
      rewrite ?foldl_bump_interest; try destruct (has_key _ _ && has_key _ _); try done.
    simpl. apply has_props_merge_rel_other; [|done]. intros Heq. apply Hkey; simpl; congruence.
  - (* similarity: nothing may follow *)
    destruct b; simpl in Hrank; try lia. exfalso. by apply Hkey.
Qed.

(** ** Skeletons of graphs *)

Lemma skt_id {K V} (l : list (K * V)) : skt id l = l.
Proof.
  unfold skt. induction l as [|[k v] l IH]; [done|]. by rewrite fmap_cons, IH.
Qed.

Lemma holds_impl {K V} (p : K → bool) (P Q : V → Prop) (l : list (K * V)) :
  (∀ v, P v → Q v) → holds p P l → holds p Q l.
Proof. intros HPQ [Hex Hall]. split; [done|]. intros k v Hin Hp. by apply HPQ, (Hall k). Qed.

(** A [MERGE] that finds its match and writes what is there changes
    nothing. *)
Lemma cy_merge_where_unchanged {K V} (p : K → bool) k c f (l : list (K * V)) :
  holds p (λ v, f v = v) l → cy_merge_where p k c f l = l.
Proof.
  intros Hh. transitivity (skt id (cy_merge_where p k c f l)); [by rewrite skt_id|].
  rewrite skt_cy_merge_where_absorbed; [apply skt_id|done].
Qed.

Lemma merge_bare_unchanged {A} k (l : list (string * Node A)) :
  k ∈ keys l → merge_bare k l = l.
Proof.
  intros Hin. apply cy_merge_where_unchanged. apply holds_True in Hin.
  by eapply holds_impl; [|exact Hin].
Qed.

Lemma merge_edge_unchanged k (l : list ((string * string) * unit)) :
  k ∈ keys l → merge_edge k l = l.
Proof.
  intros Hin. apply cy_merge_where_unchanged. apply holds_True in Hin.
  by eapply holds_impl; [|exact Hin].
Qed.

Lemma merge_rel_unchanged {P} k (p : P) (l : list ((string * string) * P)) :
  has_props k p l → merge_rel k p l = l.
Proof.
  intros Hh. apply cy_merge_where_unchanged. eapply holds_impl; [|exact Hh].
  by intros v ->.
Qed.

Lemma merge_node_absorbed {A} k (a : A) now (l : list (string * Node A)) :
  has_attrs k a l → skt sk_node (merge_node k a now l) = skt sk_node l.
Proof.
  intros Hh. apply skt_cy_merge_where_absorbed. eapply holds_impl; [|exact Hh].
  intros [a' u e eu] Ha. simpl in Ha. subst a'. done.
Qed.

Lemma merge_node_resp {A} k (a : A) now now' (l l' : list (string * Node A)) :
  skt sk_node l = skt sk_node l' →
  skt sk_node (merge_node k a now l) = skt sk_node (merge_node k a now' l').
Proof.
  intros Heq. apply skt_cy_merge_where; [done|done|].
  intros [a1 u1 e1 eu1] [a2 u2 e2 eu2] [= _ -> ->]. done.
Qed.

Lemma merge_bare_resp {A} k (l l' : list (string * Node A)) :
  skt sk_node l = skt sk_node l' →
  skt sk_node (merge_bare k l) = skt sk_node (merge_bare k l').
Proof. intros Heq. by apply skt_cy_merge_where. Qed.

(** Folds of steps that are absorbed, or that respect the skeleton. *)
Lemma foldl_absorbed {K V X} (sk : V → V) (step : list (K * V) → X → list (K * V)) xs l :
  (∀ l' x, x ∈ xs → skt sk l' = skt sk l → skt sk (step l' x) = skt sk l') →
  skt sk (foldl step l xs) = skt sk l.
Proof.
  intros Hstep. assert (Hgen : ∀ l', skt sk l' = skt sk l →
                                     skt sk (foldl step l' xs) = skt sk l);
    [|by apply Hgen].
  induction xs as [|x xs IH]; intros l' Hl'; [done|]. cbn [foldl]. apply IH.
  - intros l'' y Hy. apply Hstep. by apply list_elem_of_further.
  - rewrite Hstep; [done|apply list_elem_of_here|done].
Qed.

Lemma foldl_resp {K V X} (sk : V → V) (step step' : list (K * V) → X → list (K * V)) xs l l' :
  (∀ l l' x, skt sk l = skt sk l' → skt sk (step l x) = skt sk (step' l' x)) →
  skt sk l = skt sk l' → skt sk (foldl step l xs) = skt sk (foldl step' l' xs).
Proof.
  intros Hstep. revert l l'. induction xs as [|x xs IH]; intros l l' Heq; [done|].
  cbn [foldl]. by apply IH, Hstep.
Qed.

Lemma skel_ext g g' :
  skt sk_node (users g) = skt sk_node (users g') →
  skt sk_node (videos g) = skt sk_node (videos g') →
  skt sk_node (category_nodes g) = skt sk_node (category_nodes g') →
  skt sk_node (parent_nodes g) = skt sk_node (parent_nodes g') →
  watches g = watches g' → likes g = likes g' → follows g = follows g' →
  created_by g = created_by g' → belongs_to g = belongs_to g' →
  parent_of g = parent_of g' →
  skt sk_interest (interested_in g) = skt sk_interest (interested_in g') →
  skt sk_similar (similar_to g) = skt sk_similar (similar_to g') →
  skel g = skel g'.
Proof. unfold skel. congruence. Qed.

Lemma skel_inv g g' :
  skel g = skel g' →
  skt sk_node (users g) = skt sk_node (users g') ∧
  skt sk_node (videos g) = skt sk_node (videos g') ∧
  skt sk_node (category_nodes g) = skt sk_node (category_nodes g') ∧
  skt sk_node (parent_nodes g) = skt sk_node (parent_nodes g') ∧
  watches g = watches g' ∧ likes g = likes g' ∧ follows g = follows g' ∧
  created_by g = created_by g' ∧ belongs_to g = belongs_to g' ∧
  parent_of g = parent_of g' ∧
  skt sk_interest (interested_in g) = skt sk_interest (interested_in g') ∧
  skt sk_similar (similar_to g) = skt sk_similar (similar_to g').
Proof.
  intros Heq.
  pose proof (f_equal users Heq). pose proof (f_equal videos Heq).
  pose proof (f_equal category_nodes Heq). pose proof (f_equal parent_nodes Heq).
  pose proof (f_equal watches Heq). pose proof (f_equal likes Heq).
  pose proof (f_equal follows Heq). pose proof (f_equal created_by Heq).
  pose proof (f_equal belongs_to Heq). pose proof (f_equal parent_of Heq).
  pose proof (f_equal interested_in Heq). pose proof (f_equal similar_to Heq).
  done.
Qed.

Lemma stored_categories_skt vid g g' :
  skt sk_node (videos g) = skt sk_node (videos g') →
  stored_categories vid g = stored_categories vid g'.
Proof.
  intros Heq. unfold stored_categories.
  assert (Hg : sk_node <$> cy_get vid (videos g) = sk_node <$> cy_get vid (videos g')).
  { by rewrite <- !cy_get_skt, Heq. }
  destruct (cy_get vid (videos g)) as [[a u e eu]|],
           (cy_get vid (videos g')) as [[a' u' e' eu']|]; try done.
  simpl in Hg. by injection Hg as ->.
Qed.

Lemma bind_skt {K V B} (sk : V → V) (f : K * V → list B) (l : list (K * V)) :
  (∀ x, f (prod_map id sk x) = f x) → skt sk l ≫= f = l ≫= f.
Proof.
  intros Hf. unfold skt. rewrite list_fmap_bind. apply list_bind_ext; [|done].
  intros x. apply Hf.
Qed.

(** The pairs of the similarity query only read ids and categories. *)
Lemma similarity_rows_skt g g' :
  skt sk_node (videos g) = skt sk_node (videos g') →
  similarity_rows g = similarity_rows g'.
Proof.
  intros Heq.
  assert (Hskt : ∀ h, similarity_rows h
    = (v1 ← skt sk_node (videos h); v2 ← skt sk_node (videos h);
       if String.ltb v1.1 v2.1 then
         match attrs v1.2, attrs v2.2 with
         | Some a1, Some a2 =>
             match cat_sim (categories a1) (categories a2) with
             | Some q => if above_threshold (Some q) then [(v1.1, v2.1, q)] else []
             | None => []
             end
         | _, _ => []
         end
       else [])).
  { intros h. unfold similarity_rows. symmetry. rewrite bind_skt.
    - apply list_bind_ext; [|done]. intros v1. apply bind_skt. by intros [b nb].
    - intros [a na]. apply list_bind_ext; [|done]. by intros [b nb]. }
  by rewrite (Hskt g), (Hskt g'), Heq.
Qed.

Lemma interest_row_resp {N} (cn cn' : list (string * Node N)) uid delta l l' c :
  skt sk_node cn = skt sk_node cn' →
  skt sk_interest l = skt sk_interest l' →
  skt sk_interest (interest_row cn uid delta l c)
  = skt sk_interest (interest_row cn' uid delta l' c).
Proof.
  intros Hcn Hl. unfold interest_row. rewrite (has_key_skt sk_node c cn cn' Hcn).
  destruct (has_key c cn'); [|done]. by apply skt_cy_merge_where.
Qed.

Lemma merge_similar_resp now now' l l' row :
  skt sk_similar l = skt sk_similar l' →
  skt sk_similar (merge_similar now l row) = skt sk_similar (merge_similar now' l' row).
Proof. intros Heq. unfold merge_similar. by apply skt_cy_merge_where. Qed.

Lemma stored_categories_with_watches vid f g :
  stored_categories vid (with_watches f g) = stored_categories vid g.
Proof. done. Qed.

Lemma stored_categories_with_likes vid f g :
  stored_categories vid (with_likes f g) = stored_categories vid g.
Proof. done. Qed.

(** Every statement respects the skeleton. *)
Lemma run_statement_resp st g g' :
  skel g = skel g' → skel (run_statement g st) = skel (run_statement g' st).
Proof.
  intros Heq. apply skel_inv in Heq
    as (Hu & Hv & Hc & Hp & Hw & Hl & Hf & Hcb & Hbt & Hpo & Hi & Hs).
  destruct st as [pc|c|u|v|w|l|f|]; cbn [run_statement].
  - apply skel_ext; simpl; try done. by apply merge_node_resp.
  - apply skel_ext; simpl; try done; [by apply merge_node_resp|by apply merge_bare_resp|].
    by rewrite Hpo.
  - apply skel_ext; simpl; try done. by apply merge_node_resp.
  - unfold sync_video_to_neo4j. rewrite !foldl_belongs_row.
    apply skel_ext; simpl; try done.
    + by apply merge_bare_resp.
    + by apply merge_node_resp.
    + apply foldl_resp; [|done]. intros; by apply merge_bare_resp.
    + by rewrite Hcb.
    + by rewrite Hbt.
  - unfold watch_statement.
    rewrite (has_key_skt sk_node _ _ _ Hu), (has_key_skt sk_node _ _ _ Hv).
    destruct (has_key _ (users g') && has_key _ (videos g')).
    + rewrite !foldl_bump_interest. apply skel_ext; simpl; try done; [by rewrite Hw|].
      rewrite !stored_categories_with_watches.
      rewrite (stored_categories_skt _ g g') by done.
      apply foldl_resp; [|done]. intros; by apply interest_row_resp.
    + by apply skel_ext.
  - unfold like_statement.
    rewrite (has_key_skt sk_node _ _ _ Hu), (has_key_skt sk_node _ _ _ Hv).
    destruct (has_key _ (users g') && has_key _ (videos g')).
    + rewrite !foldl_bump_interest. apply skel_ext; simpl; try done; [by rewrite Hl|].
      rewrite !stored_categories_with_likes.
      rewrite (stored_categories_skt _ g g') by done.
      apply foldl_resp; [|done]. intros; by apply interest_row_resp.
    + by apply skel_ext.
  - unfold sync_follow_to_neo4j. rewrite !(has_key_skt sk_node _ _ _ Hu).
    destruct (has_key _ (users g') && has_key _ (users g')).
    + apply skel_ext; simpl; try done. by rewrite Hf.
    + by apply skel_ext.
  - apply skel_ext; try done. rewrite !similar_to_compute.
    rewrite (similarity_rows_skt g g' Hv). apply foldl_resp; [|done].
    intros; by apply merge_similar_resp.
Qed.

(** ** A statement whose post-condition holds is absorbed *)

Lemma foldl_fixed {A X} (step : A → X → A) xs a :
  (∀ x, x ∈ xs → step a x = a) → foldl step a xs = a.
Proof.
  induction xs as [|x xs IH]; intros Hstep; [done|]. cbn [foldl].
  rewrite Hstep by apply list_elem_of_here. apply IH. intros y Hy.
  by apply Hstep, list_elem_of_further.
Qed.

Lemma has_key_elem `{EqDecision K} {V} (k : K) (l : list (K * V)) :
  has_key k l = true ↔ k ∈ keys l.
Proof.
  split; [apply has_key_true|]. intros Hin. destruct (has_key k l) eqn:Hk; [done|].
  by apply has_key_false in Hk.
Qed.

Lemma interest_rows_absorbed {N} (cn : list (string * Node N)) uid delta cats l :
  (∀ c, c ∈ cats → c ∈ keys cn → (uid, c) ∈ keys l) →
  skt sk_interest (foldl (interest_row cn uid delta) l cats) = skt sk_interest l.
Proof.
  intros Hkeys. apply foldl_absorbed. intros l' c Hc Hl'. unfold interest_row.
  destruct (has_key c cn) eqn:Hk; [|done]. apply has_key_elem in Hk.
  apply skt_cy_merge_where_absorbed.
  assert (Hin : (uid, c) ∈ keys l') by (rewrite (skt_keys _ _ _ Hl'); by apply Hkeys).
  apply holds_True in Hin. by eapply holds_impl; [|exact Hin].
Qed.

Lemma run_statement_absorbed g st : synced g st → skel (run_statement g st) = skel g.
Proof.
  destruct st as [pc|c|u|v|w|l|f|]; cbn [run_statement synced].
  - intros Hs. apply skel_ext; simpl; try done. by apply merge_node_absorbed.
  - intros (Hs & Hp & Hpo). apply skel_ext; simpl; try done.
    + by apply merge_node_absorbed.
    + by rewrite merge_bare_unchanged.
    + by rewrite merge_edge_unchanged.
  - intros Hs. apply skel_ext; simpl; try done. by apply merge_node_absorbed.
  - intros (Hs & Hu & Hcb & Hcats). unfold sync_video_to_neo4j.
    rewrite foldl_belongs_row. apply skel_ext; simpl; try done.
    + by rewrite merge_bare_unchanged.
    + by apply merge_node_absorbed.
    + rewrite foldl_fixed; [done|]. intros c Hc. apply merge_bare_unchanged.
      by apply Hcats.
    + by rewrite merge_edge_unchanged.
    + rewrite foldl_fixed; [done|]. intros c Hc. apply merge_edge_unchanged.
      by apply Hcats.
  - intros Hs. unfold watch_statement.
    destruct (has_key _ (users g) && has_key _ (videos g)) eqn:Hk; [|by apply skel_ext].
    apply andb_true_iff in Hk as [Hu Hv]. apply has_key_elem in Hu, Hv.
    destruct (Hs Hu Hv) as [Hrel Hint]. cbv zeta. rewrite foldl_bump_interest.
    apply skel_ext; simpl; try done; [by rewrite merge_rel_unchanged|].
    rewrite stored_categories_with_watches. by apply interest_rows_absorbed.
  - intros Hs. unfold like_statement.
    destruct (has_key _ (users g) && has_key _ (videos g)) eqn:Hk; [|by apply skel_ext].
    apply andb_true_iff in Hk as [Hu Hv]. apply has_key_elem in Hu, Hv.
    destruct (Hs Hu Hv) as [Hrel Hint]. cbv zeta. rewrite foldl_bump_interest.
    apply skel_ext; simpl; try done; [by rewrite merge_rel_unchanged|].
    rewrite stored_categories_with_likes. by apply interest_rows_absorbed.
  - intros Hs. unfold sync_follow_to_neo4j.
    destruct (has_key _ (users g) && has_key _ (users g)) eqn:Hk; [|by apply skel_ext].
    apply andb_true_iff in Hk as [Ha Hb]. apply has_key_elem in Ha, Hb.
    apply skel_ext; simpl; try done. by rewrite merge_rel_unchanged; [|apply Hs].
  - intros Hs. apply skel_ext; try done. rewrite similar_to_compute.
    apply foldl_absorbed. intros l' [[a b] q] Hrow Hl'. unfold merge_similar.
    apply skt_cy_merge_where_absorbed. cbn [fst snd].
    apply (holds_impl _ (λ p, similarity p = q)).
    { intros [s t] Hq. simpl in Hq. by subst s. }
    apply (holds_skt sk_similar _ _ (similar_to g)); [|done|by apply Hs].
    by intros [s1 t1] [s2 t2] [= ->].
Qed.

(** ** Uniqueness is kept *)

Lemma run_statement_unique_keys g st : unique_keys g → unique_keys (run_statement g st).
Proof.
  intros (Hu & Hv & Hc & Hp & Hw & Hl & Hf & Hcb & Hbt & Hpo & Hi & Hs).
  destruct st as [pc|c|u|v|w|l|f|]; cbn [run_statement];
    unfold watch_statement, like_statement, sync_follow_to_neo4j, sync_video_to_neo4j;
    rewrite ?foldl_bump_interest, ?foldl_belongs_row;
    try destruct (has_key _ _ && has_key _ _); simpl;
    repeat split; try done;
    try (by apply NoDup_keys_cy_merge);
    try (apply (foldl_preserves (λ l, NoDup (keys l)));
         [intros; by apply NoDup_keys_cy_merge|done]).
  - apply (foldl_preserves (λ l, NoDup (keys l)) (interest_row _ _ _)); [|exact Hi].
    intros l' c' Hl'. unfold interest_row. destruct (has_key _ _); [|done].
    by apply NoDup_keys_cy_merge.
  - apply (foldl_preserves (λ l, NoDup (keys l)) (interest_row _ _ _)); [|exact Hi].
    intros l' c' Hl'. unfold interest_row. destruct (has_key _ _); [|done].
    by apply NoDup_keys_cy_merge.
  - rewrite similar_to_compute. by apply foldl_merge_similar_one_edge.
Qed.

Lemma foldl_run_statement_unique_keys ops g :
  unique_keys g → unique_keys (foldl run_statement g ops).
Proof.
  revert g. induction ops as [|a ops IH]; intros g Hg; [done|].
  cbn [foldl]. by apply IH, run_statement_unique_keys.
Qed.

(** ** Runs of statements *)

Lemma foldl_run_statement_keeps a ops g :
  Forall (may_follow a) ops → synced g a → synced (foldl run_statement g ops) a.
Proof.
  revert g. induction ops as [|b ops IH]; intros g Hall Hs; [done|].
  apply Forall_cons in Hall as [Hb Hall]. cbn [foldl].
  by apply IH, run_statement_keeps.
Qed.

(** After a run in which every statement may follow the ones before it,
    the store is synced with respect to all of them. *)
Lemma foldl_run_statement_synced ops g :
  unique_keys g → ForallOrdPairs may_follow ops →
  ∀ st, st ∈ ops → synced (foldl run_statement g ops) st.
Proof.
  intros Hg Hord. revert g Hg.
  induction Hord as [|a ops Ha Hord IH]; intros g Hg st Hst.
  { by apply elem_of_nil in Hst. }
  cbn [foldl]. apply elem_of_cons in Hst as [->|Hst].
  - apply foldl_run_statement_keeps; [exact Ha|].
    apply run_statement_synced. by destruct Hg as (_ & ? & _).
  - apply IH; [by apply run_statement_unique_keys|done].
Qed.

(** A run over a store that is synced with respect to every statement of
    the run leaves the skeleton as it is. *)
Lemma foldl_run_statement_absorbed ops g g' :
  skel g' = skel g → (∀ st, st ∈ ops → synced g st) →
  skel (foldl run_statement g' ops) = skel g.
Proof.
  revert g'. induction ops as [|a ops IH]; intros g' Heq Hs; [done|].
  cbn [foldl]. apply IH.
  - rewrite (run_statement_resp a g' g Heq). apply run_statement_absorbed, Hs.
    apply list_elem_of_here.
  - intros st Hst. by apply Hs, list_elem_of_further.
Qed.

(** ** The bulk sync as a run of statements *)

Lemma neo4j_foldl {X} (step : Stores → X → Stores) (gstep : Graph → X → Graph) xs s :
  (∀ s x, neo4j (step s x) = gstep (neo4j s) x) →
  neo4j (foldl step s xs) = foldl gstep (neo4j s) xs.
Proof.
  intros Hstep. revert s. induction xs as [|x xs IH]; intros s; [done|].
  cbn [foldl]. by rewrite IH, Hstep.
Qed.

Lemma bulk_sync_statements s :
  neo4j (bulk_sync_all_data_to_neo4j s)
  = foldl run_statement (neo4j s) (bulk_statements (django s)).
Proof.
  unfold bulk_sync_all_data_to_neo4j, bulk_statements, sync_categories_to_neo4j.
  cbv zeta. rewrite !foldl_app, !foldl_fmap. cbn [foldl run_statement on_graph neo4j].
  f_equal.
  rewrite (neo4j_foldl _ (λ g f, sync_follow_to_neo4j f g)) by done. f_equal.
  rewrite (neo4j_foldl _ (λ g l, like_statement (user_id (like_user l))
    (video_id (like_video l)) (like_timestamp l) g)) by done. f_equal.
  rewrite (neo4j_foldl _ (λ g w, watch_statement (user_id (watch_user w))
    (video_id (watch_video w)) (watch_time w) (watch_timestamp w) g)) by done. f_equal.
  rewrite (neo4j_foldl _ (λ g v, sync_video_to_neo4j v g)) by done. f_equal.
  by rewrite (neo4j_foldl _ (λ g u, sync_user_to_neo4j u g)).
Qed.

Lemma foldl_stores_inv {X} (Inv : Stores → Prop) (step : Stores → X → Stores) xs s :
  (∀ s x, Inv s → Inv (step s x)) → Inv s → Inv (foldl step s xs).
Proof.
  intros Hstep. revert s. induction xs as [|x xs IH]; intros s Hs; [done|].
  cbn [foldl]. by apply IH, Hstep.
Qed.

Lemma bulk_statements_bump_aggregate uid delta cs db :
  bulk_statements (foldl (bump_aggregate uid delta) db cs) = bulk_statements db.
Proof.
  revert db. induction cs as [|c cs IH]; intros db; [done|]. cbn [foldl]. by rewrite IH.
Qed.

Lemma wf_django_bump_aggregate uid delta cs db :
  wf_django (foldl (bump_aggregate uid delta) db cs) ↔ wf_django db.
Proof.
  revert db. induction cs as [|c cs IH]; intros db; [done|]. cbn [foldl]. by rewrite IH.
Qed.

(** The bulk sync reads the relational rows and writes only the interest
    aggregates there. *)
Lemma bulk_sync_rows s :
  bulk_statements (django (bulk_sync_all_data_to_neo4j s)) = bulk_statements (django s) ∧
  (wf_django (django (bulk_sync_all_data_to_neo4j s)) ↔ wf_django (django s)).
Proof.
  unfold bulk_sync_all_data_to_neo4j. cbv zeta. cbn [on_graph django].
  set (Inv := λ s' : Stores, bulk_statements (django s') = bulk_statements (django s) ∧
                             (wf_django (django s') ↔ wf_django (django s))).
  change (Inv (foldl (λ s0 follow, on_graph (sync_follow_to_neo4j follow) s0)
    (foldl (λ s0 like, sync_like_to_neo4j like s0)
      (foldl (λ s0 watch, sync_watch_to_neo4j watch s0)
        (foldl (λ s0 video, on_graph (sync_video_to_neo4j video) s0)
          (foldl (λ s0 user, on_graph (sync_user_to_neo4j user) s0)
            (on_graph (sync_categories_to_neo4j (django s)) s) (User_objects (django s)))
          (Video_objects (django s))) (take 10000 (Watch_objects (django s))))
      (Like_objects (django s))) (Follow_objects (django s)))).
  apply foldl_stores_inv; [by intros s' f Hs'|].
  apply foldl_stores_inv.
  { intros s' l [Hs1 Hs2]. unfold Inv, sync_like_to_neo4j. cbn [django].
    by rewrite bulk_statements_bump_aggregate, wf_django_bump_aggregate. }
  apply foldl_stores_inv.
  { intros s' w [Hs1 Hs2]. unfold Inv, sync_watch_to_neo4j. cbn [django].
    by rewrite bulk_statements_bump_aggregate, wf_django_bump_aggregate. }
  apply foldl_stores_inv; [by intros s' f Hs'|].
  apply foldl_stores_inv; [by intros s' f Hs'|]. done.
Qed.

(** ** The order of the statements of a bulk sync *)

Lemma block_ordered {X} (mk : X → statement) (key : X → string * string) r xs :
  (∀ x, rank (mk x) = r) → (∀ x, statement_key (mk x) = key x) →
  NoDup (key <$> xs) → ForallOrdPairs may_follow (mk <$> xs).
Proof.
  intros Hr Hk. induction xs as [|x xs IH]; intros Hnd; [constructor|].
  rewrite fmap_cons in Hnd. apply NoDup_cons in Hnd as [Hx Hnd].
  rewrite fmap_cons. constructor; [|by apply IH].
  apply Forall_forall. intros b Hb. apply list_elem_of_fmap in Hb as [y [-> Hy]]. right. rewrite !Hr, !Hk. split; [done|]. intros Heq.
  apply Hx. rewrite Heq. apply list_elem_of_fmap. by exists y.
Qed.

Lemma node_block_ordered {X} (mk : X → statement) (id_of : X → string) r xs :
  (∀ x, rank (mk x) = r) → (∀ x, statement_key (mk x) = (id_of x, "")) →
  NoDup (id_of <$> xs) → ForallOrdPairs may_follow (mk <$> xs).
Proof.
  intros Hr Hk Hnd. apply (block_ordered mk (λ x, (id_of x, "")) r); [done|done|].
  rewrite (list_fmap_compose id_of (λ i, (i, ""))).
  apply NoDup_fmap_2; [|done]. by intros i j [= ->].
Qed.

Lemma ordered_app l1 l2 r :
  ForallOrdPairs may_follow l1 → ForallOrdPairs may_follow l2 →
  Forall (λ a, rank a ≤ r)%nat l1 → Forall (λ b, r < rank b)%nat l2 →
  ForallOrdPairs may_follow (l1 ++ l2).
Proof.
  intros H1 H2 Hr1 Hr2. induction H1 as [|a l1 Ha H1 IH]; [done|].
  apply Forall_cons in Hr1 as [Hra Hr1]. simpl. constructor; [|by apply IH].
  apply Forall_app. split; [done|]. apply Forall_forall.
  intros b Hb. left. rewrite Forall_forall in Hr2. specialize (Hr2 b Hb). simpl in Hr2. lia.
Qed.

Lemma bulk_statements_ordered db :
  wf_django db → ForallOrdPairs may_follow (bulk_statements db).
Proof.
  intros (Hp & Hc & Hu & Hv & Hw & Hl & Hf). unfold bulk_statements.
  apply (ordered_app _ _ 0);
    [by apply (node_block_ordered SParent parent_category_id 0%nat)| |
     apply Forall_fmap, Forall_true; intros; simpl; lia|
     rewrite ?Forall_app, ?Forall_fmap, ?Forall_singleton; repeat split;
       try apply Forall_true; intros; simpl; lia].
  apply (ordered_app _ _ 1);
    [by apply (node_block_ordered SCategory category_id 1%nat)| |
     apply Forall_fmap, Forall_true; intros; simpl; lia|
     rewrite ?Forall_app, ?Forall_fmap, ?Forall_singleton; repeat split;
       try apply Forall_true; intros; simpl; lia].
  apply (ordered_app _ _ 2);
    [by apply (node_block_ordered SUser user_id 2%nat)| |
     apply Forall_fmap, Forall_true; intros; simpl; lia|
     rewrite ?Forall_app, ?Forall_fmap, ?Forall_singleton; repeat split;
       try apply Forall_true; intros; simpl; lia].
  apply (ordered_app _ _ 3);
    [by apply (node_block_ordered SVideo video_id 3%nat)| |
     apply Forall_fmap, Forall_true; intros; simpl; lia|
     rewrite ?Forall_app, ?Forall_fmap, ?Forall_singleton; repeat split;
       try apply Forall_true; intros; simpl; lia].
  apply (ordered_app _ _ 4);
    [| |apply Forall_fmap, Forall_true; intros; simpl; lia|
     rewrite ?Forall_app, ?Forall_fmap, ?Forall_singleton; repeat split;
       try apply Forall_true; intros; simpl; lia].
  { apply (block_ordered SWatch
             (λ w, (user_id (watch_user w), video_id (watch_video w))) 4%nat); [done|done|].
    rewrite fmap_take. eapply sublist_NoDup; [exact Hw|apply sublist_take]. }
  apply (ordered_app _ _ 5);
    [by apply (block_ordered SLike
                 (λ l, (user_id (like_user l), video_id (like_video l))) 5%nat)| |
     apply Forall_fmap, Forall_true; intros; simpl; lia|
     rewrite ?Forall_app, ?Forall_fmap, ?Forall_singleton; repeat split;
       try apply Forall_true; intros; simpl; lia].
  apply (ordered_app _ _ 6);
    [by apply (block_ordered SFollow
                 (λ f, (user_id (follower f), user_id (followee f))) 6%nat)| |
     apply Forall_fmap, Forall_true; intros; simpl; lia|
     rewrite ?Forall_singleton; simpl; lia].
  repeat constructor.
Qed.

(** ** Running the bulk sync twice *)

(** C5 (as amended). A second
    bulk sync over unchanged relational rows leaves the graph as
    the first one left it, up to what [skel] erases: the [updated_at]
    stamps of nodes and similarity relationships, the store's clock, and
    the score and count of the [InterestedIn] relationships. No table
    gains a second entry for a key. *)
Theorem bulk_sync_all_data_to_neo4j_twice s :
  wf_django (django s) → unique_keys (neo4j s) →
  skel (neo4j (bulk_sync_all_data_to_neo4j (bulk_sync_all_data_to_neo4j s)))
  = skel (neo4j (bulk_sync_all_data_to_neo4j s)) ∧
  unique_keys (neo4j (bulk_sync_all_data_to_neo4j s)) ∧
  unique_keys (neo4j (bulk_sync_all_data_to_neo4j (bulk_sync_all_data_to_neo4j s))).
Proof.
  intros Hwf Hg. destruct (bulk_sync_rows s) as [Hrows _].
  rewrite (bulk_sync_statements (bulk_sync_all_data_to_neo4j s)), Hrows.
  rewrite (bulk_sync_statements s).
  set (ops := bulk_statements (django s)).
  assert (Hg1 : unique_keys (foldl run_statement (neo4j s) ops))
    by by apply foldl_run_statement_unique_keys.
  split; [|split; [done|by apply foldl_run_statement_unique_keys]].
  apply foldl_run_statement_absorbed; [done|].
  apply foldl_run_statement_synced; [done|]. by apply bulk_statements_ordered.
Qed.

Lemma bulk_sync_all_data_to_neo4j_twice_witness :
  skel (neo4j (bulk_sync_all_data_to_neo4j (bulk_sync_all_data_to_neo4j catalogue_stores)))
  = skel (neo4j (bulk_sync_all_data_to_neo4j catalogue_stores)) ∧
  interest_count_of (neo4j (bulk_sync_all_data_to_neo4j catalogue_stores)) "u1" "c" = 2 ∧
  interest_count_of
    (neo4j (bulk_sync_all_data_to_neo4j (bulk_sync_all_data_to_neo4j catalogue_stores)))
    "u1" "c" = 4.
Proof.
  split; [|split; reflexivity].
  apply (bulk_sync_all_data_to_neo4j_twice catalogue_stores).
  - repeat split; compute_done.
  - repeat split; apply NoDup_nil_2.
Defined.

(** The claim as stated fails: the rows the sync reads are the same, yet
    the second run adds the watch (3.0) and the like (2.0) of u1 to the
    [InterestedIn] relationship of (u1, c) again. *)
Lemma bulk_sync_twice_adds_interest :
  Watch_objects (django (bulk_sync_all_data_to_neo4j catalogue_stores))
  = Watch_objects (django catalogue_stores) ∧
  Like_objects (django (bulk_sync_all_data_to_neo4j catalogue_stores))
  = Like_objects (django catalogue_stores) ∧
  interest_count_of (neo4j (bulk_sync_all_data_to_neo4j catalogue_stores)) "u1" "c" = 2 ∧
  interest_count_of
    (neo4j (bulk_sync_all_data_to_neo4j (bulk_sync_all_data_to_neo4j catalogue_stores)))
    "u1" "c" = 4 ∧
  (interest_score_of (neo4j (bulk_sync_all_data_to_neo4j catalogue_stores)) "u1" "c" == 5)%Q ∧
  (interest_score_of
     (neo4j (bulk_sync_all_data_to_neo4j (bulk_sync_all_data_to_neo4j catalogue_stores)))
     "u1" "c" == 10)%Q.
Proof. repeat split; by vm_compute. Qed.

(** * Nothing is deleted by a sync *)

Lemma grows_refl g : grows g g.
Proof. by repeat split. Qed.

Lemma grows_trans g1 g2 g3 : grows g1 g2 → grows g2 g3 → grows g1 g3.
Proof.
  intros (A1 & A2 & A3 & A4 & A5 & A6 & A7 & A8 & A9 & A10 & A11 & A12)
         (B1 & B2 & B3 & B4 & B5 & B6 & B7 & B8 & B9 & B10 & B11 & B12).
  repeat split; by etrans.
Qed.

Lemma run_statement_grows g st : grows g (run_statement g st).
Proof.
  destruct st as [pc|c|u|v|w|l|f|]; cbn [run_statement];
    unfold watch_statement, like_statement, sync_follow_to_neo4j, sync_video_to_neo4j;
    rewrite ?foldl_bump_interest, ?foldl_belongs_row;
    try destruct (has_key _ _ && has_key _ _); simpl;
    repeat split; intros k Hk; try done;
    try (by apply cy_merge_keeps_key);
    try (apply foldl_merge_keeps_key; [intros; by apply cy_merge_keeps_key|done]);
    try (apply foldl_merge_keeps_key; [intros; by apply interest_row_keeps_key|done]).
  rewrite similar_to_compute. apply foldl_merge_keeps_key; [|done].
  intros l' row Hin. by apply cy_merge_where_keeps_key.
Qed.

Lemma foldl_run_statement_grows ops g : grows g (foldl run_statement g ops).
Proof.
  revert g. induction ops as [|a ops IH]; intros g; [apply grows_refl|].
  cbn [foldl]. eapply grows_trans; [apply run_statement_grows|apply IH].
Qed.

(** X3. No sync operation deletes anything from the graph
    store: every node id and every relationship (by its pair of
    endpoints) that is there before a call of [sync_categories_to_neo4j],
    [sync_user_to_neo4j], [sync_video_to_neo4j], [sync_watch_to_neo4j],
    [sync_like_to_neo4j], [sync_follow_to_neo4j],
    [compute_video_similarities] or the whole
    [bulk_sync_all_data_to_neo4j] is there after it. A category dropped
    from a video, or a pair of videos whose similarity fell under the
    threshold, therefore keeps its relationship. *)
Theorem sync_never_deletes :
  (∀ db g, grows g (sync_categories_to_neo4j db g)) ∧
  (∀ u g, grows g (sync_user_to_neo4j u g)) ∧
  (∀ v g, grows g (sync_video_to_neo4j v g)) ∧
  (∀ w s, grows (neo4j s) (neo4j (sync_watch_to_neo4j w s))) ∧
  (∀ l s, grows (neo4j s) (neo4j (sync_like_to_neo4j l s))) ∧
  (∀ f g, grows g (sync_follow_to_neo4j f g)) ∧
  (∀ g, grows g (compute_video_similarities g)) ∧
  (∀ s, grows (neo4j s) (neo4j (bulk_sync_all_data_to_neo4j s))).
Proof.
  repeat apply conj.
  - intros db g. unfold sync_categories_to_neo4j.
    change (grows g (foldl (λ g c, run_statement g (SCategory c))
      (foldl (λ g pc, run_statement g (SParent pc)) g (ParentCategory_objects db))
      (Category_objects db))).
    rewrite <- (foldl_fmap run_statement _ _ SCategory),
      <- (foldl_fmap run_statement _ _ SParent), <- foldl_app. apply foldl_run_statement_grows.
  - intros u g. apply (run_statement_grows g (SUser u)).
  - intros v g. apply (run_statement_grows g (SVideo v)).
  - intros w s. apply (run_statement_grows (neo4j s) (SWatch w)).
  - intros l s. apply (run_statement_grows (neo4j s) (SLike l)).
  - intros f g. apply (run_statement_grows g (SFollow f)).
  - intros g. apply (run_statement_grows g SSimilar).
  - intros s. rewrite bulk_sync_statements. apply foldl_run_statement_grows.
Qed.

(** * The two interest aggregates *)

Lemma bump_interest_score_eq u' d g c' u c :
  (interest_score_of (bump_interest u' d g c') u c ==
   interest_score_of g u c +
   (if decide (u = u' ∧ c = c' ∧ c' ∈ keys (category_nodes g)) then d else 0))%Q.
Proof.
  unfold bump_interest, interest_score_of.
  destruct (has_key c' (category_nodes g)) eqn:Hk.
  - apply has_key_true in Hk. simpl. rewrite cy_get_cy_merge.
    destruct (decide ((u, c) = (u', c'))) as [Heq|Hne]; [injection Heq as -> ->|].
    + rewrite decide_True by done. destruct (cy_get _ _); simpl; lra.
    + rewrite decide_False by (intros (-> & -> & _); done). lra.
  - apply has_key_false in Hk. rewrite decide_False by (intros (_ & _ & ?); done). lra.
Qed.

(** The rows of the [UNWIND] of one statement, all categories being nodes
    of the store. *)
Lemma foldl_bump_interest_occurrences u' d cats g u c :
  (∀ x, x ∈ cats → x ∈ keys (category_nodes g)) →
  interest_count_of (foldl (bump_interest u' d) g cats) u c
  = interest_count_of g u c + (if decide (u = u') then occurrences c cats else 0) ∧
  (interest_score_of (foldl (bump_interest u' d) g cats) u c ==
   interest_score_of g u c +
   (if decide (u = u') then inject_Z (occurrences c cats) * d else 0))%Q.
Proof.
  revert g. induction cats as [|c' cats IH]; intros g Hin; cbn [foldl].
  - rewrite occurrences_nil. destruct (decide (u = u')); split; simpl; try lia;
      unfold inject_Z; lra.
  - assert (Hc' : c' ∈ keys (category_nodes g)) by apply Hin, list_elem_of_here.
    destruct (IH (bump_interest u' d g c')) as [IHc IHs].
    { intros x Hx. destruct (bump_interest_nodes u' d g c') as (_ & _ & ->).
      by apply Hin, list_elem_of_further. }
    rewrite IHc, IHs, bump_interest_count, bump_interest_score_eq, occurrences_cons.
    destruct (decide (u = u')) as [->|Hu].
    + destruct (decide (c' = c)) as [->|Hc].
      * rewrite !decide_True by done. split; [lia|].
        rewrite inject_Z_plus. change (inject_Z 1) with 1%Q. lra.
      * rewrite !decide_False by (intros (_ & ? & _); congruence). split; [lia|].
        rewrite Z.add_0_l. lra.
    + rewrite !decide_False by (intros (? & _); done). split; [lia|lra].
Qed.

Lemma bump_aggregate_count u' d db c' u c :
  aggregate_count_of (bump_aggregate u' d db c') u c
  = aggregate_count_of db u c + (if decide (u = u' ∧ c = category_id c') then 1 else 0) ∧
  (aggregate_score_of (bump_aggregate u' d db c') u c ==
   aggregate_score_of db u c + (if decide (u = u' ∧ c = category_id c') then d else 0))%Q.
Proof.
  unfold bump_aggregate, aggregate_count_of, aggregate_score_of.
  cbn [with_interests UserCategoryInterest_objects]. rewrite cy_get_cy_merge.
  destruct (decide ((u, c) = (u', category_id c'))) as [Heq|Hne];
    [injection Heq as -> ->|].
  - rewrite !decide_True by done.
    destruct (cy_get _ _); cbn [interest_score interaction_count]; split; try lia; lra.
  - rewrite !decide_False by (intros (-> & ->); done). split; [lia|lra].
Qed.

(** The loop over [video.categories.all()]. *)
Lemma foldl_bump_aggregate_occurrences u' d cats db u c :
  aggregate_count_of (foldl (bump_aggregate u' d) db cats) u c
  = aggregate_count_of db u c +
    (if decide (u = u') then occurrences c (category_id <$> cats) else 0) ∧
  (aggregate_score_of (foldl (bump_aggregate u' d) db cats) u c ==
   aggregate_score_of db u c +
   (if decide (u = u') then inject_Z (occurrences c (category_id <$> cats)) * d else 0))%Q.
Proof.
  revert db. induction cats as [|c' cats IH]; intros db; cbn [foldl].
  - rewrite fmap_nil, occurrences_nil.
    destruct (decide (u = u')); split; simpl; try lia; unfold inject_Z; lra.
  - destruct (IH (bump_aggregate u' d db c')) as [IHc IHs].
    destruct (bump_aggregate_count u' d db c' u c) as [Hc Hs].
    rewrite IHc, IHs, Hc, Hs, fmap_cons, occurrences_cons.
    destruct (decide (u = u')) as [->|Hu].
    + destruct (decide (category_id c' = c)) as [<-|Hc'].
      * rewrite !decide_True by done. split; [lia|].
        rewrite inject_Z_plus. change (inject_Z 1) with 1%Q. lra.
      * rewrite !decide_False by (intros (_ & ?); congruence). split; [lia|].
        rewrite Z.add_0_l. lra.
    + rewrite !decide_False by (intros (? & _); done). split; [lia|lra].
Qed.

(** What one watch or like adds to the two aggregates when the graph is
    in step with the relational row of the video. *)
Lemma sync_interaction_moves i s u c :
  interaction_user i ∈ keys (users (neo4j s)) →
  interaction_video i ∈ keys (videos (neo4j s)) →
  stored_categories (interaction_video i) (neo4j s) = interaction_categories i →
  (∀ x, x ∈ interaction_categories i → x ∈ keys (category_nodes (neo4j s))) →
  let s' := sync_interaction i s in
  let k := if decide (u = interaction_user i)
           then occurrences c (interaction_categories i) else 0 in
  interest_count_of (neo4j s') u c = interest_count_of (neo4j s) u c + k ∧
  aggregate_count_of (django s') u c = aggregate_count_of (django s) u c + k ∧
  (interest_score_of (neo4j s') u c
   == interest_score_of (neo4j s) u c + inject_Z k * interaction_weight i)%Q ∧
  (aggregate_score_of (django s') u c
   == aggregate_score_of (django s) u c + inject_Z k * interaction_weight i)%Q.
Proof.
  intros Hu Hv Hcats Hnodes s' k. subst s' k.
  destruct (sync_interaction_stores i s) as [-> ->].
  apply has_key_elem in Hu, Hv. rewrite Hu, Hv. cbn [andb]. rewrite Hcats.
  assert (Hg : ∀ g, interest_count_of (tick g) u c = interest_count_of g u c ∧
                    interest_score_of (tick g) u c = interest_score_of g u c) by done.
  destruct (Hg (foldl (bump_interest (interaction_user i) (interaction_weight i))
    (match i with
     | Watched w =>
         with_watches (merge_rel (interaction_user i, interaction_video i)
           {| rel_watch_time := watch_time w; rel_timestamp := watch_timestamp w |})
           (neo4j s)
     | Liked l =>
         with_likes (merge_rel (interaction_user i, interaction_video i)
           (like_timestamp l)) (neo4j s)
     end) (interaction_categories i))) as [-> ->]. clear Hg.
  set (g1 := match i with Watched _ => _ | Liked _ => _ end).
  assert (Hg1 : category_nodes g1 = category_nodes (neo4j s) ∧
                interested_in g1 = interested_in (neo4j s)) by by destruct i.
  destruct Hg1 as [Hcn Hii].
  destruct (foldl_bump_interest_occurrences (interaction_user i) (interaction_weight i)
              (interaction_categories i) g1 u c) as [Hc Hs].
  { intros x Hx. rewrite Hcn. by apply Hnodes. }
  assert (Hd : ∃ cats, interaction_categories i = category_id <$> cats ∧
    (match i with
     | Watched w => video_categories (watch_video w)
     | Liked l => video_categories (like_video l)
     end) = cats) by (destruct i; by eexists).
  destruct Hd as (cats & Hic & ->).
  destruct (foldl_bump_aggregate_occurrences (interaction_user i) (interaction_weight i)
              cats (django s) u c) as [Hc' Hs'].
  rewrite Hc, Hs, Hc', Hs', <- Hic.
  unfold interest_count_of, interest_score_of. rewrite Hii.
  destruct (decide (u = interaction_user i)); repeat split; try lra;
    change (inject_Z 0) with 0%Q; lra.
Qed.

(** X4. [sync_watch_to_neo4j] and
    [sync_like_to_neo4j] move the graph's [InterestedIn] relationship and the
    relational [UserCategoryInterest] row by the same amounts whenever the
    graph is in step with the relational row of the video: the user and
    video nodes exist, the video node stores the categories of the row,
    and every one of them has a category node. For the user of the
    interaction each count grows by the number of times the category
    occurs in the list and each score by that many times the weight (the
    watch time, or 2.0 for a like); for every other user nothing
    moves. *)
Theorem sync_interaction_aggregates_agree i s u c :
  interaction_user i ∈ keys (users (neo4j s)) →
  interaction_video i ∈ keys (videos (neo4j s)) →
  stored_categories (interaction_video i) (neo4j s) = interaction_categories i →
  (∀ x, x ∈ interaction_categories i → x ∈ keys (category_nodes (neo4j s))) →
  let s' := sync_interaction i s in
  let k := if decide (u = interaction_user i)
           then occurrences c (interaction_categories i) else 0 in
  interest_count_of (neo4j s') u c = interest_count_of (neo4j s) u c + k ∧
  aggregate_count_of (django s') u c = aggregate_count_of (django s) u c + k ∧
  (interest_score_of (neo4j s') u c
   == interest_score_of (neo4j s) u c + inject_Z k * interaction_weight i)%Q ∧
  (aggregate_score_of (django s') u c
   == aggregate_score_of (django s) u c + inject_Z k * interaction_weight i)%Q.
Proof. apply sync_interaction_moves. Qed.

Lemma sync_interaction_aggregates_agree_witness :
  interest_count_of (neo4j (sync_interaction (Watched (watch_of video_1 3)) viewer_stores))
    "u1" "c" = 1 ∧
  aggregate_count_of (django (sync_interaction (Watched (watch_of video_1 3)) viewer_stores))
    "u1" "c" = 1.
Proof.
  destruct (sync_interaction_aggregates_agree (Watched (watch_of video_1 3)) viewer_stores
              "u1" "c") as (H1 & H2 & _).
  - compute_done.
  - compute_done.
  - reflexivity.
  - intros x Hx. apply list_elem_of_singleton in Hx as ->. compute_done.
  - split; [exact H1|exact H2].
Defined.

(** X5. When the graph has no node for the user
    or for the video of a watch or a like, the Cypher statement matches
    nothing and the graph keeps every node and relationship (only the
    store's clock moves), but the loop over the relational categories
    runs all the same: the [UserCategoryInterest] row of the user and each
    category of the video still gains its count and its weight. The two
    aggregates then differ. *)
Theorem sync_interaction_unmatched i s c :
  interaction_user i ∉ keys (users (neo4j s)) ∨
  interaction_video i ∉ keys (videos (neo4j s)) →
  let s' := sync_interaction i s in
  neo4j s' = tick (neo4j s) ∧
  interest_count_of (neo4j s') (interaction_user i) c
  = interest_count_of (neo4j s) (interaction_user i) c ∧
  aggregate_count_of (django s') (interaction_user i) c
  = aggregate_count_of (django s) (interaction_user i) c
    + occurrences c (interaction_categories i) ∧
  (aggregate_score_of (django s') (interaction_user i) c
   == aggregate_score_of (django s) (interaction_user i) c
      + inject_Z (occurrences c (interaction_categories i)) * interaction_weight i)%Q.
Proof.
  intros Hmiss s'. subst s'. destruct (sync_interaction_stores i s) as [-> ->].
  assert (Hk : has_key (interaction_user i) (users (neo4j s))
               && has_key (interaction_video i) (videos (neo4j s)) = false).
  { apply andb_false_iff. destruct Hmiss as [H|H]; [left|right];
      apply not_true_is_false; by rewrite has_key_elem. }
  rewrite Hk. split; [done|]. split; [done|].
  assert (Hd : ∃ cats, interaction_categories i = category_id <$> cats ∧
    (match i with
     | Watched w => video_categories (watch_video w)
     | Liked l => video_categories (like_video l)
     end) = cats) by (destruct i; by eexists).
  destruct Hd as (cats & Hic & ->).
  destruct (foldl_bump_aggregate_occurrences (interaction_user i) (interaction_weight i)
              cats (django s) (interaction_user i) c) as [Hc' Hs'].
  rewrite Hc', Hs', <- Hic, !decide_True by done. done.
Qed.

Lemma sync_interaction_unmatched_witness :
  neo4j (sync_interaction (Liked (like_of video_1)) catalogue_stores) = tick empty_graph ∧
  aggregate_count_of (django (sync_interaction (Liked (like_of video_1)) catalogue_stores))
    "u1" "c" = 1.
Proof.
  destruct (sync_interaction_unmatched (Liked (like_of video_1)) catalogue_stores "c")
    as (H1 & _ & H2 & _).
  - left. compute_done.
  - split; [exact H1|exact H2].
Defined.

(** * Embeddings survive a sync *)

Lemma embedding_of_cy_merge {A} k (c : Node A) f l k' :
  embedding c = None → embedding_updated c = None →
  (∀ n, embedding (f n) = embedding n ∧ embedding_updated (f n) = embedding_updated n) →
  default (None, None) (embedding_of k' (cy_merge k c f l))
  = default (None, None) (embedding_of k' l).
Proof.
  intros Hc1 Hc2 Hf. unfold embedding_of. rewrite cy_get_cy_merge.
  destruct (decide (k' = k)) as [->|]; [|done].
  destruct (cy_get k l) as [n|]; simpl.
  - by destruct (Hf n) as [-> ->].
  - by rewrite Hc1, Hc2.
Qed.

Lemma embedding_of_merge_node {A} k (a : A) now l k' :
  default (None, None) (embedding_of k' (merge_node k a now l))
  = default (None, None) (embedding_of k' l).
Proof. by apply embedding_of_cy_merge. Qed.

Lemma embedding_of_merge_bare {A} k (l : list (string * Node A)) k' :
  default (None, None) (embedding_of k' (merge_bare k l))
  = default (None, None) (embedding_of k' l).
Proof. by apply embedding_of_cy_merge. Qed.

Lemma embedding_of_foldl_merge_bare {A} cats (l : list (string * Node A)) k' :
  default (None, None) (embedding_of k' (foldl (λ l c, merge_bare c l) l cats))
  = default (None, None) (embedding_of k' l).
Proof.
  revert l. induction cats as [|c cats IH]; intros l; [done|].
  cbn [foldl]. by rewrite IH, embedding_of_merge_bare.
Qed.

Lemma keeps_embeddings_refl g : keeps_embeddings g g.
Proof. by intros k. Qed.

Lemma keeps_embeddings_trans g1 g2 g3 :
  keeps_embeddings g1 g2 → keeps_embeddings g2 g3 → keeps_embeddings g1 g3.
Proof.
  intros H1 H2 k. destruct (H1 k) as (A1 & A2 & A3 & A4), (H2 k) as (B1 & B2 & B3 & B4).
  repeat split; by etrans.
Qed.

Lemma run_statement_keeps_embeddings g st : keeps_embeddings g (run_statement g st).
Proof.
  intros k. destruct st as [pc|c|u|v|w|l|f|].
  - cbn [run_statement]. repeat split; try done. apply embedding_of_merge_node.
  - cbn [run_statement]. repeat split; try done;
      [apply embedding_of_merge_node|apply embedding_of_merge_bare].
  - cbn [run_statement]. repeat split; try done. apply embedding_of_merge_node.
  - cbn [run_statement]. unfold sync_video_to_neo4j. rewrite foldl_belongs_row.
    repeat split; simpl; try done;
      [apply embedding_of_merge_bare|apply embedding_of_merge_node|
       apply embedding_of_foldl_merge_bare].
  - destruct (late_statement_frame (SWatch w) g) as (-> & -> & -> & -> & _);
      [simpl; lia|done].
  - destruct (late_statement_frame (SLike l) g) as (-> & -> & -> & -> & _);
      [simpl; lia|done].
  - destruct (late_statement_frame (SFollow f) g) as (-> & -> & -> & -> & _);
      [simpl; lia|done].
  - destruct (late_statement_frame SSimilar g) as (-> & -> & -> & -> & _);
      [simpl; lia|done].
Qed.

Lemma foldl_run_statement_keeps_embeddings ops g :
  keeps_embeddings g (foldl run_statement g ops).
Proof.
  revert g. induction ops as [|a ops IH]; intros g; [apply keeps_embeddings_refl|].
  cbn [foldl]. eapply keeps_embeddings_trans; [apply run_statement_keeps_embeddings|apply IH].
Qed.

(** X6. No sync operation writes an embedding: after
    [sync_categories_to_neo4j], [sync_user_to_neo4j], [sync_video_to_neo4j],
    [sync_watch_to_neo4j], [sync_like_to_neo4j], [sync_follow_to_neo4j],
    [compute_video_similarities] or a whole [bulk_sync_all_data_to_neo4j],
    every node that was in the store has the embedding text and the
    embedding stamp it had (the [SET] clauses name other properties), and
    every node the operation created has none. *)
Theorem sync_keeps_embeddings :
  (∀ db g, keeps_embeddings g (sync_categories_to_neo4j db g)) ∧
  (∀ u g, keeps_embeddings g (sync_user_to_neo4j u g)) ∧
  (∀ v g, keeps_embeddings g (sync_video_to_neo4j v g)) ∧
  (∀ w s, keeps_embeddings (neo4j s) (neo4j (sync_watch_to_neo4j w s))) ∧
  (∀ l s, keeps_embeddings (neo4j s) (neo4j (sync_like_to_neo4j l s))) ∧
  (∀ f g, keeps_embeddings g (sync_follow_to_neo4j f g)) ∧
  (∀ g, keeps_embeddings g (compute_video_similarities g)) ∧
  (∀ s, keeps_embeddings (neo4j s) (neo4j (bulk_sync_all_data_to_neo4j s))).
Proof.
  repeat apply conj.
  - intros db g. unfold sync_categories_to_neo4j.
    change (keeps_embeddings g (foldl (λ g c, run_statement g (SCategory c))
      (foldl (λ g pc, run_statement g (SParent pc)) g (ParentCategory_objects db))
      (Category_objects db))).
    rewrite <- (foldl_fmap run_statement _ _ SCategory),
      <- (foldl_fmap run_statement _ _ SParent), <- foldl_app. apply foldl_run_statement_keeps_embeddings.
  - intros u g. apply (run_statement_keeps_embeddings g (SUser u)).
  - intros v g. apply (run_statement_keeps_embeddings g (SVideo v)).
  - intros w s. apply (run_statement_keeps_embeddings (neo4j s) (SWatch w)).
  - intros l s. apply (run_statement_keeps_embeddings (neo4j s) (SLike l)).
  - intros f g. apply (run_statement_keeps_embeddings g (SFollow f)).
  - intros g. apply (run_statement_keeps_embeddings g SSimilar).
  - intros s. rewrite bulk_sync_statements. apply foldl_run_statement_keeps_embeddings.
Qed.

(** * The index files, and what a query leaves alone *)

Section index_files.
Context `{B : Backend}.

Lemma _load_model_if_exists_frame w :
  graph (_load_model_if_exists w) = graph w ∧
  files (_load_model_if_exists w) = files w ∧
  faiss_index (engine (_load_model_if_exists w)) = faiss_index (engine w) ∧
  video_ids (engine (_load_model_if_exists w)) = video_ids (engine w).
Proof.
  unfold _load_model_if_exists.
  destruct (exists_ _ && exists_ _); [|done].
  destruct (METADATA_PATH (files w)) as [| |md]; try done.
  destruct (new_model _ _) as [m0 r].
  destruct (MODEL_PATH (files w)) as [| |m]; try done.
  by destruct (decide _).
Qed.

(** X7. [_save_faiss_index] followed by a new
    [RecommendationEngine()] over the same model directory gives back the
    index and the list of video ids the saving engine had, whatever the
    other files hold. An engine without an index writes nothing: the files
    of an earlier index stay as they were. *)
Theorem faiss_index_round_trip w g r now :
  match faiss_index (engine w) with
  | Some ix =>
      faiss_index (engine (__init__ g (files (_save_faiss_index w)) r now)) = Some ix ∧
      video_ids (engine (__init__ g (files (_save_faiss_index w)) r now))
      = video_ids (engine w)
  | None => _save_faiss_index w = w
  end.
Proof.
  unfold _save_faiss_index. destruct (faiss_index (engine w)) as [ix|] eqn:Hix; [|done].
  unfold __init__.
  set (w0 := {| graph := g; files := _; engine := blank_engine; rng := r; clock := now |}).
  destruct (_load_model_if_exists_frame w0) as (_ & Hf & _ & _).
  unfold _load_faiss_index_if_exists. rewrite Hf. simpl. done.
Qed.

(** X8. With an index loaded,
    [get_recommendations] changes nothing: whatever it returns, the graph,
    the files and the engine are as before. In particular it never
    retrains, however stale [check_model_needs_training] finds the
    model: the trigger only looks at whether an index is there. *)
Theorem get_recommendations_read_only uid limit w l w' :
  faiss_index (engine w) ≠ None →
  get_recommendations uid limit w = Ok (l, w') →
  w' = w.
Proof.
  intros Hix. unfold get_recommendations, bind.
  destruct (faiss_index (engine w)) as [ix|] eqn:Hix'; [|done].
  destruct (stored_embedding uid (graph w)) as [text|]; [|by intros [= _ <-]].
  destruct (json_loads text) as [q|]; [|done]. rewrite Hix'. cbn beta iota. rewrite Hix'.
  destruct (faiss_search ix q (limit * 2)) as [indices|]; [|done].
  destruct (collect _ _ _ indices []); [|done]. by intros [= _ <-].
Qed.

End index_files.

Lemma get_recommendations_read_only_witness :
  check_model_needs_training
    (with_graph (with_users (λ l, l ++ [("u3", user_node None)]))
       (serving_world (Some "[2, 1]"))) = true ∧
  match get_recommendations "u1" 1
          (with_graph (with_users (λ l, l ++ [("u3", user_node None)]))
             (serving_world (Some "[2, 1]"))) with
  | Ok (l, w') =>
      l = ["v3"] ∧
      w' = with_graph (with_users (λ l, l ++ [("u3", user_node None)]))
             (serving_world (Some "[2, 1]"))
  | Raise _ => False
  end.
Proof.
  assert (Hrun : get_recommendations "u1" 1
                   (with_graph (with_users (λ l, l ++ [("u3", user_node None)]))
                      (serving_world (Some "[2, 1]")))
                 = Ok (["v3"], with_graph (with_users (λ l, l ++ [("u3", user_node None)]))
                                 (serving_world (Some "[2, 1]")))) by reflexivity.
  split; [reflexivity|]. rewrite Hrun. split; [reflexivity|].
  apply (get_recommendations_read_only "u1" 1 _ ["v3"] _); [discriminate|exact Hrun].
Defined.

(** * Positions outside the id list *)

Lemma py_index_minus_one {A} (l : list A) : py_index l (-1) = last l.
Proof.
  unfold py_index. rewrite bool_decide_eq_false_2 by lia.
  destruct l as [|a l] using rev_ind.
  - by rewrite bool_decide_eq_false_2 by (simpl; lia).
  - rewrite bool_decide_eq_true_2 by (rewrite length_app; simpl; lia).
    rewrite last_snoc, length_app. simpl.
    replace (Z.to_nat (Z.of_nat (length l + 1) + -1)) with (length l) by lia.
    by rewrite lookup_app_r, Nat.sub_diag by lia.
Qed.

(** X9. The loop of [get_recommendations] guards
    a position only from above ([idx < len(self.video_ids)]), so the
    position -1, which the index search returns where it has fewer
    vectors than asked for, passes the guard and is read by Python as the
    last element: the loop treats -1 exactly as the position of the last
    video id, and with an empty id list it raises [IndexError]. A
    position at or beyond the length of the list is skipped. *)
Theorem collect_padding_position ids watched limit rest acc :
  collect ids watched limit (-1 :: rest) acc
  = (if decide (ids = []) then Raise IndexError
     else collect ids watched limit (Z.of_nat (length ids) - 1 :: rest) acc) ∧
  ∀ idx, Z.of_nat (length ids) ≤ idx →
         collect ids watched limit (idx :: rest) acc = collect ids watched limit rest acc.
Proof.
  split.
  - cbn [collect]. rewrite py_index_minus_one.
    rewrite bool_decide_eq_true_2 by lia.
    destruct (decide (ids = [])) as [->|Hne]; [done|].
    rewrite bool_decide_eq_true_2 by lia.
    assert (Hlast : py_index ids (Z.of_nat (length ids) - 1) = last ids).
    { unfold py_index. destruct ids as [|a l] using rev_ind; [done|].
      rewrite length_app. simpl. rewrite bool_decide_eq_true_2 by lia.
      replace (Z.to_nat (Z.of_nat (length l + 1) - 1)) with (length l) by lia.
      by rewrite last_snoc, lookup_app_r, Nat.sub_diag by lia. }
    by rewrite Hlast.
  - intros idx Hidx. cbn [collect]. by rewrite bool_decide_eq_false_2 by lia.
Qed.

(** * Feeds *)

Lemma ranked_ranking limit rows :
  ∃ ranking : list (string * nat),
    ranked limit rows = (take limit ranking).*1 ∧
    StronglySorted by_count_desc ranking ∧ ranking ≡ₚ rows.
Proof.
  exists (merge_sort by_count_desc rows). split; [done|]. split.
  - apply StronglySorted_merge_sort; apply _.
  - apply merge_sort_Permutation.
Qed.

Lemma ranked_length limit rows : (length (ranked limit rows) ≤ limit)%nat.
Proof. unfold ranked. rewrite length_fmap, length_take. lia. Qed.

Lemma elem_of_ranked limit rows v :
  v ∈ ranked limit rows → ∃ n, (v, n) ∈ rows.
Proof.
  unfold ranked. intros Hin. apply list_elem_of_fmap in Hin as ([v' n] & -> & Hin).
  exists n. apply subseteq_take in Hin. by rewrite merge_sort_Permutation in Hin.
Qed.

Lemma ranked_NoDup limit rows : NoDup rows.*1 → NoDup (ranked limit rows).
Proof.
  intros Hnd. unfold ranked. rewrite fmap_take.
  eapply sublist_NoDup; [|apply sublist_take].
  by rewrite merge_sort_Permutation.
Qed.

Lemma ranked_all limit rows v n :
  (length rows ≤ limit)%nat → (v, n) ∈ rows → v ∈ ranked limit rows.
Proof.
  intros Hlen Hin. unfold ranked.
  rewrite take_ge by (by rewrite merge_sort_Permutation).
  apply list_elem_of_fmap. exists (v, n). split; [done|].
  by rewrite merge_sort_Permutation.
Qed.

Lemma elem_of_followed_rows uid g v :
  v ∈ followed_rows uid g ↔
  ∃ creator, (uid, creator) ∈ keys (follows g) ∧ (v, creator) ∈ keys (created_by g) ∧
             (uid, v) ∉ keys (watches g).
Proof.
  unfold followed_rows. rewrite list_elem_of_bind. split.
  - intros ([[a b] ts] & Hin & Hf). simpl in Hin.
    destruct (decide (a = uid)) as [->|]; [|by apply elem_of_nil in Hin].
    destruct (existsb _ _); [|by apply elem_of_nil in Hin].
    apply list_elem_of_bind in Hin as ([[v' c] []] & Hin & Hc). simpl in Hin.
    destruct (decide (c = b)) as [->|]; [|by apply elem_of_nil in Hin].
    destruct (has_key _ _) eqn:Hw; [by apply elem_of_nil in Hin|].
    apply list_elem_of_singleton in Hin as ->. exists b. split; [|split].
    + apply elem_of_keys. by exists ts.
    + apply elem_of_keys. by exists ().
    + by apply has_key_false.
  - intros (creator & Hf & Hc & Hw).
    apply elem_of_keys in Hf as [ts Hf]. apply elem_of_keys in Hc as [[] Hc].
    exists (uid, creator, ts). split; [|done]. simpl.
    rewrite decide_True by done.
    assert (Hex : existsb (λ c, bool_decide (c.1.2 = creator)) (created_by g) = true).
    { apply existsb_exists. exists (v, creator, ()). split; [by apply list_elem_of_In|].
      by apply bool_decide_eq_true. }
    rewrite Hex. apply list_elem_of_bind. exists (v, creator, ()). split; [|done]. simpl.
    rewrite decide_True by done.
    destruct (has_key _ _) eqn:Hk; [by apply has_key_true in Hk|].
    apply list_elem_of_here.
Qed.

Lemma counted_ids g rows : (counted g rows).*1 = remove_dups rows.
Proof.
  unfold counted. generalize (remove_dups rows). intros l.
  induction l as [|v l IH]; [done|]. rewrite !fmap_cons. simpl. by rewrite IH.
Qed.

(** X10. [get_recommendations_from_followed]
    returns at most [limit] videos, none twice; every one of them was
    created by a user the given user follows and has not been watched by
    the given user; and when the limit covers the number of such videos,
    every one of them is returned. The order is by descending count,
    where a video reached through several followed creators has its
    watches counted once per creator. The length of the answer is the
    smaller of [limit] and the number of such videos, so a user who
    follows nobody gets the empty list. *)
Theorem get_recommendations_from_followed_spec uid limit g :
  NoDup (get_recommendations_from_followed uid limit g) ∧
  (length (get_recommendations_from_followed uid limit g) ≤ limit)%nat ∧
  (∀ v, v ∈ get_recommendations_from_followed uid limit g →
        ∃ creator, (uid, creator) ∈ keys (follows g) ∧
                   (v, creator) ∈ keys (created_by g) ∧
                   (uid, v) ∉ keys (watches g)) ∧
  (∀ v creator,
      (length (remove_dups (followed_rows uid g)) ≤ limit)%nat →
      (uid, creator) ∈ keys (follows g) → (v, creator) ∈ keys (created_by g) →
      (uid, v) ∉ keys (watches g) →
      v ∈ get_recommendations_from_followed uid limit g) ∧
  (∃ ranking : list (string * nat),
      get_recommendations_from_followed uid limit g = (take limit ranking).*1 ∧
      StronglySorted by_count_desc ranking ∧
      ∀ v n, (v, n) ∈ ranking →
             n = (length (filter (λ r, r = v) (followed_rows uid g)) * watch_count g v)%nat) ∧
  length (get_recommendations_from_followed uid limit g)
  = (limit `min` length (remove_dups (followed_rows uid g)))%nat.
Proof.
  unfold get_recommendations_from_followed. repeat apply conj.
  - apply ranked_NoDup. rewrite counted_ids. apply NoDup_remove_dups.
  - apply ranked_length.
  - intros v Hv. apply elem_of_ranked in Hv as [n Hv].
    apply elem_of_followed_rows, elem_of_remove_dups. rewrite <- (counted_ids g).
    apply list_elem_of_fmap. by exists (v, n).
  - intros v creator Hlen Hf Hc Hw.
    assert (Hin : v ∈ (counted g (followed_rows uid g)).*1).
    { rewrite counted_ids. apply elem_of_remove_dups, elem_of_followed_rows. by exists creator. }
    apply list_elem_of_fmap in Hin as ([v' n] & -> & Hin).
    apply (ranked_all _ _ _ n); [|done].
    by rewrite <- (length_fmap fst), counted_ids.
  - destruct (ranked_ranking limit (counted g (followed_rows uid g)))
      as (ranking & H1 & H2 & H3).
    exists ranking. split; [done|]. split; [done|]. intros v n Hin.
    rewrite H3 in Hin. unfold counted in Hin.
    by apply list_elem_of_fmap in Hin as (v' & [= -> ->] & _).
  - unfold ranked. rewrite length_fmap, length_take, merge_sort_Permutation.
    by rewrite <- (length_fmap fst), counted_ids.
Qed.

Lemma length_omap_le {A C} (f : A → option C) (l : list A) :
  (length (omap f l) ≤ length l)%nat.
Proof.
  induction l as [|x l IH]; [done|].
  change (omap f (x :: l))
    with (match f x with Some y => y :: omap f l | None => omap f l end).
  destruct (f x); simpl; lia.
Qed.

Lemma elem_of_category_rows pc watched_by g v :
  v ∈ category_rows pc watched_by g ↔
  ∃ n a, (v, n) ∈ videos g ∧ attrs n = Some a ∧ pc ∈ parent_categories a ∧
         match watched_by with
         | Some uid => (uid, v) ∉ keys (watches g)
         | None => True
         end.
Proof.
  unfold category_rows. rewrite list_elem_of_omap. split.
  - intros ([v' n] & Hin & Hsome). simpl in Hsome.
    destruct (attrs n) as [a|] eqn:Ha; [|done].
    destruct (bool_decide (pc ∈ parent_categories a)) eqn:Hpc; [|done].
    apply bool_decide_eq_true in Hpc. simpl in Hsome.
    destruct watched_by as [uid|].
    + destruct (has_key _ _) eqn:Hk; [done|]. simpl in Hsome. injection Hsome as ->.
      exists n, a. repeat split; try done. by apply has_key_false.
    + simpl in Hsome. injection Hsome as ->. by exists n, a.
  - intros (n & a & Hin & Ha & Hpc & Hw). exists (v, n). split; [done|]. simpl.
    rewrite Ha, bool_decide_eq_true_2 by done. simpl.
    destruct watched_by as [uid|]; [|done].
    destruct (has_key _ _) eqn:Hk; [by apply has_key_true in Hk|done].
Qed.

(** X11. [get_recommendations_by_category]
    returns at most [limit] videos, each carrying the parent category in
    its stored [parent_categories], in descending order of watch count.
    With a truthy [user_id] none of them has been watched by that user.
    The test is [if user_id:], so the integer id 0 is treated as no user
    at all: the list is then the one of the anonymous feed, watched
    videos included. *)
Theorem get_recommendations_by_category_spec pc user_id limit g :
  (length (get_recommendations_by_category pc user_id limit g) ≤ limit)%nat ∧
  (∀ v, v ∈ get_recommendations_by_category pc user_id limit g →
        ∃ n a, (v, n) ∈ videos g ∧ attrs n = Some a ∧ pc ∈ parent_categories a ∧
               (truthy user_id = true → (str user_id, v) ∉ keys (watches g))) ∧
  (∃ ranking : list (string * nat),
      get_recommendations_by_category pc user_id limit g = (take limit ranking).*1 ∧
      StronglySorted by_count_desc ranking ∧
      ∀ v n, (v, n) ∈ ranking → n = watch_count g v) ∧
  get_recommendations_by_category pc (IdInt 0) limit g
  = get_recommendations_by_category pc IdNone limit g ∧
  (∀ v n a, (v, n) ∈ videos g → attrs n = Some a → pc ∈ parent_categories a →
            (length (videos g) ≤ limit)%nat →
            v ∈ get_recommendations_by_category pc (IdInt 0) limit g).
Proof.
  repeat apply conj.
  - unfold get_recommendations_by_category. destruct (truthy user_id); apply ranked_length.
  - intros v Hv. unfold get_recommendations_by_category in Hv.
    destruct (truthy user_id) eqn:Ht;
      apply elem_of_ranked in Hv as [k Hv];
      apply list_elem_of_fmap in Hv as (v' & [= <- _] & Hv);
      apply elem_of_category_rows in Hv as (n & a & H1 & H2 & H3 & H4);
      exists n, a; repeat split; done.
  - unfold get_recommendations_by_category.
    destruct (truthy user_id);
      match goal with
      | |- context [ranked limit ?rows] =>
          destruct (ranked_ranking limit rows) as (ranking & H1 & H2 & H3)
      end;
      exists ranking; (split; [done|]); (split; [done|]); intros v n Hin;
      rewrite H3 in Hin; by apply list_elem_of_fmap in Hin as (v' & [= -> ->] & _).
  - done.
  - intros v n a Hin Ha Hpc Hlen. unfold get_recommendations_by_category. simpl.
    apply (ranked_all _ _ _ (watch_count g v)).
    + rewrite length_fmap. etrans; [|exact Hlen]. unfold category_rows.
      apply length_omap_le.
    + apply list_elem_of_fmap. exists v. split; [done|].
      apply elem_of_category_rows. by exists n, a.
Qed.

(** * User statistics *)

Lemma remove_dups_NoDup {A} `{EqDecision A} (l : list A) : NoDup l → remove_dups l = l.
Proof.
  induction 1 as [|x l Hx Hnd IH]; [done|]. simpl.
  destruct (decide_rel elem_of x l); [done|]. by rewrite IH.
Qed.

Lemma filter_keys {K V} (P : K → Prop) `{∀ k, Decision (P k)} (l : list (K * V)) :
  (filter (λ e, P e.1) l).*1 = filter P (keys l).
Proof.
  unfold keys. induction l as [|[k v] l IH]; [done|].
  rewrite fmap_cons, !filter_cons. cbn [fst].
  destruct (decide (P k)); [rewrite fmap_cons; cbn [fst]; f_equal|]; exact IH.
Qed.

Lemma followers_keys {P} (b : string) (l : list ((string * string) * P)) :
  (λ f, f.1.1) <$> filter (λ f, f.1.2 = b) l = fst <$> filter (λ k, k.2 = b) (keys l).
Proof.
  rewrite <- (filter_keys (λ k, k.2 = b)). by rewrite <- list_fmap_compose.
Qed.

Lemma followees_keys {P} (a : string) (l : list ((string * string) * P)) :
  (λ f, f.1.2) <$> filter (λ f, f.1.1 = a) l = snd <$> filter (λ k, k.1 = a) (keys l).
Proof.
  rewrite <- (filter_keys (λ k, k.1 = a)). by rewrite <- list_fmap_compose.
Qed.

Lemma followers_NoDup (b : string) (ks : list (string * string)) :
  NoDup ks → NoDup (fst <$> filter (λ k, k.2 = b) ks).
Proof.
  intros Hnd. apply NoDup_fmap_2_strong; [|by apply NoDup_filter].
  intros [x1 y1] [x2 y2] H1 H2 Heq. apply list_elem_of_filter in H1 as [H1 _], H2 as [H2 _].
  simpl in *. congruence.
Qed.

Lemma followees_NoDup (a : string) (ks : list (string * string)) :
  NoDup ks → NoDup (snd <$> filter (λ k, k.1 = a) ks).
Proof.
  intros Hnd. apply NoDup_fmap_2_strong; [|by apply NoDup_filter].
  intros [x1 y1] [x2 y2] H1 H2 Heq. apply list_elem_of_filter in H1 as [H1 _], H2 as [H2 _].
  simpl in *. congruence.
Qed.

Lemma merge_rel_follow_counts (a b ts : string) (l : list ((string * string) * string)) :
  NoDup (keys l) →
  let k := if decide ((a, b) ∈ keys l) then 0%nat else 1%nat in
  length (remove_dups ((λ f, f.1.2) <$> filter (λ f, f.1.1 = a) (merge_rel (a, b) ts l)))
  = (length (remove_dups ((λ f, f.1.2) <$> filter (λ f, f.1.1 = a) l)) + k)%nat ∧
  length (remove_dups ((λ f, f.1.1) <$> filter (λ f, f.1.2 = b) (merge_rel (a, b) ts l)))
  = (length (remove_dups ((λ f, f.1.1) <$> filter (λ f, f.1.2 = b) l)) + k)%nat.
Proof.
  intros Hnd k. rewrite !followers_keys, !followees_keys.
  unfold merge_rel. rewrite keys_cy_merge.
  assert (Hold1 := followees_NoDup a _ Hnd). assert (Hold2 := followers_NoDup b _ Hnd).
  rewrite !(remove_dups_NoDup _ Hold1), !(remove_dups_NoDup _ Hold2).
  subst k. destruct (has_key (a, b) l) eqn:Hk.
  - apply has_key_true in Hk. rewrite decide_True by done.
    rewrite !(remove_dups_NoDup _ Hold1), !(remove_dups_NoDup _ Hold2). lia.
  - apply has_key_false in Hk. rewrite decide_False by done.
    assert (Hnd' : NoDup (keys l ++ [(a, b)])).
    { apply NoDup_app. split; [done|]. split; [|apply NoDup_singleton].
      intros x Hx Hx'. by apply list_elem_of_singleton in Hx' as ->. }
    rewrite (remove_dups_NoDup _ (followees_NoDup a _ Hnd')),
            (remove_dups_NoDup _ (followers_NoDup b _ Hnd')).
    rewrite !filter_app, !fmap_app, !length_app, !filter_cons, !decide_True by done.
    simpl. lia.
Qed.

(** X12. [get_user_stats] raises [TypeError] exactly
    for a user id that has no node in the graph (the query has no row and
    [result.single()] is [None]). For users that have one it counts the
    relationships as [sync_follow_to_neo4j] writes them: a follow between
    two users of the graph raises the followee's [follower_count] and the
    follower's [following_count] by one when the pair was not following
    yet, and by nothing when it was (the [MERGE] only refreshes the
    timestamp); the followee's [video_count] is not touched. *)
Theorem get_user_stats_spec g :
  (∀ uid, get_user_stats uid g = Raise TypeError ↔ uid ∉ keys (users g)) ∧
  (∀ f, NoDup (keys (follows g)) →
        user_id (follower f) ∈ keys (users g) → user_id (followee f) ∈ keys (users g) →
        let k := if decide ((user_id (follower f), user_id (followee f)) ∈ keys (follows g))
                 then 0%nat else 1%nat in
        ∃ sa sb sa' sb',
          get_user_stats (user_id (follower f)) g = Ok sa ∧
          get_user_stats (user_id (followee f)) g = Ok sb ∧
          get_user_stats (user_id (follower f)) (sync_follow_to_neo4j f g) = Ok sa' ∧
          get_user_stats (user_id (followee f)) (sync_follow_to_neo4j f g) = Ok sb' ∧
          following_count sa' = (following_count sa + k)%nat ∧
          follower_count sb' = (follower_count sb + k)%nat ∧
          video_count sb' = video_count sb).
Proof.
  split.
  - intros uid. unfold get_user_stats. destruct (has_key uid (users g)) eqn:Hk.
    + apply has_key_true in Hk. split; [done|]. by intros ?.
    + apply has_key_false in Hk. done.
  - intros f Hnd Ha Hb k. unfold get_user_stats, sync_follow_to_neo4j.
    apply has_key_elem in Ha, Hb. rewrite Ha, Hb. cbn [andb tick with_follows users
      follows created_by]. rewrite Ha, Hb.
    destruct (merge_rel_follow_counts (user_id (follower f)) (user_id (followee f))
                (follow_timestamp f) (follows g) Hnd) as [H1 H2].
    eexists _, _, _, _. split; [done|]. split; [done|]. split; [done|]. split; [done|].
    cbn [following_count follower_count video_count]. by rewrite H1, H2.
Qed.

(** * Request handlers *)

Lemma get_video_Some pk db video :
  get_video pk db = Some video → video_id video = pk ∧ video ∈ Video_objects db.
Proof.
  unfold get_video. destruct (list_find _ _) as [[i v]|] eqn:Hf; [|done].
  intros [= <-]. apply list_find_Some in Hf as (Hl & Hp & _). split; [done|].
  by eapply list_elem_of_lookup_2.
Qed.

Lemma get_user_Some pk db user :
  get_user pk db = Some user → user_id user = pk ∧ user ∈ User_objects db.
Proof.
  unfold get_user. destruct (list_find _ _) as [[i v]|] eqn:Hf; [|done].
  intros [= <-]. apply list_find_Some in Hf as (Hl & Hp & _). split; [done|].
  by eapply list_elem_of_lookup_2.
Qed.

Lemma foldl_bump_aggregate_rows uid delta cats db :
  User_objects (foldl (bump_aggregate uid delta) db cats) = User_objects db ∧
  Video_objects (foldl (bump_aggregate uid delta) db cats) = Video_objects db ∧
  Watch_objects (foldl (bump_aggregate uid delta) db cats) = Watch_objects db ∧
  Like_objects (foldl (bump_aggregate uid delta) db cats) = Like_objects db ∧
  Follow_objects (foldl (bump_aggregate uid delta) db cats) = Follow_objects db.
Proof.
  revert db. induction cats as [|c cats IH]; intros db; [done|]. cbn [foldl].
  destruct (IH (bump_aggregate uid delta db c)) as (-> & -> & -> & -> & ->). done.
Qed.

(** X13. One accepted call of the [watch] endpoint syncs
    the watch twice: once by the [post_save] receiver that
    [Watch.objects.create] triggers, once by the explicit call at the end
    of the handler. With the graph in step with the video's row, the
    [InterestedIn] count of the user and a category of the video, and the
    [interaction_count] of the relational aggregate, both grow by two per
    occurrence of the category, and the scores by twice the watch time,
    while the video's [views] column grows by one. A second watch of the
    same video by the same user breaks [unique_together] and changes
    nothing. *)
Theorem watch_syncs_twice request_user pk wt now site video c :
  get_video pk (django (stores site)) = Some video →
  user_id request_user ∈ keys (users (neo4j (stores site))) →
  pk ∈ keys (videos (neo4j (stores site))) →
  stored_categories pk (neo4j (stores site)) = category_id <$> video_categories video →
  (∀ x, x ∈ category_id <$> video_categories video →
        x ∈ keys (category_nodes (neo4j (stores site)))) →
  let k := occurrences c (category_id <$> video_categories video) in
  let uid := user_id request_user in
  if watch_row uid pk (django (stores site)) then
    watch request_user pk wt now site = (IntegrityError, site)
  else
    (watch request_user pk wt now site).1 = Status "watched" ∧
    video_views (watch request_user pk wt now site).2 !! pk
    = Some (default 0 (video_views site !! pk) + 1) ∧
    watch_row uid pk (django (stores (watch request_user pk wt now site).2)) = true ∧
    interest_count_of (neo4j (stores (watch request_user pk wt now site).2)) uid c
    = interest_count_of (neo4j (stores site)) uid c + 2 * k ∧
    aggregate_count_of (django (stores (watch request_user pk wt now site).2)) uid c
    = aggregate_count_of (django (stores site)) uid c + 2 * k ∧
    (interest_score_of (neo4j (stores (watch request_user pk wt now site).2)) uid c
     == interest_score_of (neo4j (stores site)) uid c + inject_Z (2 * k) * wt)%Q ∧
    (aggregate_score_of (django (stores (watch request_user pk wt now site).2)) uid c
     == aggregate_score_of (django (stores site)) uid c + inject_Z (2 * k) * wt)%Q.
Proof.
  intros Hget Hu Hv Hcats Hnodes k uid. subst uid. unfold watch. rewrite Hget.
  destruct (get_video_Some _ _ _ Hget) as [Hid _].
  destruct (watch_row (user_id request_user) pk (django (stores site))) eqn:Hrow; [done|].
  set (uid := user_id request_user) in *. cbn [fst snd stores video_views].
  set (w := {| watch_user := request_user; watch_video := video; watch_time := wt;
               watch_timestamp := now |}).
  set (s0 := on_django (with_watch_rows (λ l, w :: l)) (stores site)).
  change (sync_watch_on_save w true s0) with (sync_interaction (Watched w) s0).
  change (sync_watch_to_neo4j w (sync_interaction (Watched w) s0))
    with (sync_interaction (Watched w) (sync_interaction (Watched w) s0)).
  set (s1 := sync_interaction (Watched w) s0).
  assert (Hn1 : same_nodes (neo4j s0) (neo4j s1))
    by apply (sync_interactions_nodes [Watched w] s0).
  destruct Hn1 as (Hu1 & Hv1 & Hc1).
  destruct (sync_interaction_moves (Watched w) s0 uid c) as (A1 & A2 & A3 & A4);
    [done|by cbn; rewrite Hid|by cbn; rewrite Hid|done|].
  destruct (sync_interaction_moves (Watched w) s1 uid c) as (B1 & B2 & B3 & B4).
  { by rewrite Hu1. }
  { rewrite Hv1. cbn [interaction_video w watch_video]. by rewrite Hid. }
  { unfold stored_categories. rewrite Hv1. cbn [interaction_video w watch_video].
    rewrite Hid. exact Hcats. }
  { intros x Hx. rewrite Hc1. by apply Hnodes. }
  cbn [interaction_user interaction_categories interaction_weight watch_user watch_video
       watch_time w] in A1, A2, A3, A4, B1, B2, B3, B4.
  fold uid k in A1, A2, A3, A4, B1, B2, B3, B4.
  rewrite decide_True in A1, A2, A3, A4, B1, B2, B3, B4 by done.
  split; [done|]. split; [by rewrite lookup_insert_eq|]. split.
  { unfold watch_row. apply bool_decide_eq_true.
    assert (Hrows : ∀ s, Watch_objects (django (sync_interaction (Watched w) s))
                         = Watch_objects (django s)).
    { intros s. exact (proj1 (proj2 (proj2 (foldl_bump_aggregate_rows _ _ _ _)))). }
    rewrite (Hrows s1). unfold s1. rewrite (Hrows s0).
    apply Exists_cons_hd. by rewrite <- Hid. }
  unfold s1 in *. rewrite B1, A1, B2, A2, B3, A3, B4, A4.
  change (neo4j s0) with (neo4j (stores site)).
  change (aggregate_count_of (django s0) uid c)
    with (aggregate_count_of (django (stores site)) uid c).
  change (aggregate_score_of (django s0) uid c)
    with (aggregate_score_of (django (stores site)) uid c).
  repeat split; try lia; rewrite inject_Z_mult; change (inject_Z 2) with 2%Q; ring.
Qed.
Lemma watch_syncs_twice_witness :
  (watch alice "v2" 3 "2024-02-01T00:00:00" viewer_site).1 = Status "watched" ∧
  video_views (watch alice "v2" 3 "2024-02-01T00:00:00" viewer_site).2 !! "v2" = Some 1 ∧
  interest_count_of (neo4j (stores (watch alice "v2" 3 "2024-02-01T00:00:00" viewer_site).2))
    "u1" "c" = 2.
Proof.
  pose proof (watch_syncs_twice alice "v2" 3 "2024-02-01T00:00:00" viewer_site video_2 "c")
    as H.
  hnf in H. destruct H as (H1 & H2 & _ & H3 & _).
  - reflexivity.
  - compute_done.
  - compute_done.
  - reflexivity.
  - intros x Hx. apply list_elem_of_singleton in Hx as ->. compute_done.
  - split; [exact H1|]. split; [exact H2|exact H3].
Defined.

Lemma sync_like_to_neo4j_rows l s :
  Video_objects (django (sync_like_to_neo4j l s)) = Video_objects (django s) ∧
  Like_objects (django (sync_like_to_neo4j l s)) = Like_objects (django s).
Proof.
  unfold sync_like_to_neo4j. cbn [django].
  by destruct (foldl_bump_aggregate_rows (user_id (like_user l)) 2%Q
                 (video_categories (like_video l)) (django s)) as (_ & -> & _ & -> & _).
Qed.

(** X14. The [like] endpoint never answers
    [{'status': 'liked'}] and never changes a video's [likes] column. On
    the first like of a video by a user the row is inserted and the
    [post_save] receiver syncs it to the graph, then
    [video.save(updated_fields = ...)] raises [TypeError] (the keyword is
    not a parameter of [Model.save]), so the explicit sync and the
    answer are never reached; every later call finds the row and
    answers 'already liked' without changing anything. *)
Theorem like_never_answers_liked request_user pk now site :
  (like request_user pk now site).1 ≠ Status "liked" ∧
  video_likes (like request_user pk now site).2 = video_likes site ∧
  (∀ video,
      get_video pk (django (stores site)) = Some video →
      like_row (user_id request_user) pk (django (stores site)) = false →
      (like request_user pk now site).1 = ServerError TypeError ∧
      like_row (user_id request_user) pk
        (django (stores (like request_user pk now site).2)) = true ∧
      neo4j (stores (like request_user pk now site).2)
      = like_statement (user_id request_user) pk now (neo4j (stores site)) ∧
      ∀ later,
        like request_user pk later (like request_user pk now site).2
        = (Status "already liked", (like request_user pk now site).2)).
Proof.
  repeat apply conj.
  - unfold like. destruct (get_video _ _); [|done]. by destruct (like_row _ _ _).
  - unfold like. destruct (get_video _ _); [|done]. by destruct (like_row _ _ _).
  - intros video Hget Hrow. destruct (get_video_Some _ _ _ Hget) as [Hid _].
    set (l := {| like_user := request_user; like_video := video; like_timestamp := now |}).
    set (s0 := on_django (with_like_rows (λ rows, l :: rows)) (stores site)).
    assert (Heq : like request_user pk now site
                  = (ServerError TypeError, on_stores (λ _, sync_like_to_neo4j l s0) site)).
    { unfold like. by rewrite Hget, Hrow. }
    rewrite Heq. cbn [fst snd stores on_stores].
    destruct (sync_like_to_neo4j_rows l s0) as [Hvid Hlike].
    assert (Hrow' : like_row (user_id request_user) pk (django (sync_like_to_neo4j l s0))
                    = true).
    { unfold like_row. apply bool_decide_eq_true. rewrite Hlike.
      apply Exists_cons_hd. by rewrite <- Hid. }
    split; [done|]. split; [done|]. split.
    + cbn [sync_like_to_neo4j neo4j l like_user like_video like_timestamp]. by rewrite Hid.
    + intros later.
      assert (Hget' : get_video pk (django (sync_like_to_neo4j l s0)) = Some video).
      { unfold get_video. rewrite Hvid. exact Hget. }
      unfold like. cbn [stores on_stores]. by rewrite Hget', Hrow'.
Qed.

Lemma sync_follow_to_neo4j_follows f g :
  user_id (follower f) ∈ keys (users g) → user_id (followee f) ∈ keys (users g) →
  users (sync_follow_to_neo4j f g) = users g ∧
  follows (sync_follow_to_neo4j f g)
  = merge_rel (user_id (follower f), user_id (followee f)) (follow_timestamp f) (follows g).
Proof.
  intros Ha Hb. unfold sync_follow_to_neo4j. apply has_key_elem in Ha, Hb.
  by rewrite Ha, Hb.
Qed.

(** A second [MERGE] of the same relationship adds nothing. *)
Lemma merge_rel_twice {P} (k : string * string) (p : P) l :
  keys (merge_rel k p (merge_rel k p l))
  = (if has_key k l then keys l else keys l ++ [k]) ∧
  cy_get k (merge_rel k p (merge_rel k p l)) = Some p.
Proof.
  unfold merge_rel. split.
  - rewrite (keys_cy_merge k p (λ _, p) (cy_merge k p (λ _, p) l)).
    assert (Hk : has_key k (cy_merge k p (λ _, p) l) = true)
      by apply has_key_true, cy_merge_has_key.
    rewrite Hk. apply keys_cy_merge.
  - rewrite cy_get_cy_merge, decide_True by done.
    rewrite cy_get_cy_merge, decide_True by done. by destruct (cy_get k l).
Qed.

(** X15. The [unfollow] and [unlike] endpoints delete
    the relational row only: the graph is exactly as before, so a
    [Follows] relationship written by [follow] is still there after
    [unfollow], when the relational row is gone. [follow] runs the sync
    twice, once by the receiver and once by the handler, and the two
    write one relationship in all: the keys of the [Follows] table are
    those before, plus the new pair once at the end if it was not there,
    the relationship carries the timestamp of the new row, and a table
    without repeated keys stays so. A user cannot follow themselves: the
    handler answers 400 and writes nothing. *)
Theorem unfollow_keeps_graph request_user pk site :
  neo4j (stores (unfollow request_user pk site).2) = neo4j (stores site) ∧
  neo4j (stores (unlike request_user pk site).2) = neo4j (stores site) ∧
  (∀ now user_to_follow,
      get_user pk (django (stores site)) = Some user_to_follow →
      user_id request_user = pk →
      follow request_user pk now site = (BadRequest "Cannot follow youself", site)) ∧
  (∀ now user_to_follow,
      get_user pk (django (stores site)) = Some user_to_follow →
      user_id request_user ≠ pk →
      follow_row (user_id request_user) pk (django (stores site)) = false →
      user_id request_user ∈ keys (users (neo4j (stores site))) →
      pk ∈ keys (users (neo4j (stores site))) →
      (follow request_user pk now site).1 = Status "followed" ∧
      follow_row (user_id request_user) pk
        (django (stores (follow request_user pk now site).2)) = true ∧
      (user_id request_user, pk)
        ∈ keys (follows (neo4j (stores (follow request_user pk now site).2))) ∧
      follow_row (user_id request_user) pk
        (django (stores (unfollow request_user pk (follow request_user pk now site).2).2))
      = false ∧
      (user_id request_user, pk)
        ∈ keys (follows (neo4j (stores
             (unfollow request_user pk (follow request_user pk now site).2).2))) ∧
      keys (follows (neo4j (stores (follow request_user pk now site).2)))
      = (if has_key (user_id request_user, pk) (follows (neo4j (stores site)))
         then keys (follows (neo4j (stores site)))
         else keys (follows (neo4j (stores site))) ++ [(user_id request_user, pk)]) ∧
      cy_get (user_id request_user, pk)
        (follows (neo4j (stores (follow request_user pk now site).2))) = Some now ∧
      (NoDup (keys (follows (neo4j (stores site)))) →
       NoDup (keys (follows (neo4j (stores (follow request_user pk now site).2)))))).
Proof.
  repeat apply conj.
  - unfold unfollow. by destruct (get_user _ _).
  - unfold unlike. by destruct (get_video _ _).
  - intros now u Hget Hself. destruct (get_user_Some _ _ _ Hget) as [Hid _].
    unfold follow. rewrite Hget. by rewrite decide_True by congruence.
  - intros now u Hget Hne Hrow Ha Hb. destruct (get_user_Some _ _ _ Hget) as [Hid _].
    set (f := {| follower := request_user; followee := u; follow_timestamp := now |}).
    set (s0 := on_django (with_follow_rows (λ rows, f :: rows)) (stores site)).
    assert (Heq : follow request_user pk now site
                  = (Status "followed",
                     on_stores (λ _, on_graph (sync_follow_to_neo4j f)
                                       (on_graph (sync_follow_to_neo4j f) s0)) site)).
    { unfold follow. rewrite Hget, Hrow. by rewrite decide_False by congruence. }
    rewrite Heq. cbn [fst snd].
    set (site1 := on_stores (λ _, on_graph (sync_follow_to_neo4j f)
                                    (on_graph (sync_follow_to_neo4j f) s0)) site).
    assert (Hfollows : follows (neo4j (stores site1))
                       = merge_rel (user_id request_user, pk) now
                           (merge_rel (user_id request_user, pk) now
                              (follows (neo4j (stores site))))).
    { cbn [site1 stores on_stores on_graph neo4j s0 on_django].
      destruct (sync_follow_to_neo4j_follows f (neo4j (stores site))) as [Hu1 Hf1];
        [done|by cbn [f followee]; rewrite Hid|].
      destruct (sync_follow_to_neo4j_follows f
                  (sync_follow_to_neo4j f (neo4j (stores site)))) as [_ Hf2];
        [by rewrite Hu1|by rewrite Hu1; cbn [f followee]; rewrite Hid|].
      rewrite Hf2, Hf1. cbn [f follower followee follow_timestamp]. by rewrite Hid. }
    destruct (merge_rel_twice (user_id request_user, pk) now
                (follows (neo4j (stores site)))) as [Hkeys Hstamp].
    assert (Hedge : (user_id request_user, pk) ∈ keys (follows (neo4j (stores site1)))).
    { rewrite Hfollows. apply cy_merge_has_key. }
    assert (Hget1 : get_user pk (django (stores site1)) = Some u) by exact Hget.
    assert (Heq2 : unfollow request_user pk site1
                   = (Status "unfollowed",
                      on_stores (on_django (with_follow_rows
                        (filter (λ f, negb (bool_decide
                           (user_id (follower f) = user_id request_user
                            ∧ user_id (followee f) = pk)) = true)))) site1)).
    { unfold unfollow. by rewrite Hget1. }
    rewrite Heq2. cbn [fst snd].
    split; [done|]. split.
    { unfold follow_row. apply bool_decide_eq_true.
      apply Exists_cons_hd. split; [done|exact Hid]. }
    split; [exact Hedge|]. split.
    { unfold follow_row. apply bool_decide_eq_false. rewrite Exists_exists.
      intros (x & Hx & Hx1 & Hx2). apply list_elem_of_filter in Hx as [Hk _].
      apply negb_true_iff, bool_decide_eq_false in Hk. by apply Hk. }
    split; [exact Hedge|]. rewrite Hfollows. split; [exact Hkeys|]. split; [exact Hstamp|].
    intros Hnd. unfold merge_rel. by do 2 apply NoDup_keys_cy_merge.
Qed.

(** * The graph loader *)

Lemma foldl_enumerate (l : list string) n (m0 : gmap string nat) id i :
  foldl (λ m p, <[p.2 := p.1]> m) m0 (zip (seq n (length l)) l) !! id = Some i →
  m0 !! id = Some i ∨ ((n ≤ i)%nat ∧ l !! (i - n)%nat = Some id).
Proof.
  revert n m0. induction l as [|x l IH]; intros n m0; cbn [length seq zip zip_with foldl].
  - by left.
  - intros Hl. apply IH in Hl as [Hl|[Hle Hl]].
    + cbn [fst snd] in Hl. destruct (decide (x = id)) as [->|Hne].
      * rewrite lookup_insert_eq in Hl. injection Hl as <-. right. split; [lia|].
        by rewrite Nat.sub_diag.
      * rewrite lookup_insert_ne in Hl by done. by left.
    + right. split; [lia|]. replace (i - n)%nat with (S (i - S n)) by lia. done.
Qed.

Lemma enumerate_ids_Some ids id i :
  enumerate_ids ids !! id = Some i → (i < length ids)%nat ∧ ids !! i = Some id.
Proof.
  unfold enumerate_ids. intros H. apply foldl_enumerate in H as [H|[_ H]]; [done|].
  rewrite Nat.sub_0_r in H. split; [|done]. by eapply lookup_lt_Some.
Qed.

Lemma enumerate_ids_inj ids id1 id2 i :
  enumerate_ids ids !! id1 = Some i → enumerate_ids ids !! id2 = Some i → id1 = id2.
Proof.
  intros H1 H2. apply enumerate_ids_Some in H1 as [_ H1], H2 as [_ H2]. congruence.
Qed.

Lemma invert_lookup (m : gmap string nat) id i :
  (∀ id1 id2 j, m !! id1 = Some j → m !! id2 = Some j → id1 = id2) →
  m !! id = Some i → invert m !! i = Some id.
Proof.
  intros Hinj Hm. unfold invert. apply elem_of_list_to_map_1.
  - rewrite <- list_fmap_compose. apply NoDup_fmap_2_strong; [|apply NoDup_map_to_list].
    intros [k1 v1] [k2 v2] H1 H2 Heq. simpl in Heq. subst v2.
    apply elem_of_map_to_list in H1, H2. by rewrite (Hinj k1 k2 v1 H1 H2).
  - apply list_elem_of_fmap. exists (id, i). split; [done|]. by apply elem_of_map_to_list.
Qed.

Section loader.
Context `{B : Backend}.

Lemma elem_of_mapped_edges nm src dst el s d q :
  (s, d, q) ∈ mapped_edges nm src dst el →
  ∃ e, e ∈ el ∧ default ∅ (nm !! src) !! e.1.1 = Some s ∧
       default ∅ (nm !! dst) !! e.1.2 = Some d ∧ q = e.2.
Proof.
  unfold mapped_edges. rewrite list_elem_of_omap. intros (e & Hin & He). exists e.
  destruct (default ∅ (nm !! src) !! e.1.1) as [s'|]; [|done].
  destruct (default ∅ (nm !! dst) !! e.1.2) as [d'|]; [|done].
  by injection He as -> -> ->.
Qed.

Lemma node_type_listed g nt :
  nt ∈ node_types → ∃ ids, (nt, ids) ∈ _get_all_nodes g.
Proof.
  unfold node_types, _get_all_nodes. intros Hin.
  repeat (apply elem_of_cons in Hin as [->|Hin];
          [eexists; repeat first [apply list_elem_of_here | apply list_elem_of_further]|]).
  by apply elem_of_nil in Hin.
Qed.

(** The state the loader leaves: the four mappings and their inverses,
    fresh features, and the edges whose endpoints are both mapped. *)
Lemma load_graph_from_neo4j_Ok w :
  let g := graph w in
  let nm := <["parent_category" := enumerate_ids (keys (parent_nodes g))]>
              (<["category" := enumerate_ids (keys (category_nodes g))]>
                 (<["video" := enumerate_ids (keys (videos g))]>
                    (<["user" := enumerate_ids (keys (users g))]>
                       (node_mappings (engine w))))) in
  let rm := <["parent_category" := invert (enumerate_ids (keys (parent_nodes g)))]>
              (<["category" := invert (enumerate_ids (keys (category_nodes g)))]>
                 (<["video" := invert (enumerate_ids (keys (videos g)))]>
                    (<["user" := invert (enumerate_ids (keys (users g)))]>
                       (reverse_mappings (engine w))))) in
  let ns : gmap string nat :=
    <["parent_category" := length (keys (parent_nodes g))]>
      (<["category" := length (keys (category_nodes g))]>
         (<["video" := length (keys (videos g))]>
            (<["user" := length (keys (users g))]> ∅))) in
  let loaded :=
    omap (λ et, if decide (et.2 = []) then None
                else match mapped_edges nm et.1.1.1 et.1.2 et.2 with
                     | [] => None
                     | es => Some (et.1, es)
                     end) (_get_all_edges g) in
  ∃ xs r,
    load_graph_from_neo4j w
    = Ok ((), with_rng r
                (with_engine
                   (λ e, set_data
                           (Some {| x_dict := xs; num_nodes := ns;
                                    edge_index_dict :=
                                      (λ et, (et.1, (λ e, e.1) <$> et.2)) <$> loaded;
                                    edge_attr :=
                                      (λ et, (et.1, (λ e, e.2) <$> et.2)) <$> loaded |})
                           (set_mappings nm rm e)) w)).
Proof.
  intros g nm rm ns loaded. unfold load_graph_from_neo4j, _get_all_nodes.
  cbn [foldl fst snd].
  destruct (randn (length (keys (users (graph w)))) (rng w)) as [f1 r1].
  destruct (randn (length (keys (videos (graph w)))) r1) as [f2 r2].
  destruct (randn (length (keys (category_nodes (graph w)))) r2) as [f3 r3].
  destruct (randn (length (keys (parent_nodes (graph w)))) r3) as [f4 r4].
  by eexists _, _.
Qed.

(** X16. [load_graph_from_neo4j] always
    succeeds and leaves the graph store alone. For each of the four node
    types the mapping sends every mapped id to a position below the node
    count of the type, the id at that position of the id list is the
    mapped id, and the reverse mapping sends the position back to the id.
    Every index pair of every loaded edge type lies below the node counts
    of its source and destination types; no loaded edge type is empty;
    and the weights are stored under the same edge types, one per index
    pair. *)
Theorem load_graph_from_neo4j_indices w :
  ∃ w' d,
    load_graph_from_neo4j w = Ok ((), w') ∧ data (engine w') = Some d ∧
    graph w' = graph w ∧
    (∀ node_type ids, (node_type, ids) ∈ _get_all_nodes (graph w) →
       num_nodes d !! node_type = Some (length ids) ∧
       ∃ m r, node_mappings (engine w') !! node_type = Some m ∧
              reverse_mappings (engine w') !! node_type = Some r ∧
              ∀ id i, m !! id = Some i →
                      (i < length ids)%nat ∧ ids !! i = Some id ∧ r !! i = Some id) ∧
    (∀ src rel dst pairs s t,
       ((src, rel, dst), pairs) ∈ edge_index_dict d → (s, t) ∈ pairs →
       ∃ n_src n_dst, num_nodes d !! src = Some n_src ∧ num_nodes d !! dst = Some n_dst ∧
                      (s < n_src)%nat ∧ (t < n_dst)%nat) ∧
    (∀ et pairs, (et, pairs) ∈ edge_index_dict d → pairs ≠ []) ∧
    Forall2 (λ a b, a.1 = b.1 ∧ length a.2 = length b.2) (edge_index_dict d) (edge_attr d).
Proof.
  destruct (load_graph_from_neo4j_Ok w) as (xs & r & Hload). cbv zeta in Hload.
  eexists _, _. split; [exact Hload|]. split; [done|]. split; [done|].
  cbn [data engine with_rng with_engine set_data set_mappings num_nodes edge_index_dict
       edge_attr node_mappings reverse_mappings].
  assert (Hnodes : ∀ node_type ids, (node_type, ids) ∈ _get_all_nodes (graph w) →
    (<["parent_category" := length (keys (parent_nodes (graph w)))]>
       (<["category" := length (keys (category_nodes (graph w)))]>
          (<["video" := length (keys (videos (graph w)))]>
             (<["user" := length (keys (users (graph w)))]> (∅ : gmap string nat)))))
      !! node_type = Some (length ids) ∧
    (<["parent_category" := enumerate_ids (keys (parent_nodes (graph w)))]>
       (<["category" := enumerate_ids (keys (category_nodes (graph w)))]>
          (<["video" := enumerate_ids (keys (videos (graph w)))]>
             (<["user" := enumerate_ids (keys (users (graph w)))]>
                (node_mappings (engine w)))))) !! node_type = Some (enumerate_ids ids) ∧
    (<["parent_category" := invert (enumerate_ids (keys (parent_nodes (graph w))))]>
       (<["category" := invert (enumerate_ids (keys (category_nodes (graph w))))]>
          (<["video" := invert (enumerate_ids (keys (videos (graph w))))]>
             (<["user" := invert (enumerate_ids (keys (users (graph w))))]>
                (reverse_mappings (engine w)))))) !! node_type
    = Some (invert (enumerate_ids ids))).
  { intros nt ids Hin. unfold _get_all_nodes in Hin.
    repeat (apply elem_of_cons in Hin as [Hin|Hin]; [injection Hin as -> ->|]);
      [| | | |by apply elem_of_nil in Hin];
      repeat split;
      repeat (first [by rewrite lookup_insert_eq | rewrite lookup_insert_ne by done]). }
  split; [|split; [|split]].
  - intros nt ids Hin. destruct (Hnodes nt ids Hin) as (H1 & H2 & H3).
    split; [done|]. exists (enumerate_ids ids), (invert (enumerate_ids ids)).
    split; [done|]. split; [done|]. intros id i Hi.
    destruct (enumerate_ids_Some ids id i Hi) as [Hlt Hid]. split; [done|]. split; [done|].
    apply invert_lookup; [|done]. intros id1 id2 j. apply enumerate_ids_inj.
  - intros src rel dst pairs s t Hin Hst.
    apply list_elem_of_fmap in Hin as ([et es] & [= <- ->] & Hin).
    apply list_elem_of_omap in Hin as ([et' el] & Hin & Hsome). cbn [fst snd] in Hsome.
    destruct (decide (el = [])); [done|].
    destruct (mapped_edges _ _ _ el) as [|e0 es0] eqn:Hm; [done|]. injection Hsome as -> <-.
    apply list_elem_of_fmap in Hst as ([[s' t'] q] & [= <- <-] & Hst).
    rewrite <- Hm in Hst. apply elem_of_mapped_edges in Hst as (e & _ & Hs & Ht & _).
    assert (Hty : (∃ ids_src, (src, ids_src) ∈ _get_all_nodes (graph w)) ∧
                  (∃ ids_dst, (dst, ids_dst) ∈ _get_all_nodes (graph w))).
    { unfold _get_all_edges in Hin.
      repeat (apply elem_of_cons in Hin as [Hin|Hin]; [injection Hin as -> -> -> _|]);
        [| | | | | | | |by apply elem_of_nil in Hin];
        (split; apply node_type_listed;
         repeat first [apply list_elem_of_here | apply list_elem_of_further]). }
    destruct Hty as ((ids_src & Hsrc) & (ids_dst & Hdst)).
    destruct (Hnodes src ids_src Hsrc) as (A1 & A2 & _).
    destruct (Hnodes dst ids_dst Hdst) as (B1 & B2 & _).
    cbn [fst snd] in Hs, Ht. rewrite A2 in Hs. rewrite B2 in Ht. cbn [default] in Hs, Ht.
    apply enumerate_ids_Some in Hs as [Hs _], Ht as [Ht _].
    by exists (length ids_src), (length ids_dst).
  - intros et pairs Hin. apply list_elem_of_fmap in Hin as ([et' es] & [= <- ->] & Hin).
    apply list_elem_of_omap in Hin as ([et'' el] & Hin & Hsome). cbn [fst snd] in Hsome.
    destruct (decide (el = [])); [done|].
    destruct (mapped_edges _ _ _ el) as [|e0 es0] eqn:Hm; [done|]. by injection Hsome as <- <-.
  - apply Forall2_fmap, Forall_Forall2_diag, Forall_forall. intros [et es] _.
    cbn [fst snd]. by rewrite !length_fmap.
Qed.

End loader.

(** * Writing the embeddings *)

Lemma fmap_cy_set_where {K V W} (h : V → W) (p : K → bool) (f : V → V) (f' : W → W)
    (l : list (K * V)) :
  (∀ v, h (f v) = f' (h v)) →
  prod_map id h <$> cy_set_where p f l = cy_set_where p f' (prod_map id h <$> l).
Proof.
  intros Hf. unfold cy_set_where. rewrite <- !list_fmap_compose.
  apply list_fmap_ext. intros i [k v] _. simpl. destruct (p k); simpl; [|done].
  by rewrite Hf.
Qed.

Lemma fmap_cy_set_where_frame {K V W} (h : V → W) (p : K → bool) (f : V → V)
    (l : list (K * V)) :
  (∀ v, h (f v) = h v) →
  prod_map id h <$> cy_set_where p f l = prod_map id h <$> l.
Proof.
  intros Hf. unfold cy_set_where. rewrite <- !list_fmap_compose.
  apply list_fmap_ext. intros i [k v] _. simpl. destruct (p k); simpl; [|done].
  by rewrite Hf.
Qed.

Lemma same_but_embeddings_refl g : same_but_embeddings g g.
Proof. by repeat split. Qed.

Lemma same_but_embeddings_trans g1 g2 g3 :
  same_but_embeddings g1 g2 → same_but_embeddings g2 g3 → same_but_embeddings g1 g3.
Proof.
  intros (A1 & A2 & A3 & A4 & A5 & A6 & A7 & A8 & A9 & A10 & A11 & A12)
         (B1 & B2 & B3 & B4 & B5 & B6 & B7 & B8 & B9 & B10 & B11 & B12).
  repeat split; by etrans.
Qed.

Lemma store_embedding_same node_type node_id text g :
  same_but_embeddings g (store_embedding node_type node_id text g).
Proof.
  unfold store_embedding.
  repeat case_decide; repeat split; try done; unfold node_data, cy_set; simpl;
    by apply fmap_cy_set_where_frame.
Qed.

Lemma store_embedding_embeddings nt' node_type node_id text g :
  embeddings nt' (store_embedding node_type node_id text g)
  = if decide (nt' = node_type) then cy_set node_id (λ _, Some text) (embeddings nt' g)
    else embeddings nt' g.
Proof.
  unfold store_embedding, embeddings, cy_set.
  destruct (decide (nt' = node_type)) as [->|Hne].
  - repeat case_decide; simpl; try done; by apply fmap_cy_set_where.
  - repeat case_decide; simpl; try done; congruence.
Qed.

Section store.
Context `{B : Backend}.

Lemma _store_embeddings_in_neo4j_same node_type entries g :
  same_but_embeddings g (_store_embeddings_in_neo4j node_type entries g).
Proof.
  unfold _store_embeddings_in_neo4j. revert g.
  induction entries as [|p entries IH]; intros g; [apply same_but_embeddings_refl|].
  cbn [foldl]. eapply same_but_embeddings_trans; [apply store_embedding_same|apply IH].
Qed.

Lemma _store_embeddings_in_neo4j_embeddings nt' node_type entries g :
  embeddings nt' (_store_embeddings_in_neo4j node_type entries g)
  = if decide (nt' = node_type)
    then foldl (λ l p, cy_set p.1 (λ _, Some (json_dumps p.2)) l) (embeddings nt' g) entries
    else embeddings nt' g.
Proof.
  unfold _store_embeddings_in_neo4j. revert g.
  induction entries as [|p entries IH]; intros g; cbn [foldl].
  - by destruct (decide _).
  - rewrite IH, store_embedding_embeddings. by destruct (decide _).
Qed.

Lemma cy_get_foldl_cy_set (entries : list (string * Vec)) (l : list (string * option string)) k :
  NoDup entries.*1 →
  cy_get k (foldl (λ l p, cy_set p.1 (λ _, Some (json_dumps p.2)) l) l entries)
  = match list_find (λ p, p.1 = k) entries with
    | Some (_, p) => (λ _, Some (json_dumps p.2)) <$> cy_get k l
    | None => cy_get k l
    end.
Proof.
  revert l. induction entries as [|[k' v] entries IH]; intros l Hnd; [done|].
  rewrite fmap_cons in Hnd. apply NoDup_cons in Hnd as [Hk' Hnd].
  cbn [foldl]. rewrite IH by done. unfold cy_set at 1 2.
  rewrite cy_get_cy_set_where. cbn [list_find fst snd]. unfold key_is.
  destruct (decide (k' = k)) as [->|Hne].
  - rewrite bool_decide_eq_true_2 by done.
    destruct (list_find (λ p, p.1 = k) entries) as [[i p]|] eqn:Hf.
    + apply list_find_Some in Hf as (Hl & Hp & _). exfalso. apply Hk'.
      apply list_elem_of_fmap. exists p. split; [done|]. by eapply list_elem_of_lookup_2.
    + done.
  - rewrite bool_decide_eq_false_2 by congruence.
    destruct (list_find (λ p, p.1 = k) entries) as [[i p]|]; simpl;
      by destruct (cy_get k l).
Qed.

Lemma list_find_mapping (mapping : gmap string nat) (f : nat → Vec) k :
  match list_find (λ p, p.1 = k) ((λ p, (p.1, f p.2)) <$> map_to_list mapping) with
  | Some (_, p) => ∃ idx, mapping !! k = Some idx ∧ p = (k, f idx)
  | None => mapping !! k = None
  end.
Proof.
  destruct (list_find _ _) as [[i p]|] eqn:Hf.
  - apply list_find_Some in Hf as (Hl & Hp & _).
    apply list_elem_of_lookup_2, list_elem_of_fmap in Hl as ([k' idx] & -> & Hin).
    simpl in Hp. subst k'. apply elem_of_map_to_list in Hin. by exists idx.
  - apply list_find_None in Hf. destruct (mapping !! k) as [idx|] eqn:Hm; [|done].
    exfalso. rewrite Forall_forall in Hf. apply (Hf (k, f idx)); [|done].
    apply list_elem_of_fmap. exists (k, idx). split; [done|]. by apply elem_of_map_to_list.
Qed.

(** X17. When
    [_extract_and_store_embeddings] succeeds, the graph differs from the
    one before only in embeddings (and their stamps): no node or
    relationship is created or removed and no attribute changes. For each
    of the four node types, a node whose id is in the type's mapping now
    stores the JSON text of the row of the evaluation-mode output at the
    id's position; a node the mapping does not know keeps whatever
    embedding it had, and an id of the mapping that has no node any more
    is skipped. Success takes a model, a data object with at least one
    edge type and the four mappings. *)
Theorem _extract_and_store_embeddings_writes w w' :
  _extract_and_store_embeddings w = Ok ((), w') →
  ∃ m d,
    model (engine w) = Some m ∧ data (engine w) = Some d ∧
    edge_index_dict d ≠ [] ∧
    same_but_embeddings (graph w) (graph w') ∧
    ∀ node_type, node_type ∈ node_types →
      ∃ mapping,
        node_mappings (engine w) !! node_type = Some mapping ∧
        ∀ k, cy_get k (embeddings node_type (graph w'))
             = match mapping !! k with
               | Some idx =>
                   (λ _, Some (json_dumps (embed m d node_type idx)))
                     <$> cy_get k (embeddings node_type (graph w))
               | None => cy_get k (embeddings node_type (graph w))
               end.
Proof.
  unfold _extract_and_store_embeddings.
  destruct (model (engine w)) as [m|]; [|done]. destruct (data (engine w)) as [d|]; [|done].
  destruct (decide (edge_index_dict d = [])) as [|Hedges]; [done|].
  unfold node_types at 1. cbn [foldl].
  destruct (node_mappings (engine w) !! "user") as [m1|] eqn:H1; [|done].
  destruct (node_mappings (engine w) !! "video") as [m2|] eqn:H2; [|done].
  destruct (node_mappings (engine w) !! "category") as [m3|] eqn:H3; [|done].
  destruct (node_mappings (engine w) !! "parent_category") as [m4|] eqn:H4; [|done].
  intros Hb. apply _build_faiss_index_graph in Hb. rewrite Hb.
  cbn [graph with_graph]. exists m, d. split; [done|]. split; [done|]. split; [done|].
  set (e1 := (λ p, (p.1, embed m d "user" p.2)) <$> map_to_list m1).
  set (e2 := (λ p, (p.1, embed m d "video" p.2)) <$> map_to_list m2).
  set (e3 := (λ p, (p.1, embed m d "category" p.2)) <$> map_to_list m3).
  set (e4 := (λ p, (p.1, embed m d "parent_category" p.2)) <$> map_to_list m4).
  split.
  - eapply same_but_embeddings_trans; [apply (_store_embeddings_in_neo4j_same "user" e1)|].
    eapply same_but_embeddings_trans; [apply (_store_embeddings_in_neo4j_same "video" e2)|].
    eapply same_but_embeddings_trans;
      [apply (_store_embeddings_in_neo4j_same "category" e3)|].
    apply _store_embeddings_in_neo4j_same.
  - assert (Hnd : ∀ nt (mp : gmap string nat),
              NoDup ((λ p, (p.1, embed m d nt p.2)) <$> map_to_list mp).*1).
    { intros nt mp. rewrite <- list_fmap_compose.
      apply (NoDup_fst_map_to_list mp). }
    intros nt Hnt. unfold node_types in Hnt.
    repeat (apply elem_of_cons in Hnt as [->|Hnt]); [| | | |by apply elem_of_nil in Hnt].
    + exists m1. split; [done|]. intros k.
      rewrite !_store_embeddings_in_neo4j_embeddings.
      rewrite !decide_False, decide_True by done.
      rewrite cy_get_foldl_cy_set by apply Hnd.
      pose proof (list_find_mapping m1 (embed m d "user") k) as Hf. fold e1 in Hf.
      destruct (list_find _ e1) as [[i p]|].
      * by destruct Hf as (idx & -> & ->).
      * by rewrite Hf.
    + exists m2. split; [done|]. intros k.
      rewrite !_store_embeddings_in_neo4j_embeddings.
      rewrite !decide_False, decide_True, decide_False by done.
      rewrite cy_get_foldl_cy_set by apply Hnd.
      pose proof (list_find_mapping m2 (embed m d "video") k) as Hf. fold e2 in Hf.
      destruct (list_find _ e2) as [[i p]|].
      * by destruct Hf as (idx & -> & ->).
      * by rewrite Hf.
    + exists m3. split; [done|]. intros k.
      rewrite !_store_embeddings_in_neo4j_embeddings.
      rewrite decide_False, decide_True, !decide_False by done.
      rewrite cy_get_foldl_cy_set by apply Hnd.
      pose proof (list_find_mapping m3 (embed m d "category") k) as Hf. fold e3 in Hf.
      destruct (list_find _ e3) as [[i p]|].
      * by destruct Hf as (idx & -> & ->).
      * by rewrite Hf.
    + exists m4. split; [done|]. intros k.
      rewrite !_store_embeddings_in_neo4j_embeddings.
      rewrite decide_True, !decide_False by done.
      rewrite cy_get_foldl_cy_set by apply Hnd.
      pose proof (list_find_mapping m4 (embed m d "parent_category") k) as Hf.
      fold e4 in Hf.
      destruct (list_find _ e4) as [[i p]|].
      * by destruct Hf as (idx & -> & ->).
      * by rewrite Hf.
Qed.

End store.
Lemma _extract_and_store_embeddings_writes_witness :
  ∃ w', _extract_and_store_embeddings loaded_world = Ok ((), w') ∧
        same_but_embeddings (graph loaded_world) (graph w') ∧
        cy_get "u2" (embeddings "user" (graph w')) = Some (Some "[2, 1]").
Proof.
  destruct (is_ok_Ok (_extract_and_store_embeddings loaded_world))
    as [[[] w'] Hrun]; [by vm_compute|].
  exists w'. split; [exact Hrun|].
  destruct (_extract_and_store_embeddings_writes loaded_world w' Hrun)
    as (m & d & _ & _ & _ & Hsame & Hemb).
  split; [exact Hsame|].
  destruct (Hemb "user") as (mapping & Hm & Hk).
  { apply list_elem_of_here. }
  rewrite Hk. injection Hm as <-. reflexivity.
Defined.

(** * The theorems at concrete worlds *)


Lemma check_model_needs_training_spec_witness :
  check_model_needs_training (serving_world None) = false ∧
  check_model_needs_training grown_world = true.
Proof.
  split.
  - apply (check_model_needs_training_spec (serving_world None)).
    + by eexists.
    + reflexivity.
    + reflexivity.
    + reflexivity.
  - apply (check_model_needs_training_spec grown_world).
    + reflexivity.
    + by vm_compute.
Defined.

Lemma _train_epoch_total_witness :
  _train_epoch 0%nat drifted_world = Ok ((0%Q, 0%nat), drifted_world).
Proof.
  refine (proj2 (proj2 (_train_epoch_total 0%nat drifted_world)) _ 3%nat
            (enumerate_ids ["u1"; "u2"]) (enumerate_ids ["v1"; "v2"; "v3"]) eq_refl _ _ _ _).
  - reflexivity.
  - reflexivity.
  - reflexivity.
  - intros i Hi. apply list_elem_of_singleton in Hi as ->. left. reflexivity.
Defined.

Lemma get_recommendations_unwatched_witness :
  get_recommendations "u1" 1 (serving_world (Some "[2, 1]"))
  = Ok (["v3"], serving_world (Some "[2, 1]")) ∧
  "v3" ∉ watched_videos "u1" (graph (serving_world (Some "[2, 1]"))).
Proof.
  assert (Hrun : get_recommendations "u1" 1 (serving_world (Some "[2, 1]"))
                 = Ok (["v3"], serving_world (Some "[2, 1]"))) by reflexivity.
  split; [exact Hrun|].
  apply (get_recommendations_unwatched _ _ _ _ _ Hrun).
  - by eexists.
  - apply list_elem_of_here.
Defined.

(** The claim as stated fails on the fallback: u1 has no embedding and has
    watched v1, the most watched video, which heads the answer. *)
Lemma fallback_recommends_watched :
  get_recommendations "u1" 2 (serving_world None)
  = Ok (["v1"; "v2"], serving_world None) ∧
  "v1" ∈ watched_videos "u1" (graph (serving_world None)).
Proof.
  split; [reflexivity|]. apply (bool_decide_unpack _). by vm_compute.
Qed.

Lemma get_recommendations_cold_start_witness :
  get_recommendations "u1" 2 (serving_world None)
  = Ok (["v1"; "v2"], serving_world None).
Proof.
  apply (proj1 (get_recommendations_cold_start "u1" 2 (serving_world None))).
  - by eexists.
  - reflexivity.
Defined.

(** The claim as stated fails in three ways. A malformed embedding: the
    text is not empty, so the fallback is not taken, and decoding it
    raises. A user without embedding while no index is in memory: the
    index is first rebuilt from the stored video embeddings, and one that
    does not decode raises before the user is looked up; and in an
    untrained process over a graph without relationships the training run
    raises when it collects the edge indices. *)
Lemma cold_start_raises :
  (stored_embedding "u1" (graph (serving_world (Some "not json"))) = Some "not json" ∧
   get_recommendations "u1" 2 (serving_world (Some "not json")) = Raise JSONDecodeError) ∧
  (stored_embedding "u1" (graph bad_video_world) = None ∧
   get_recommendations "u1" 2 bad_video_world = Raise JSONDecodeError) ∧
  (stored_embedding "u1" (graph unrelated_world) = None ∧
   get_recommendations "u1" 2 unrelated_world = Raise KeyError).
Proof. repeat split; reflexivity. Qed.

Lemma train_run_metadata_witness :
  ∃ w', train_gnn_and_update_embeddings 50 128 untrained_world = Ok ((), w') ∧
        md_total_epochs (model_metadata (engine w')) = Some 30 ∧
        METADATA_PATH (files w') = Missing.
Proof.
  destruct (is_ok_Ok (train_gnn_and_update_embeddings 50 128 untrained_world))
    as [[[] w'] Hrun]; [by vm_compute|].
  exists w'. split; [exact Hrun|].
  destruct (train_run_metadata 50 128 untrained_world w' Hrun) as (He & Hp & _).
  split; [exact He|exact Hp].
Defined.

Lemma trained_model_lost_on_restart_witness :
  ∃ w', train_gnn_and_update_embeddings 30 128 untrained_world = Ok ((), w') ∧
        exists_ (MODEL_PATH (files w')) = true ∧
        model (engine (__init__ (graph w') (files w') 0%nat 6000)) = None.
Proof.
  destruct (is_ok_Ok (train_gnn_and_update_embeddings 30 128 untrained_world))
    as [[[] w'] Hrun]; [by vm_compute|].
  exists w'. split; [exact Hrun|].
  destruct (trained_model_lost_on_restart 30 128 untrained_world w' 0%nat 6000
              eq_refl Hrun) as (_ & Hs & Hn & _).
  split; [exact Hs|exact Hn].
Defined.

(** * The watches a bulk sync writes *)

Lemma run_statement_watches g st k :
  k ∈ keys (watches (run_statement g st)) →
  k ∈ keys (watches g) ∨
  ∃ w, st = SWatch w ∧ k = (user_id (watch_user w), video_id (watch_video w)).
Proof.
  destruct st as [pc|c|u|v|w|l|f|]; cbn [run_statement];
    unfold watch_statement, like_statement, sync_follow_to_neo4j, sync_video_to_neo4j;
    rewrite ?foldl_bump_interest, ?foldl_belongs_row;
    try destruct (has_key _ _ && has_key _ _); simpl; try (by left).
  intros Hk. apply elem_of_keys_cy_merge in Hk as [->|Hk]; [right; by exists w|by left].
Qed.

Lemma foldl_run_statement_watches ops g k :
  k ∈ keys (watches (foldl run_statement g ops)) →
  k ∈ keys (watches g) ∨
  ∃ w, SWatch w ∈ ops ∧ k = (user_id (watch_user w), video_id (watch_video w)).
Proof.
  revert g. induction ops as [|st ops IH]; intros g; cbn [foldl]; [by left|].
  intros Hk. apply IH in Hk as [Hk|(w & Hw & ->)].
  - apply run_statement_watches in Hk as [Hk|(w & -> & ->)]; [by left|].
    right. exists w. split; [apply list_elem_of_here|done].
  - right. exists w. split; [by apply list_elem_of_further|done].
Qed.

Lemma SWatch_bulk_statements w db :
  SWatch w ∈ bulk_statements db ↔ w ∈ take 10000 (Watch_objects db).
Proof.
  unfold bulk_statements. rewrite !elem_of_app, !list_elem_of_fmap, list_elem_of_singleton.
  split.
  - intros [(x & ? & _)|[(x & ? & _)|[(x & ? & _)|[(x & ? & _)|[(x & Hx & Hin)|
      [(x & ? & _)|[(x & ? & _)|?]]]]]]]; try done. by injection Hx as ->.
  - intros Hin. do 4 right. left. by exists w.
Qed.

(** X18. [bulk_sync_all_data_to_neo4j] reads the first
    10000 watch rows only: a [Watches] relationship of the graph after it
    was either there before or belongs to one of those rows, so the
    watches beyond the limit are never synced by it. Within the limit
    nothing is lost: with unique keys on both sides, every one of the
    first 10000 rows whose user and video are rows of their tables has
    its relationship afterwards. *)
Theorem bulk_sync_watch_limit s :
  (∀ k, k ∈ keys (watches (neo4j (bulk_sync_all_data_to_neo4j s))) →
        k ∈ keys (watches (neo4j s)) ∨
        ∃ w, w ∈ take 10000 (Watch_objects (django s)) ∧
             k = (user_id (watch_user w), video_id (watch_video w))) ∧
  (wf_django (django s) → unique_keys (neo4j s) →
   ∀ w, w ∈ take 10000 (Watch_objects (django s)) →
        watch_user w ∈ User_objects (django s) →
        watch_video w ∈ Video_objects (django s) →
        (user_id (watch_user w), video_id (watch_video w))
          ∈ keys (watches (neo4j (bulk_sync_all_data_to_neo4j s)))).
Proof.
  rewrite bulk_sync_statements. split.
  - intros k Hk. apply foldl_run_statement_watches in Hk as [Hk|(w & Hw & ->)]; [by left|].
    right. exists w. split; [by apply SWatch_bulk_statements|done].
  - intros Hwf Hg w Hw Hu Hv.
    assert (Hsynced := foldl_run_statement_synced (bulk_statements (django s)) (neo4j s)
                         Hg (bulk_statements_ordered _ Hwf)).
    assert (HU : SUser (watch_user w) ∈ bulk_statements (django s)).
    { unfold bulk_statements. rewrite !elem_of_app, !list_elem_of_fmap.
      do 2 right. left. by exists (watch_user w). }
    assert (HV : SVideo (watch_video w) ∈ bulk_statements (django s)).
    { unfold bulk_statements. rewrite !elem_of_app, !list_elem_of_fmap.
      do 3 right. left. by exists (watch_video w). }
    assert (HW : SWatch w ∈ bulk_statements (django s)) by by apply SWatch_bulk_statements.
    apply Hsynced in HU, HV, HW. cbn [synced] in HU, HV, HW.
    destruct HV as (HV & _). apply holds_key_in in HU, HV.
    destruct (HW HU HV) as [Hrel _]. by apply holds_key_in in Hrel.
Qed.

(** * Training over a graph without relationships *)

Section no_relationships.
Context `{B : Backend}.







End no_relationships.

